(** * picode-server: role/permission resolver and socket notifier

    A shallow embedding of
      - [src/models/user.model.ts]      ([hasRole], [hasPermission]),
      - the permission model            (the [code] virtual),
      - the role middleware             ([authorize]),
      - [src/middleware/permission.middlware.ts] ([requirePermission]),
      - the token utilities             ([verifyAccessToken]),
      - [src/socket.ts]                 ([initializeSocket], [notifyRoles]),
      - [src/middleware/auth.middleware.ts] ([protect]),
      - the query and mail utilities    ([getSortStage], [mongoUtils],
                                         [sendEmail], [sendInquiryNotification]),
      - the user, blog, career and inquiry controllers ([deleteUser], the
        status filter of the listings, [createInquiry]),
      - the role controller             ([createRole], [updateRole],
                                         [deleteRole]),
      - the auth controller             ([register], [forgotPassword],
                                         [resetPassword]),
    followed by the properties of the specification that concern them and
    by further properties of the code. *)

From Stdlib Require Import String Ascii List Bool Arith PeanoNat Lia.
Import ListNotations.
Local Open Scope string_scope.
Local Open Scope list_scope.

(* ================================================================= *)
(** ** JavaScript primitives used by the sources *)

Module Js.

(** [Array.prototype.some]. *)
Definition some {A : Type} (f : A -> bool) (xs : list A) : bool :=
  existsb f xs.

(** The result of [typeof v] for the values that occur in the sources. *)
Inductive type_tag : Type := TObject | TString | TUndefined.

Definition type_tag_eqb (a b : type_tag) : bool :=
  match a, b with
  | TObject, TObject | TString, TString | TUndefined, TUndefined => true
  | _, _ => false
  end.

(** A property read that may yield [undefined]: [None] is [undefined]. *)
Definition prop (A : Type) : Type := option A.

(** [x === s] where [x] may be [undefined] and [s] is a string. *)
Definition strict_eq (x : prop string) (s : string) : bool :=
  match x with
  | Some v => String.eqb v s
  | None => false
  end.

(** String conversion inside a template literal: [`${x}`]. *)
Definition to_template (x : prop string) : string :=
  match x with
  | Some v => v
  | None => "undefined"
  end.

(** Truthiness of a string-or-undefined value: [""] and [undefined]
    are falsy. *)
Definition truthy_str (x : prop string) : bool :=
  match x with
  | Some v => negb (String.eqb v "")
  | None => false
  end.

(** [s.split(sep)[0]]: the text before the first separator, the whole
    string when there is none. *)
Fixpoint split_head (sep : ascii) (s : string) : string :=
  match s with
  | EmptyString => EmptyString
  | String c rest =>
      if Ascii.eqb c sep then EmptyString
      else String c (split_head sep rest)
  end.

(** Whether [sep] occurs in [s]. *)
Fixpoint occurs (sep : ascii) (s : string) : bool :=
  match s with
  | EmptyString => false
  | String c rest => Ascii.eqb c sep || occurs sep rest
  end.

End Js.

(* ================================================================= *)
(** ** Data model (models/permission.model.ts, role.model.ts,
       user.model.ts) *)

(** A Mongo [ObjectId], identified by its hexadecimal rendering. *)
Definition ObjectId : Type := string.

(** [IPermission]: the [name] (action) and [resource] fields. *)
Record IPermission : Type := mkPermission {
  permission_name : string;
  permission_resource : string
}.

(** The [code] virtual of [PermissionSchema]. *)
Definition code (this : IPermission) : string :=
  permission_resource this ++ ":" ++ permission_name this.

(** An element of [IRole.permissions : Types.ObjectId[] | IPermission[]]:
    an unpopulated reference or a populated document. *)
Inductive PermissionEntry : Type :=
| PermissionRef (id : ObjectId)
| PermissionDoc (p : IPermission).

(** [IRole]: [permissions] is [None] when the field is absent. *)
Record IRole : Type := mkRole {
  role_name : string;
  role_permissions : Js.prop (list PermissionEntry)
}.

(** An element of [IUser.roles : Types.ObjectId[] | IRole[]]. *)
Inductive RoleEntry : Type :=
| RoleRef (id : ObjectId)
| RoleDoc (r : IRole).

(** [IUser]: the fields read by the resolver and by the socket layer. *)
Record IUser : Type := mkUser {
  user_id : Js.prop ObjectId;
  user_roles : Js.prop (list RoleEntry)
}.

(** [typeof] of an element of [roles].  [Types.ObjectId] is a class, so
    an unpopulated reference is an object just as a populated document
    is: the test [typeof x === 'object' && x !== null] holds for both. *)
Definition typeof_role (e : RoleEntry) : Js.type_tag :=
  match e with
  | RoleRef _ => Js.TObject
  | RoleDoc _ => Js.TObject
  end.

(** [typeof] of an element of [permissions], likewise. *)
Definition typeof_permission (e : PermissionEntry) : Js.type_tag :=
  match e with
  | PermissionRef _ => Js.TObject
  | PermissionDoc _ => Js.TObject
  end.

(** [role.name]: an [ObjectId] has no such property, the read yields
    [undefined]. *)
Definition entry_name (e : RoleEntry) : Js.prop string :=
  match e with
  | RoleRef _ => None
  | RoleDoc r => Some (role_name r)
  end.

(** [role.permissions]. *)
Definition entry_permissions (e : RoleEntry) : Js.prop (list PermissionEntry) :=
  match e with
  | RoleRef _ => None
  | RoleDoc r => role_permissions r
  end.

(** [permission.resource] and [permission.name]. *)
Definition entry_resource (e : PermissionEntry) : Js.prop string :=
  match e with
  | PermissionRef _ => None
  | PermissionDoc p => Some (permission_resource p)
  end.

Definition entry_action (e : PermissionEntry) : Js.prop string :=
  match e with
  | PermissionRef _ => None
  | PermissionDoc p => Some (permission_name p)
  end.

(** The template literal [`${permission.resource}:${permission.name}`]. *)
Definition composite (e : PermissionEntry) : string :=
  Js.to_template (entry_resource e) ++ ":" ++ Js.to_template (entry_action e).

(* ================================================================= *)
(** ** [UserSchema.methods.hasRole] and [hasPermission] *)

Definition hasRole (this : IUser) (roleName : string) : bool :=
  match user_roles this with
  | None => false
  | Some [] => false
  | Some ((first :: _) as roles) =>
      if Js.type_tag_eqb (typeof_role first) Js.TObject
      then Js.some (fun role => Js.strict_eq (entry_name role) roleName) roles
      else false
  end.

(** The inner [for (const permission of role.permissions)] loop, which
    returns [true] at the first match. *)
Fixpoint scan_permissions (permissions : list PermissionEntry)
    (permissionCode : string) : bool :=
  match permissions with
  | [] => false
  | permission :: rest =>
      if Js.type_tag_eqb (typeof_permission permission) Js.TObject
         && String.eqb (composite permission) permissionCode
      then true
      else scan_permissions rest permissionCode
  end.

(** The outer [for (const role of this.roles)] loop. *)
Fixpoint scan_roles (roles : list RoleEntry) (permissionCode : string) : bool :=
  match roles with
  | [] => false
  | role :: rest =>
      match entry_permissions role with
      | None => scan_roles rest permissionCode
      | Some permissions =>
          if scan_permissions permissions permissionCode then true
          else scan_roles rest permissionCode
      end
  end.

Definition hasPermission (this : IUser) (permissionCode : string) : bool :=
  match user_roles this with
  | None => false
  | Some [] => false
  | Some ((first :: _) as roles) =>
      if Js.type_tag_eqb (typeof_role first) Js.TObject
      then scan_roles roles permissionCode
      else false
  end.

(* ================================================================= *)
(** ** Express middleware ([authorize], [requirePermission]) *)

(** [ApiError]: an [Error] with a [statusCode]. *)
Record ApiError : Type := mkApiError {
  message : string;
  statusCode : nat
}.

(** What a middleware hands to [next]. *)
Inductive NextCall : Type :=
| Next
| NextError (error : ApiError).

(** [Request]: only [req.user] is read. *)
Record Request : Type := mkRequest {
  req_user : option IUser
}.

Definition authorize (roles : list string) (req : Request) : NextCall :=
  match req_user req with
  | None => NextError (mkApiError "User not authenticated" 401)
  | Some user =>
      if hasRole user "SuperAdmin" then Next
      else
        let hasRequiredRole := Js.some (fun role => hasRole user role) roles in
        if negb hasRequiredRole
        then NextError (mkApiError "Not authorized to access this route" 403)
        else Next
  end.

Definition requirePermission (permissions : list string) (req : Request)
    : NextCall :=
  match req_user req with
  | None => NextError (mkApiError "User not authenticated" 401)
  | Some user =>
      if hasRole user "SuperAdmin" then Next
      else
        let hasRequiredPermission :=
          Js.some (fun permission => hasPermission user permission) permissions in
        if hasRequiredPermission then Next
        else
          let hasManagePermission :=
            Js.some (fun permission =>
                       let resource := Js.split_head ":" permission in
                       hasPermission user (resource ++ ":manage")
                       || hasPermission user "all:manage")
                    permissions in
          if hasManagePermission then Next
          else NextError
                 (mkApiError "You do not have permission to perform this action" 403)
  end.

(** The decision the HTTP layer reads off a middleware outcome. *)
Inductive Decision : Type :=
| Allow
| Unauthenticated
| Forbidden
| OtherError.

Definition decision (n : NextCall) : Decision :=
  match n with
  | Next => Allow
  | NextError e =>
      if Nat.eqb (statusCode e) 401 then Unauthenticated
      else if Nat.eqb (statusCode e) 403 then Forbidden
      else OtherError
  end.

(* ================================================================= *)
(** ** Exceptions *)

(** A thrown [Error]; [statusCode] is set on [ApiError]s only. *)
Record JsError : Type := mkError {
  error_message : string;
  error_statusCode : Js.prop nat
}.

(** The outcome of a call that may throw. *)
Inductive Outcome (A : Type) : Type :=
| Return (a : A)
| Throw (e : JsError).
Arguments Return {A} a.
Arguments Throw {A} e.

(* ================================================================= *)
(** ** [Map<string, V>]

    A JavaScript [Map] iterates in insertion order, and [notifyRoles]
    walks it in that order, so the map is kept as the list of its
    entries. *)

Module JsMap.
Section WithValue.
Context {V : Type}.

Definition t : Type := list (string * V).

Definition empty : t := [].

Fixpoint get (m : t) (k : string) : option V :=
  match m with
  | [] => None
  | (k', v) :: rest => if String.eqb k' k then Some v else get rest k
  end.

Definition has (m : t) (k : string) : bool :=
  match get m k with
  | Some _ => true
  | None => false
  end.

(** [set] keeps the position of a key that is already present and
    appends a new key at the end. *)
Fixpoint set (m : t) (k : string) (v : V) : t :=
  match m with
  | [] => [(k, v)]
  | (k', v') :: rest =>
      if String.eqb k' k then (k, v) :: rest
      else (k', v') :: set rest k v
  end.

Definition delete (m : t) (k : string) : t :=
  filter (fun e => negb (String.eqb (fst e) k)) m.

(** [entries()], in iteration order. *)
Definition entries (m : t) : list (string * V) := m.

Definition keys (m : t) : list string := map fst m.

(** One entry per key. *)
Definition wf (m : t) : Prop := NoDup (keys m).
End WithValue.
Arguments t V : clear implicits.
End JsMap.

(* ================================================================= *)
(** ** Sockets and the connection registry (socket.ts) *)

(** The [data: any] argument of [emit], as its serialised form. *)
Definition Payload : Type := string.

(** [AuthenticatedSocket]: [socket.id], [socket.handshake.auth.token]
    and the optional [socket.user]. *)
Record AuthenticatedSocket : Type := mkSocket {
  socket_id : string;
  socket_token : Js.prop string;
  socket_user : option IUser
}.

(** A call [s.emit(event, data)]; the heartbeat passes no data. *)
Record Emission : Type := mkEmission {
  emit_to : AuthenticatedSocket;
  emit_event : string;
  emit_data : Js.prop Payload
}.

(** [const activeConnections = new Map<string, AuthenticatedSocket[]>()]. *)
Definition Registry : Type := JsMap.t (list AuthenticatedSocket).

(** Lines 91-98 of the connection handler: create the array when the
    key is absent, then [push] onto the stored array. *)
Definition register (activeConnections : Registry) (userId : string)
    (socket : AuthenticatedSocket) : Registry :=
  let created :=
    if negb (JsMap.has activeConnections userId)
    then JsMap.set activeConnections userId []
    else activeConnections in
  match JsMap.get created userId with
  | Some sockets => JsMap.set created userId (sockets ++ [socket])
  | None => created
  end.

(** Lines 119-128 of the disconnect handler. *)
Definition unregister (activeConnections : Registry) (userId : string)
    (socket : AuthenticatedSocket) : Registry :=
  let userSockets :=
    match JsMap.get activeConnections userId with
    | Some sockets => sockets
    | None => []
    end in
  let updatedSockets :=
    filter (fun s => negb (String.eqb (socket_id s) (socket_id socket)))
           userSockets in
  if Nat.ltb 0 (List.length updatedSockets)
  then JsMap.set activeConnections userId updatedSockets
  else JsMap.delete activeConnections userId.

(* ================================================================= *)
(** ** The token utilities and the handshake middleware *)

(** What [jwt.verify] returns: a string payload or an object payload,
    of which only the [userId] claim is read. *)
Inductive Decoded : Type :=
| DecodedString (s : string)
| DecodedObject (userId : Js.prop string).

(** Truthiness of the decoded payload: an object is truthy, a string is
    truthy unless empty. *)
Definition decoded_truthy (decoded : Decoded) : bool :=
  match decoded with
  | DecodedString s => Js.truthy_str (Some s)
  | DecodedObject _ => true
  end.

(** [decoded.userId]. *)
Definition decoded_userId (decoded : Decoded) : Js.prop string :=
  match decoded with
  | DecodedString _ => None
  | DecodedObject userId => userId
  end.

(** What the Socket.IO middleware hands to its [next]. *)
Inductive SocketNext : Type :=
| Accepted
| Rejected (reason : string).

(** What the handshake depends on outside this module. *)
Record Env : Type := mkEnv {
  (** [process.env.JWT_ACCESS_SECRET] *)
  JWT_ACCESS_SECRET : Js.prop string;
  (** [jwt.verify(token, secret)] of the jsonwebtoken package *)
  jwt_verify : string -> string -> Outcome Decoded;
  (** [await User.findById(id).populate({ path: "roles" })] *)
  findById : string -> Outcome (option IUser)
}.

Section Handshake.

Variable env : Env.

Definition verifyAccessToken (token : string) : Outcome Decoded :=
  match JWT_ACCESS_SECRET env with
  | None => Throw (mkError "JWT_ACCESS_SECRET is not defined" None)
  | Some secret =>
      if negb (Js.truthy_str (Some secret))
      then Throw (mkError "JWT_ACCESS_SECRET is not defined" None)
      else
        match jwt_verify env token secret with
        | Return decoded => Return decoded
        | Throw error =>
            Throw (mkError
                     (if Js.truthy_str (Some (error_message error))
                      then error_message error
                      else "Invalid access token")
                     (Some 401))
        end
  end.

(** The [catch] block of the middleware. *)
Definition auth_catch (error : JsError) : SocketNext :=
  Rejected ("Authentication error: " ++ error_message error).

(** [io.use(async (socket, next) => ...)]: the socket as the
    middleware leaves it, and the argument of [next]. *)
Definition auth_middleware (socket : AuthenticatedSocket)
    : AuthenticatedSocket * SocketNext :=
  match socket_token socket with
  | None => (socket, Rejected "Authentication error: Token not provided")
  | Some token =>
      if negb (Js.truthy_str (Some token))
      then (socket, Rejected "Authentication error: Token not provided")
      else
        match verifyAccessToken token with
        | Throw error => (socket, auth_catch error)
        | Return decoded =>
            if negb (decoded_truthy decoded)
            then (socket, Rejected "Authentication error: Invalid token")
            else
              match decoded_userId decoded with
              | None => (socket, Rejected "Authentication error: Invalid token")
              | Some userId =>
                  if negb (Js.truthy_str (Some userId))
                  then (socket, Rejected "Authentication error: Invalid token")
                  else
                    match findById env userId with
                    | Throw error => (socket, auth_catch error)
                    | Return None =>
                        (socket,
                         Rejected "Authentication error: User not found")
                    | Return (Some user) =>
                        let attached :=
                          mkSocket (socket_id socket) (socket_token socket)
                                   (Some user) in
                        (* [user.roles.map(...)] in the log statement *)
                        match user_roles user with
                        | None =>
                            (attached,
                             auth_catch
                               (mkError
                                  "Cannot read properties of undefined (reading 'map')"
                                  None))
                        | Some _ => (attached, Accepted)
                        end
                    end
              end
        end
  end.

End Handshake.

(* ================================================================= *)
(** ** [notifyRoles] *)

(** The callback of [roles.some] in [notifyRoles]. *)
Definition role_matches (user : IUser) (role : string) : bool :=
  match user_roles user with
  | Some userRoles =>
      Js.some
        (fun userRole =>
           Js.strict_eq (entry_name userRole) role
           || (Js.type_tag_eqb (typeof_role userRole) Js.TObject
               && Js.strict_eq (entry_name userRole) role))
        userRoles
  | None => false
  end.

(** Code that calls [emit] and may throw: the calls made so far and the
    outcome. *)
Definition Eff (A : Type) : Type := (list Emission * Outcome A)%type.

Definition ret {A : Type} (a : A) : Eff A := ([], Return a).

Definition bind {A B : Type} (m : Eff A) (k : A -> Eff B) : Eff B :=
  match m with
  | (calls, Return a) =>
      let (more, outcome) := k a in (calls ++ more, outcome)
  | (calls, Throw e) => (calls, Throw e)
  end.

Notation "m ;;; k" := (bind m (fun _ => k))
  (at level 61, right associativity).

Definition calls {A : Type} (m : Eff A) : list Emission := fst m.
Definition outcome {A : Type} (m : Eff A) : Outcome A := snd m.

Section Notifier.

(** The transport: whether [s.emit(event, data)] returns ([None]) or
    throws ([Some error]). *)
Variable transport_emit :
  AuthenticatedSocket -> string -> Js.prop Payload -> option JsError.

Definition emit (s : AuthenticatedSocket) (event : string)
    (data : Js.prop Payload) : Eff unit :=
  ([mkEmission s event data],
   match transport_emit s event data with
   | Some error => Throw error
   | None => Return tt
   end).

(** [sockets.forEach((s) => s.emit(event, data))]. *)
Fixpoint forEach_emit (sockets : list AuthenticatedSocket) (event : string)
    (data : Js.prop Payload) : Eff unit :=
  match sockets with
  | [] => ret tt
  | s :: rest => emit s event data ;;; forEach_emit rest event data
  end.

(** The body of the [for ... of activeConnections.entries()] loop. *)
Definition notify_entry (roles : list string) (event : string)
    (data : Js.prop Payload) (entry : string * list AuthenticatedSocket)
    : Eff unit :=
  let sockets := snd entry in
  match sockets with
  | [] => ret tt
  | socket :: _ =>
      match socket_user socket with
      | None => ret tt
      | Some user =>
          let hasRole := Js.some (fun role => role_matches user role) roles in
          if hasRole then forEach_emit sockets event data else ret tt
      end
  end.

Fixpoint notify_loop (entries : list (string * list AuthenticatedSocket))
    (roles : list string) (event : string) (data : Js.prop Payload)
    : Eff unit :=
  match entries with
  | [] => ret tt
  | entry :: rest =>
      notify_entry roles event data entry ;;; notify_loop rest roles event data
  end.

Definition notifyRoles (activeConnections : Registry) (roles : list string)
    (event : string) (data : Payload) : Eff unit :=
  notify_loop (JsMap.entries activeConnections) roles event (Some data).

End Notifier.

(** How many of the calls in a log target the connection [sid]. *)
Definition deliveries_to (sid : string) (log : list Emission) : nat :=
  List.length
    (filter (fun e => String.eqb (socket_id (emit_to e)) sid) log).

(* ================================================================= *)
(** ** The event loop of [initializeSocket]

    Callbacks run one at a time.  The state holds the registry, the
    interval timers that are still scheduled, the [disconnect]
    listeners installed so far, and what the server has sent. *)

(** A timer created by [setInterval]: its handle, its delay in
    milliseconds and the socket its callback pings. *)
Record Timer : Type := mkTimer {
  timer_handle : nat;
  timer_delay : nat;
  timer_socket : AuthenticatedSocket;
  timer_userId : string
}.

(** A [socket.on("disconnect", ...)] closure with the [socket],
    [userId] and [pingInterval] it captured. *)
Record DisconnectListener : Type := mkListener {
  listener_socket : AuthenticatedSocket;
  listener_userId : string;
  listener_pingInterval : nat
}.

Record ServerState : Type := mkState {
  activeConnections : Registry;
  intervals : list Timer;
  next_handle : nat;
  listeners : list DisconnectListener;
  (** every [emit] call, oldest first *)
  wire : list Emission;
  (** connection errors returned to clients: socket id and message *)
  connect_errors : list (string * string);
  (** sockets closed by [socket.disconnect()] *)
  forced : list string
}.

Definition initial_state : ServerState :=
  mkState JsMap.empty [] 0 [] [] [] [].

(** [clearInterval(handle)]. *)
Definition clearInterval (handle : nat) (st : ServerState) : ServerState :=
  mkState (activeConnections st)
          (filter (fun t => negb (Nat.eqb (timer_handle t) handle))
                  (intervals st))
          (next_handle st) (listeners st) (wire st) (connect_errors st)
          (forced st).

(** The registry part of the disconnect handler, run after the timer
    has been cleared. *)
Definition prune (l : DisconnectListener) (st : ServerState) : ServerState :=
  mkState (unregister (activeConnections st) (listener_userId l)
                      (listener_socket l))
          (intervals st) (next_handle st) (listeners st) (wire st)
          (connect_errors st) (forced st).

(** The disconnect handler: [clearInterval(pingInterval)] first, the
    registry update second. *)
Definition on_disconnect (l : DisconnectListener) (st : ServerState)
    : ServerState :=
  prune l (clearInterval (listener_pingInterval l) st).

(** The delay given to [setInterval]: 30 seconds. *)
Definition heartbeat_ms : nat := 30 * 1000.

(** The [io.on("connection", ...)] handler. *)
Definition on_connection (socket : AuthenticatedSocket) (st : ServerState)
    : ServerState :=
  let reject :=
    mkState (activeConnections st) (intervals st) (next_handle st)
            (listeners st) (wire st) (connect_errors st)
            (forced st ++ [socket_id socket]) in
  match socket_user socket with
  | None => reject
  | Some user =>
      match user_id user with
      | None => reject
      | Some _id =>
          let userId := _id in
          let pingInterval := next_handle st in
          mkState (register (activeConnections st) userId socket)
                  (intervals st ++ [mkTimer pingInterval heartbeat_ms socket userId])
                  (S pingInterval)
                  (listeners st ++ [mkListener socket userId pingInterval])
                  (wire st) (connect_errors st) (forced st)
      end
  end.

(** The interval callback: [socket.emit("ping")]. *)
Definition on_timer (t : Timer) (st : ServerState) : ServerState :=
  mkState (activeConnections st) (intervals st) (next_handle st)
          (listeners st)
          (wire st ++ [mkEmission (timer_socket t) "ping" None])
          (connect_errors st) (forced st).

(** What the runtime and the Socket.IO server feed the event loop. *)
Inductive Event : Type :=
| EvHandshake (socket : AuthenticatedSocket)
| EvConnection (socket : AuthenticatedSocket)
| EvTimer (handle : nat)
| EvDisconnect (sid : string).

Section EventLoop.

Variable env : Env.

(** A handshake: the middleware, and the connection handler only when
    the middleware called [next()] without an error. *)
Definition on_handshake (socket : AuthenticatedSocket) (st : ServerState)
    : ServerState :=
  match auth_middleware env socket with
  | (attached, Accepted) => on_connection attached st
  | (_, Rejected reason) =>
      mkState (activeConnections st) (intervals st) (next_handle st)
              (listeners st) (wire st)
              (connect_errors st ++ [(socket_id socket, reason)])
              (forced st)
  end.

Definition step (st : ServerState) (ev : Event) : ServerState :=
  match ev with
  | EvHandshake socket => on_handshake socket st
  | EvConnection socket => on_connection socket st
  | EvTimer handle =>
      (* only timers that are still scheduled fire *)
      fold_left (fun acc t => on_timer t acc)
                (filter (fun t => Nat.eqb (timer_handle t) handle)
                        (intervals st))
                st
  | EvDisconnect sid =>
      fold_left (fun acc l => on_disconnect l acc)
                (filter (fun l => String.eqb (socket_id (listener_socket l)) sid)
                        (listeners st))
                st
  end.

Definition run (st : ServerState) (evs : list Event) : ServerState :=
  fold_left step evs st.

End EventLoop.

(** Whether an event opens a connection for the socket id [sid]. *)
Definition opens (sid : string) (ev : Event) : bool :=
  match ev with
  | EvHandshake socket | EvConnection socket => String.eqb (socket_id socket) sid
  | EvTimer _ | EvDisconnect _ => false
  end.

(** The heartbeat calls addressed to [sid] in a log. *)
Definition pings_to (sid : string) (log : list Emission) : list Emission :=
  filter (fun e => String.eqb (socket_id (emit_to e)) sid
                   && String.eqb (emit_event e) "ping") log.

(* ================================================================= *)
(** ** Specification-level notions *)

(** The principal holds the role named [roleName]: one of its resolved
    roles carries that name. *)
Definition holds_role (p : IUser) (roleName : string) : Prop :=
  exists roles r,
    user_roles p = Some roles /\ In (RoleDoc r) roles /\ role_name r = roleName.

(** The principal has a resolved role with a resolved permission whose
    [code] is [permissionCode]. *)
Definition holds_permission (p : IUser) (permissionCode : string) : Prop :=
  exists roles r permissions perm,
    user_roles p = Some roles /\ In (RoleDoc r) roles /\
    role_permissions r = Some permissions /\
    In (PermissionDoc perm) permissions /\ code perm = permissionCode.

(** The connection an accepted socket is registered as: the user id it
    is filed under and the socket. *)
Definition connection_of (socket : AuthenticatedSocket)
    : option (string * AuthenticatedSocket) :=
  match socket_user socket with
  | None => None
  | Some user =>
      match user_id user with
      | None => None
      | Some userId => Some (userId, socket)
      end
  end.

Section LiveConnections.

Variable env : Env.

(** The connection an event establishes, if any. *)
Definition established (ev : Event) : option (string * AuthenticatedSocket) :=
  match ev with
  | EvHandshake socket =>
      match auth_middleware env socket with
      | (attached, Accepted) => connection_of attached
      | (_, Rejected _) => None
      end
  | EvConnection socket => connection_of socket
  | EvTimer _ | EvDisconnect _ => None
  end.

(** The live connections of each user as the specification describes
    them: a connection is live from the moment it is established until
    its socket disconnects. *)
Definition live_step (L : string -> list AuthenticatedSocket) (ev : Event)
    : string -> list AuthenticatedSocket :=
  match ev with
  | EvDisconnect sid =>
      fun userId =>
        filter (fun s => negb (String.eqb (socket_id s) sid)) (L userId)
  | _ =>
      match established ev with
      | Some (owner, socket) =>
          fun userId =>
            if String.eqb owner userId then L userId ++ [socket] else L userId
      | None => L
      end
  end.

Definition live (evs : list Event) : string -> list AuthenticatedSocket :=
  fold_left live_step evs (fun _ => []).

End LiveConnections.

(** The sockets [notifyRoles] addresses, in order: every socket of every
    entry whose first socket carries a principal matching [roles]. *)
Definition entry_targets (roles : list string)
    (entry : string * list AuthenticatedSocket) : list AuthenticatedSocket :=
  match hd_error (snd entry) with
  | Some representative =>
      match socket_user representative with
      | Some principal =>
          if existsb (fun role => hasRole principal role) roles
          then snd entry else []
      | None => []
      end
  | None => []
  end.

Definition targets (activeConnections : Registry) (roles : list string)
    : list AuthenticatedSocket :=
  flat_map (entry_targets roles) (JsMap.entries activeConnections).

(** How many entries of the registry arrays carry the socket id [sid]. *)
Definition count_id (sid : string) (sockets : list AuthenticatedSocket) : nat :=
  List.length (filter (fun s => String.eqb (socket_id s) sid) sockets).

Definition occurrences (sid : string) (activeConnections : Registry) : nat :=
  count_id sid (flat_map snd (JsMap.entries activeConnections)).

(* ================================================================= *)
(** ** Sample principals *)

Module Sample.

Definition HRManager : IRole :=
  mkRole "HRManager" (Some [PermissionDoc (mkPermission "manage" "careers")]).

Definition Editor : IRole :=
  mkRole "Editor" (Some [PermissionDoc (mkPermission "create" "blogs")]).

Definition SuperAdmin : IRole := mkRole "SuperAdmin" (Some []).

(** A role loaded with [populate({ path: "roles" })] only: its
    permissions are still references. *)
Definition EditorShallow : IRole :=
  mkRole "Editor" (Some [PermissionRef "64f1c0ffee0000000000a001"]).

Definition hrManagerUser : IUser :=
  mkUser (Some "64f1c0ffee0000000000b001") (Some [RoleDoc HRManager]).

Definition editorUser : IUser :=
  mkUser (Some "64f1c0ffee0000000000b002") (Some [RoleDoc Editor]).

Definition superAdminUser : IUser :=
  mkUser (Some "64f1c0ffee0000000000b003") (Some [RoleDoc SuperAdmin]).

Definition shallowUser : IUser :=
  mkUser (Some "64f1c0ffee0000000000b004") (Some [RoleDoc EditorShallow]).

(** Connections: one of the editor, two of the super administrator. *)
Definition editorSocket : AuthenticatedSocket :=
  mkSocket "sock-editor-1" (Some "token-editor") (Some editorUser).

Definition adminSocket1 : AuthenticatedSocket :=
  mkSocket "sock-admin-1" (Some "token-admin") (Some superAdminUser).

Definition adminSocket2 : AuthenticatedSocket :=
  mkSocket "sock-admin-2" (Some "token-admin") (Some superAdminUser).

(** A client that presents an expired token. *)
Definition staleSocket : AuthenticatedSocket :=
  mkSocket "sock-stale-1" (Some "token-expired") None.

Definition payload : Payload := "{ title: X }".

(** A transport on which [emit] always returns. *)
Definition never_throws
    : AuthenticatedSocket -> string -> Js.prop Payload -> option JsError :=
  fun _ _ _ => None.

(** A transport on which [emit] throws for the socket [sid]. *)
Definition throws_at (sid : string)
    : AuthenticatedSocket -> string -> Js.prop Payload -> option JsError :=
  fun s _ _ =>
    if String.eqb (socket_id s) sid
    then Some (mkError "transport failure" None)
    else None.

(** An environment: the secret, a verifier that knows two tokens and
    reports every other token as expired, and the user collection. *)
Definition secret : Js.prop string := Some "s3cret".

Definition verifier (token _ : string) : Outcome Decoded :=
  if String.eqb token "token-editor"
  then Return (DecodedObject (user_id editorUser))
  else if String.eqb token "token-admin"
  then Return (DecodedObject (user_id superAdminUser))
  else Throw (mkError "jwt expired" None).

Definition users (userId : string) : Outcome (option IUser) :=
  if Js.strict_eq (user_id editorUser) userId then Return (Some editorUser)
  else if Js.strict_eq (user_id superAdminUser) userId
  then Return (Some superAdminUser)
  else Return None.

Definition env : Env := mkEnv secret verifier users.

(** A socket as it arrives at the handshake, before a user is attached. *)
Definition joining (s : AuthenticatedSocket) : AuthenticatedSocket :=
  mkSocket (socket_id s) (socket_token s) None.

(** The editor connects once and the super administrator twice. *)
Definition three_connections : list Event :=
  [EvHandshake (joining editorSocket);
   EvHandshake (joining adminSocket1);
   EvHandshake (joining adminSocket2)].

End Sample.

(* ================================================================= *)
(** ** Invariants of the event loop *)

(** How the registry stores a user's connections: no key for the empty
    list, the list itself otherwise. *)
Definition stored (sockets : list AuthenticatedSocket)
    : option (list AuthenticatedSocket) :=
  match sockets with
  | [] => None
  | _ :: _ => Some sockets
  end.

(** [activeConnections.get(userId) || []]. *)
Definition or_empty (o : option (list AuthenticatedSocket))
    : list AuthenticatedSocket :=
  match o with
  | Some sockets => sockets
  | None => []
  end.

(** The registry holds exactly the connections [L]. *)
Definition registry_tracks (st : ServerState)
    (L : string -> list AuthenticatedSocket) : Prop :=
  forall userId, JsMap.get (activeConnections st) userId = stored (L userId).

(** Every connection of [L] has its [disconnect] listener installed. *)
Definition listeners_cover (st : ServerState)
    (L : string -> list AuthenticatedSocket) : Prop :=
  forall userId s,
    In s (L userId) ->
    exists l,
      In l (listeners st) /\
      socket_id (listener_socket l) = socket_id s /\
      listener_userId l = userId.

(** Every scheduled heartbeat timer is known to a [disconnect] listener
    of the socket it pings. *)
Definition timers_owned (st : ServerState) : Prop :=
  forall t,
    In t (intervals st) ->
    exists l,
      In l (listeners st) /\
      socket_id (listener_socket l) = socket_id (timer_socket t) /\
      listener_pingInterval l = timer_handle t.

(** Every scheduled timer is a 30-second heartbeat. *)
Definition timers_periodic (st : ServerState) : Prop :=
  forall t, In t (intervals st) -> timer_delay t = heartbeat_ms.

(** No scheduled timer pings the socket [sid]. *)
Definition no_timer_for (sid : string) (st : ServerState) : Prop :=
  forall t, In t (intervals st) -> socket_id (timer_socket t) <> sid.

(** The call [s.emit(event, data)] as a log entry. *)
Definition emission_of (event : string) (data : Js.prop Payload)
    (s : AuthenticatedSocket) : Emission :=
  mkEmission s event data.

(** The emissions that a call [notifyRoles(roleNames, event, data)] owes
    according to the specification: [event] with [data], to a connection
    in the array of a registered user whose first connection carries a
    principal that holds one of the named roles. *)
Definition notified (reg : Registry) (roles : list string) (event : string)
    (data : Payload) (e : Emission) : Prop :=
  emit_event e = event /\ emit_data e = Some data /\
  exists userId sockets representative principal r,
    In (userId, sockets) (JsMap.entries reg) /\
    In (emit_to e) sockets /\
    hd_error sockets = Some representative /\
    socket_user representative = Some principal /\
    In r roles /\ holds_role principal r.

(* ================================================================= *)
(** ** Further invariants of the event loop *)

(** Handles are handed out in increasing order: every handle in use is
    below [next_handle]. *)
Definition handles_fresh (st : ServerState) : Prop :=
  (forall t, In t (intervals st) -> timer_handle t < next_handle st) /\
  (forall l, In l (listeners st) -> listener_pingInterval l < next_handle st).

(** A timer and a listener with the same handle were created by the
    same run of the connection handler. *)
Definition handles_paired (st : ServerState) : Prop :=
  forall t l,
    In t (intervals st) -> In l (listeners st) ->
    timer_handle t = listener_pingInterval l ->
    listener_socket l = timer_socket t /\ listener_userId l = timer_userId t.

(** No two scheduled timers share a handle. *)
Definition timers_distinct (st : ServerState) : Prop :=
  NoDup (map timer_handle (intervals st)).

(** Every scheduled timer pings a connection of [L]. *)
Definition timers_registered (st : ServerState)
    (L : string -> list AuthenticatedSocket) : Prop :=
  forall t, In t (intervals st) -> In (timer_socket t) (L (timer_userId t)).

(** Every connection of [L] has a scheduled timer. *)
Definition registered_timed (st : ServerState)
    (L : string -> list AuthenticatedSocket) : Prop :=
  forall userId s,
    In s (L userId) ->
    exists t,
      In t (intervals st) /\ timer_socket t = s /\ timer_userId t = userId.

(** Every connection of [L] carries a principal whose id is the key it
    is filed under. *)
Definition filed_under_owner (L : string -> list AuthenticatedSocket) : Prop :=
  forall userId s,
    In s (L userId) ->
    exists user, socket_user s = Some user /\ user_id user = Some userId.

(** The heartbeat call to a socket. *)
Definition ping_to (s : AuthenticatedSocket) : Emission :=
  mkEmission s "ping" None.

(** What holds of the server state and the live connections [L] after
    every event. *)
Definition loop_invariant (st : ServerState)
    (L : string -> list AuthenticatedSocket) : Prop :=
  registry_tracks st L /\ listeners_cover st L /\ timers_owned st /\
  handles_fresh st /\ handles_paired st /\ timers_distinct st /\
  timers_registered st L /\ registered_timed st L /\ filed_under_owner L.

(** The live connections after an accepted connection of [socket] for
    [owner]. *)
Definition with_connection (L : string -> list AuthenticatedSocket)
    (owner : string) (socket : AuthenticatedSocket)
    : string -> list AuthenticatedSocket :=
  fun userId => if String.eqb owner userId then L userId ++ [socket]
                else L userId.

(* ================================================================= *)
(** ** More string primitives *)

Module JsString.

(** [s.startsWith(p)]. *)
Fixpoint startsWith (s p : string) {struct p} : bool :=
  match p with
  | EmptyString => true
  | String a p' =>
      match s with
      | EmptyString => false
      | String b s' => Ascii.eqb a b && startsWith s' p'
      end
  end.

(** [s.split(sep)] for a one-character separator: the pieces between
    the separators, one more than there are separators. *)
Fixpoint split (sep : ascii) (s : string) : list string :=
  match s with
  | EmptyString => [EmptyString]
  | String c rest =>
      if Ascii.eqb c sep then EmptyString :: split sep rest
      else
        match split sep rest with
        | piece :: pieces => String c piece :: pieces
        | [] => [String c EmptyString]
        end
  end.

(** [pieces.join(sep)]. *)
Fixpoint join (sep : string) (pieces : list string) : string :=
  match pieces with
  | [] => EmptyString
  | [piece] => piece
  | piece :: rest => piece ++ sep ++ join sep rest
  end.

(** A string is held as its UTF-8 bytes, so a character takes one to
    four of them.  The characters that [trim] removes are the white
    space and line terminators of ECMAScript:
      U+0009-U+000D and U+0020, one byte each;
      U+00A0, the bytes 194 160;
      U+1680 (225 154 128), U+2000-U+200A (226 128 128-138),
      U+2028 and U+2029 (226 128 168-169), U+202F (226 128 175),
      U+205F (226 129 159), U+3000 (227 128 128) and
      U+FEFF (239 187 191), three bytes each. *)
Definition is_space (a : ascii) : bool :=
  let n := nat_of_ascii a in
  (Nat.leb 9 n && Nat.leb n 13) || Nat.eqb n 32.

Definition is_space2 (a b : ascii) : bool :=
  Nat.eqb (nat_of_ascii a) 194 && Nat.eqb (nat_of_ascii b) 160.

Definition is_space3 (a b c : ascii) : bool :=
  let x := nat_of_ascii a in
  let y := nat_of_ascii b in
  let z := nat_of_ascii c in
  (Nat.eqb x 225 && Nat.eqb y 154 && Nat.eqb z 128)
  || (Nat.eqb x 226 && Nat.eqb y 128
      && ((Nat.leb 128 z && Nat.leb z 138)
          || Nat.eqb z 168 || Nat.eqb z 169 || Nat.eqb z 175))
  || (Nat.eqb x 226 && Nat.eqb y 129 && Nat.eqb z 159)
  || (Nat.eqb x 227 && Nat.eqb y 128 && Nat.eqb z 128)
  || (Nat.eqb x 239 && Nat.eqb y 187 && Nat.eqb z 191).

(** What follows the white-space character that [s] starts with, if
    it starts with one. *)
Definition after_space (s : string) : option string :=
  match s with
  | EmptyString => None
  | String a rest =>
      if is_space a then Some rest
      else
        match rest with
        | EmptyString => None
        | String b rest2 =>
            if is_space2 a b then Some rest2
            else
              match rest2 with
              | EmptyString => None
              | String c rest3 =>
                  if is_space3 a b c then Some rest3 else None
              end
        end
  end.

(** [s] consists of white-space characters only. *)
Fixpoint blank (s : string) : bool :=
  match s with
  | EmptyString => true
  | String a rest =>
      if is_space a then blank rest
      else
        match rest with
        | EmptyString => false
        | String b rest2 =>
            if is_space2 a b then blank rest2
            else
              match rest2 with
              | EmptyString => false
              | String c rest3 =>
                  if is_space3 a b c then blank rest3 else false
              end
        end
  end.

(** [s.trimStart()]: the white-space characters at the start are
    dropped, one after the other. *)
Fixpoint trimStart (s : string) : string :=
  match s with
  | EmptyString => EmptyString
  | String a rest =>
      if is_space a then trimStart rest
      else
        match rest with
        | EmptyString => s
        | String b rest2 =>
            if is_space2 a b then trimStart rest2
            else
              match rest2 with
              | EmptyString => s
              | String c rest3 =>
                  if is_space3 a b c then trimStart rest3 else s
              end
        end
  end.

(** [s.trimEnd()]: the string is cut where the white space that runs
    to its end begins. *)
Fixpoint trimEnd (s : string) : string :=
  match s with
  | EmptyString => EmptyString
  | String a rest =>
      if blank s then EmptyString else String a (trimEnd rest)
  end.

(** [s.trim()]. *)
Definition trim (s : string) : string := trimEnd (trimStart s).

(** [s.length], the number of UTF-16 code units: a continuation byte
    (128-191) adds nothing, the first byte of a four-byte character
    (240 and above) stands for a surrogate pair. *)
Fixpoint length (s : string) : nat :=
  match s with
  | EmptyString => 0
  | String a rest =>
      let n := nat_of_ascii a in
      (if Nat.leb 128 n && Nat.leb n 191 then 0
       else if Nat.leb 240 n then 2 else 1)
      + length rest
  end.

(** [s.substring(1)]. *)
Definition substring1 (s : string) : string :=
  match s with
  | EmptyString => EmptyString
  | String _ rest => rest
  end.

End JsString.

(* ================================================================= *)
(** ** The HTTP authentication middleware (auth.middleware.ts) *)

(** What [protect] reads of a request: the [authorization] header and
    the [token] cookie ([req.cookies?.token]). *)
Record HttpRequest : Type := mkHttpRequest {
  authorization : Js.prop string;
  cookie_token : Js.prop string
}.

(** A user document as [protect] loads it: the principal, with roles
    and permissions populated by the query, and its [isActive] flag. *)
Record Account : Type := mkAccount {
  account_user : IUser;
  isActive : bool
}.

(** The token [protect] works with: the second blank-separated piece of
    a header that starts with [Bearer], otherwise a truthy cookie. *)
Definition extract_token (req : HttpRequest) : Js.prop string :=
  if Js.truthy_str (authorization req)
     && JsString.startsWith (Js.to_template (authorization req)) "Bearer"
  then nth_error (JsString.split " " (Js.to_template (authorization req))) 1
  else if Js.truthy_str (cookie_token req) then cookie_token req
  else None.

Section Protect.

Variable env : Env.
(** [await User.findById(id).select('-password').populate(...)], for
    an id that may be [undefined]. *)
Variable findAccount : Js.prop string -> Outcome (option Account).

(** [protect(isRequired)]: the request as the middleware leaves it
    (only [req.user] matters downstream) and what it hands to [next]. *)
Definition protect (isRequired : bool) (req : HttpRequest)
    : Request * NextCall :=
  let pass := (mkRequest None, Next) in
  let deny (text : string) :=
    if isRequired
    then (mkRequest None, NextError (mkApiError text 401))
    else pass in
  match extract_token req with
  | None => deny "Not authorized to access this route"
  | Some token =>
      if negb (Js.truthy_str (Some token))
      then deny "Not authorized to access this route"
      else
        match verifyAccessToken env token with
        | Throw _ => deny "Not authorized to access this route"
        | Return decoded =>
            match findAccount (decoded_userId decoded) with
            | Throw _ => deny "Not authorized to access this route"
            | Return None => deny "User not found"
            | Return (Some user) =>
                if negb (isActive user)
                then deny "User account is deactivated"
                else (mkRequest (Some (account_user user)), Next)
            end
        end
  end.

(** A route registered behind [router.use(protect(true))] and
    [requirePermission(...permissions)]: [Next] means the controller
    runs, an error goes to the error handler. *)
Definition guarded_route (permissions : list string) (req : HttpRequest)
    : NextCall :=
  match protect true req with
  | (authenticated, Next) => requirePermission permissions authenticated
  | (_, NextError error) => NextError error
  end.

(** The conditions under which [protect] attaches [user]. *)
Definition authenticates (req : HttpRequest) (user : IUser) : Prop :=
  exists token decoded account,
    extract_token req = Some token /\ token <> "" /\
    verifyAccessToken env token = Return decoded /\
    findAccount (decoded_userId decoded) = Return (Some account) /\
    isActive account = true /\ account_user account = user.

End Protect.

Module SampleHttp.

(** The user collection as [protect] queries it: the editor is
    active, the super administrator has been deactivated. *)
Definition accounts (id : Js.prop string) : Outcome (option Account) :=
  match id with
  | None => Return None
  | Some userId =>
      if Js.strict_eq (user_id Sample.editorUser) userId
      then Return (Some (mkAccount Sample.editorUser true))
      else if Js.strict_eq (user_id Sample.superAdminUser) userId
      then Return (Some (mkAccount Sample.superAdminUser false))
      else Return None
  end.

End SampleHttp.

(* ================================================================= *)
(** ** Query helpers ([getSortStage] and [mongoUtils]) *)

(** The two values of the type [1 | -1]. *)
Inductive SortOrder : Type :=
| Ascending   (* 1 *)
| Descending. (* -1 *)

(** [getSortStage(sort)]: the one-key object [{ [sortField]: sortOrder }]
    as its key and its value. *)
Definition getSortStage (sort : string) : string * SortOrder :=
  let sortOrder :=
    if JsString.startsWith sort "-" then Descending else Ascending in
  let sortField :=
    if JsString.startsWith sort "-" then JsString.substring1 sort else sort in
  (sortField, sortOrder).

(** The sort string a stage stands for. *)
Definition sort_string (stage : string * SortOrder) : string :=
  match snd stage with
  | Descending => String "-" (fst stage)
  | Ascending => fst stage
  end.

(** The argument of [parseIds]: [string | string[] | undefined]. *)
Inductive IdsInput : Type :=
| IdsUndefined
| IdsString (s : string)
| IdsArray (ids : list string).

(** The result of [createIdQuery]: [{ [field]: id }] or
    [{ [field]: { $in: ids } }]. *)
Inductive FieldQuery : Type :=
| FieldEquals (field : string) (id : ObjectId)
| FieldIn (field : string) (ids : list ObjectId).

(** The [options] argument of [createIdQuery]; a missing property takes
    its default. *)
Record IdQueryOptions : Type := mkIdQueryOptions {
  arrayField : Js.prop bool;
  exactMatch : Js.prop bool
}.

(** One element of the [$or] list of [createSearchQuery]:
    [{ [field]: { $regex, $options } }]. *)
Record RegexClause : Type := mkRegexClause {
  clause_field : string;
  clause_regex : string;
  clause_options : string
}.

Section MongoUtils.

(** [mongoose.Types.ObjectId.isValid]. *)
Variable isValid : string -> bool.
(** [new mongoose.Types.ObjectId(id)]. *)
Variable toObjectId : string -> ObjectId.

Definition parseIds (ids : IdsInput) : option (list ObjectId) :=
  let falsy :=
    match ids with
    | IdsUndefined => true
    | IdsString s => String.eqb s ""
    | IdsArray _ => false
    end in
  if falsy then None
  else
    let idArray :=
      match ids with
      | IdsArray l => l
      | IdsString s =>
          filter (fun id => negb (String.eqb id ""))
                 (map JsString.trim (JsString.split "," s))
      | IdsUndefined => []
      end in
    if Nat.eqb (List.length idArray) 0 then None
    else
      let validObjectIds := map toObjectId (filter isValid idArray) in
      if Nat.ltb 0 (List.length validObjectIds) then Some validObjectIds
      else None.

Definition createIdQuery (fieldName : string) (ids : IdsInput)
    (options : IdQueryOptions) : option FieldQuery :=
  let arrayField_ :=
    match arrayField options with Some b => b | None => true end in
  let exactMatch_ :=
    match exactMatch options with Some b => b | None => false end in
  match parseIds ids with
  | None => None
  | Some objectIds =>
      if Nat.eqb (List.length objectIds) 1 && exactMatch_
      then
        match objectIds with
        | first :: _ => Some (FieldEquals fieldName first)
        | [] => None
        end
      else if arrayField_ then Some (FieldIn fieldName objectIds)
      else Some (FieldIn fieldName objectIds)
  end.

End MongoUtils.

(** [createSearchQuery(fields, searchTerm)]: the [$or] list, or [null]. *)
Definition createSearchQuery (fields : list string)
    (searchTerm : Js.prop string) : option (list RegexClause) :=
  match searchTerm with
  | None => None
  | Some term =>
      if negb (Js.truthy_str (Some term))
         || negb (Js.truthy_str (Some (JsString.trim term)))
      then None
      else
        let trimmedSearch := JsString.trim term in
        Some (map (fun field => mkRegexClause field trimmedSearch "i") fields)
  end.


(* ================================================================= *)
(** ** Callers of [hasRole] in the controllers *)

(** A user document as [User.findById(id)] returns it when the query
    does not populate: the [roles] are the stored [ObjectId]s. *)
Record UserDocument : Type := mkUserDocument {
  document_id : ObjectId;
  document_roles : list ObjectId
}.

(** The document seen through [IUser]. *)
Definition unpopulated (d : UserDocument) : IUser :=
  mkUser (Some (document_id d)) (Some (map RoleRef (document_roles d))).

(** What a controller does with a request: it answers with a status and
    a message, or hands an error to [next]. *)
Inductive ControllerResult : Type :=
| Responded (status : nat) (text : string)
| Forwarded (error : JsError).

Section UserController.

(** [await User.findById(id)], without [populate]. *)
Variable findUserById : string -> Outcome (option UserDocument).
(** [await user.deleteOne()]. *)
Variable deleteOne : UserDocument -> Outcome unit.

(** [deleteUser]: the result, and the document [deleteOne] was called
    on, if it was called. *)
Definition deleteUser (id : string)
    : ControllerResult * option UserDocument :=
  match findUserById id with
  | Throw error => (Forwarded error, None)
  | Return None => (Forwarded (mkError "User not found" (Some 404)), None)
  | Return (Some user) =>
      let isAdmin := hasRole (unpopulated user) "Admin" in
      if isAdmin
      then (Forwarded (mkError "Cannot delete admin users" (Some 403)), None)
      else
        match deleteOne user with
        | Throw error => (Forwarded error, Some user)
        | Return _ => (Responded 200 "User deleted successfully", Some user)
        end
  end.

End UserController.

(** [Object.values(BlogStatusEnum.enum)]. *)
Definition blog_statuses : list string := ["draft"; "published"; "archived"].

(** [!req.user || !req.user.hasRole("SuperAdmin")]. *)
Definition not_super_admin (user : option IUser) : bool :=
  match user with
  | None => true
  | Some u => negb (hasRole u "SuperAdmin")
  end.

(** The value [getBlogs] gives [matchStage.status]; [None] when it
    leaves the field unset. *)
Definition blog_status_filter (status : Js.prop string) (user : option IUser)
    : Js.prop string :=
  if Js.truthy_str status
     && existsb (fun v => Js.strict_eq status v) blog_statuses
  then
    if negb (Js.strict_eq status "published") && not_super_admin user
    then Some "published"
    else status
  else if not_super_admin user then Some "published"
  else None.

(** The value [getCareers] gives [matchStage.status]. *)
Definition career_status_filter (status : Js.prop string) (user : option IUser)
    : Js.prop string :=
  if Js.truthy_str status
  then
    if negb (Js.strict_eq status "published") && not_super_admin user
    then Some "published"
    else status
  else if not_super_admin user then Some "published"
  else None.

(** The principal holds every role and permission entry of [p] (and
    possibly more); the roles are listed in any order. *)
Definition roles_included (p q : IUser) : Prop :=
  exists roles roles',
    user_roles p = Some roles /\ user_roles q = Some roles' /\
    incl roles roles'.

Module SampleText.

(** U+2003 EM SPACE, U+00A0 NO-BREAK SPACE and the letter U+00E0, as
    their UTF-8 bytes. *)
Definition em_space : string :=
  String (ascii_of_nat 226)
    (String (ascii_of_nat 128) (String (ascii_of_nat 131) EmptyString)).
Definition no_break_space : string :=
  String (ascii_of_nat 194) (String (ascii_of_nat 160) EmptyString).
Definition a_grave : string :=
  String (ascii_of_nat 195) (String (ascii_of_nat 160) EmptyString).

End SampleText.

Module SampleIds.

(** A stand-in for [ObjectId.isValid]: 24 characters. *)
Definition isValid (id : string) : bool := Nat.eqb (String.length id) 24.

Definition toObjectId (id : string) : ObjectId := id.

End SampleIds.

(* ================================================================= *)
(** ** Mail (utils/email.ts) and [createInquiry] *)

(** [a || b] on strings that may be [undefined]. *)
Definition or_string (a b : Js.prop string) : Js.prop string :=
  if Js.truthy_str a then a else b.

(** Truthiness of a number that may be [undefined] or [NaN] ([None]):
    zero is falsy. *)
Definition truthy_number (n : Js.prop nat) : bool :=
  match n with
  | Some k => negb (Nat.eqb k 0)
  | None => false
  end.

(** [emailSettings] of the settings document. *)
Record EmailSettings : Type := mkEmailSettings {
  notificationEmails : list string;
  fromEmail : string;
  fromName : string;
  smtpHost : Js.prop string;
  smtpPort : Js.prop nat;
  smtpUser : Js.prop string;
  smtpPassword : Js.prop string;
  smtpSecure : Js.prop bool
}.

Record SettingsDocument : Type := mkSettingsDocument {
  emailSettings : Js.prop EmailSettings
}.

(** The argument of [nodemailer.createTransport]. *)
Record TransportConfig : Type := mkTransportConfig {
  config_host : Js.prop string;
  config_port : nat;
  config_secure : bool;
  config_user : Js.prop string;
  config_pass : Js.prop string
}.

(** The argument of [transporter.sendMail]. *)
Record Mail : Type := mkMail {
  mail_from : string;
  mail_to : string;
  mail_subject : string;
  mail_html : string
}.

(** [to: string | string[]]. *)
Inductive Recipients : Type :=
| ToOne (address : string)
| ToMany (addresses : list string).

Record EmailOptions : Type := mkEmailOptions {
  options_to : Recipients;
  options_subject : string;
  options_html : string
}.

(** What the mail code reads of the process and of nodemailer:
    [SMTP_PORT_number] is [Number(process.env.SMTP_PORT)], [None] when
    that is [NaN]. *)
Record MailEnv : Type := mkMailEnv {
  SMTP_HOST : Js.prop string;
  SMTP_PORT_number : Js.prop nat;
  SMTP_USER : Js.prop string;
  SMTP_PASSWORD : Js.prop string;
  sendMail : TransportConfig -> Mail -> Outcome unit;
  (** [date.toLocaleString()] *)
  toLocaleString : nat -> string
}.

(** [IInquiry]: the fields the notification reads. *)
Record Inquiry : Type := mkInquiry {
  inquiry_name : string;
  inquiry_email : string;
  inquiry_message : string;
  inquiry_createdAt : nat
}.

Definition double_quote : string := String (ascii_of_nat 34) EmptyString.
Definition line_feed : string := String (ascii_of_nat 10) EmptyString.

Definition transport_config (env : MailEnv) (s : EmailSettings)
    : TransportConfig :=
  mkTransportConfig
    (or_string (smtpHost s) (SMTP_HOST env))
    (if truthy_number (smtpPort s)
     then match smtpPort s with Some k => k | None => 587 end
     else if truthy_number (SMTP_PORT_number env)
     then match SMTP_PORT_number env with Some k => k | None => 587 end
     else 587)
    (match smtpSecure s with Some true => true | _ => false end)
    (or_string (smtpUser s) (SMTP_USER env))
    (or_string (smtpPassword s) (SMTP_PASSWORD env)).

(** [sendEmail(options)], given the outcome of its [Settings.findOne()]:
    the calls to [sendMail] it makes, and whether it returns or throws. *)
Definition sendEmail (env : MailEnv)
    (settings : Outcome (option SettingsDocument)) (options : EmailOptions)
    : list (TransportConfig * Mail) * Outcome unit :=
  let not_configured :=
    ([], Throw (mkError "Email settings not configured" None)) in
  match settings with
  | Throw error => ([], Throw error)
  | Return None => not_configured
  | Return (Some document) =>
      match emailSettings document with
      | None => not_configured
      | Some s =>
          let config := transport_config env s in
          let mail :=
            mkMail (double_quote ++ fromName s ++ double_quote ++ " <"
                    ++ fromEmail s ++ ">")
                   (match options_to options with
                    | ToMany addresses => JsString.join "," addresses
                    | ToOne address => address
                    end)
                   (options_subject options)
                   (options_html options) in
          ([(config, mail)], sendMail env config mail)
      end
  end.

(** The template literal of [sendInquiryNotification]. *)
Definition inquiry_html (env : MailEnv) (inquiry : Inquiry) : string :=
  line_feed
  ++ "      <h2>New Inquiry Received</h2>" ++ line_feed
  ++ "      <p><strong>From:</strong> " ++ inquiry_name inquiry ++ " ("
  ++ inquiry_email inquiry ++ ")</p>" ++ line_feed
  ++ "      <p><strong>Message:</strong></p>" ++ line_feed
  ++ "      <p>" ++ inquiry_message inquiry ++ "</p>" ++ line_feed
  ++ "      <p><strong>Received at:</strong> "
  ++ toLocaleString env (inquiry_createdAt inquiry) ++ "</p>" ++ line_feed
  ++ "      <hr>" ++ line_feed
  ++ "      <p>Please log in to the admin panel to respond to this inquiry.</p>"
  ++ line_feed ++ "    ".

(** [sendInquiryNotification(inquiry)], given the outcomes of its own
    [Settings.findOne()] and of the one [sendEmail] makes. *)
Definition sendInquiryNotification (env : MailEnv)
    (first second : Outcome (option SettingsDocument)) (inquiry : Inquiry)
    : list (TransportConfig * Mail) * Outcome unit :=
  match first with
  | Throw _ => ([], Return tt)
  | Return None => ([], Return tt)
  | Return (Some document) =>
      match emailSettings document with
      | None => ([], Return tt)
      | Some s =>
          if Nat.eqb (List.length (notificationEmails s)) 0
          then ([], Return tt)
          else
            let html := inquiry_html env inquiry in
            let sent :=
              sendEmail env second
                (mkEmailOptions (ToMany (notificationEmails s))
                                "New Inquiry" html) in
            (* the [catch] block logs and does not rethrow *)
            (fst sent, Return tt)
      end
  end.

Section InquiryController.

Variable env : MailEnv.
Variable first second : Outcome (option SettingsDocument).
Variable transport_emit :
  AuthenticatedSocket -> string -> Js.prop Payload -> option JsError.
(** [await Inquiry.create({ name, email, phone, message })]. *)
Variable create : Outcome Inquiry.
(** The inquiry as it is handed to [emit]. *)
Variable serialize : Inquiry -> Payload.

(** [createInquiry]: the answer, the mails handed to [sendMail] and
    the [emit] calls made. *)
Definition createInquiry (registry : Registry)
    : ControllerResult * list (TransportConfig * Mail) * list Emission :=
  match create with
  | Throw error => (Forwarded error, [], [])
  | Return inquiry =>
      let mailed := sendInquiryNotification env first second inquiry in
      match snd mailed with
      | Throw error => (Forwarded error, fst mailed, [])
      | Return _ =>
          let notified :=
            notifyRoles transport_emit registry
              ["SuperAdmin"; "Admin"; "BusinessDeveloper"]
              "notification:inquiry" (serialize inquiry) in
          match outcome notified with
          | Throw error => (Forwarded error, fst mailed, calls notified)
          | Return _ =>
              (Responded 201 "Inquiry submitted successfully",
               fst mailed, calls notified)
          end
      end
  end.

End InquiryController.

Module SampleMail.

Definition settings : EmailSettings :=
  mkEmailSettings ["sales@example.com"; "owner@example.com"]
                  "noreply@example.com" "Agency Name"
                  None None None None None.

Definition configured : Outcome (option SettingsDocument) :=
  Return (Some (mkSettingsDocument (Some settings))).

(** A mail server that refuses every message. *)
Definition failing : MailEnv :=
  mkMailEnv (Some "smtp.example.com") None None None
            (fun _ _ => Throw (mkError "connect ECONNREFUSED" None))
            (fun _ => "1/1/2025, 12:00:00 PM").

Definition inquiry : Inquiry :=
  mkInquiry "Ada" "ada@example.com" "Hello" 0.

End SampleMail.

(* ================================================================= *)
(** ** Stored documents

    A collection is the list of its documents.  [findOne] returns the
    first document that matches; a write through a document ([save],
    [findByIdAndUpdate], [findByIdAndDelete]) touches the one document
    that carries its [_id].  The database is taken to answer every call,
    and stored documents to pass their schema's validation. *)

Section Collection.

Context {A : Type}.

(** The first document that satisfies [matches], replaced by [new]. *)
Fixpoint replace_first (matches : A -> bool) (new : A) (documents : list A)
    : list A :=
  match documents with
  | [] => []
  | d :: rest =>
      if matches d then new :: rest
      else d :: replace_first matches new rest
  end.

(** The first document that satisfies [matches], removed. *)
Fixpoint remove_first (matches : A -> bool) (documents : list A) : list A :=
  match documents with
  | [] => []
  | d :: rest =>
      if matches d then rest else d :: remove_first matches rest
  end.

End Collection.

(* ================================================================= *)
(** ** Roles (models/role.model.ts, the role controller) *)

Module RoleController.

(** A stored role. *)
Record RoleRecord : Type := mkRoleRecord {
  _id : ObjectId;
  name : string;
  description : string;
  permissions : list ObjectId;
  isDefault : bool
}.

(** The body of [POST /api/roles]. *)
Record CreateRoleInput : Type := mkCreateRoleInput {
  create_name : string;
  create_description : string;
  create_permissions : Js.prop (list string);
  create_isDefault : Js.prop bool
}.

(** The body of [PUT /api/roles/:id]. *)
Record UpdateRoleInput : Type := mkUpdateRoleInput {
  update_name : Js.prop string;
  update_description : Js.prop string;
  update_permissions : Js.prop (list string);
  update_isDefault : Js.prop bool
}.

(** Truthiness of a boolean that may be [undefined]. *)
Definition truthy_flag (b : Js.prop bool) : bool :=
  match b with
  | Some true => true
  | _ => false
  end.

(** [Role.updateMany({ isDefault: true }, { isDefault: false })]. *)
Definition clear_defaults (roles : list RoleRecord) : list RoleRecord :=
  map (fun r =>
         if isDefault r
         then mkRoleRecord (_id r) (name r) (description r) (permissions r)
                           false
         else r)
      roles.

(** The filter [{ _id: id }] of [findById] and its kin. *)
Definition by_id (id : ObjectId) (r : RoleRecord) : bool :=
  String.eqb (_id r) id.

(** The roles that a query [{ isDefault: true }] matches. *)
Definition defaults (roles : list RoleRecord) : list RoleRecord :=
  filter isDefault roles.

Section Controller.

(** The filter [{ name }] as Mongoose casts it. *)
Variable name_filter : string -> RoleRecord -> bool.
(** The cast of a request's [id] to an [ObjectId]; it throws a
    [CastError] on a string that is none. *)
Variable cast_id : string -> Outcome ObjectId.
(** [await Permission.find({ _id: { $in: permissions } }).distinct('_id')]. *)
Variable permission_ids : list string -> Outcome (list ObjectId).
(** What [Role.create] throws on a document that the validators or
    the unique index refuse. *)
Variable create_rejects : list RoleRecord -> RoleRecord -> option JsError.
(** The same for [findByIdAndUpdate] with [runValidators]. *)
Variable update_rejects : list RoleRecord -> RoleRecord -> option JsError.
(** The [_id] of a new document. *)
Variable fresh_id : list RoleRecord -> ObjectId.
(** [await User.countDocuments({ roles: id })]. *)
Variable usersWithRole : string -> nat.

(** The block [if (permissions && permissions.length > 0) { ... }],
    shared by [createRole] and [updateRole]. *)
Definition permissions_valid (permissions : Js.prop (list string))
    : Outcome unit :=
  match permissions with
  | Some ((_ :: _) as permissions) =>
      match permission_ids permissions with
      | Throw error => Throw error
      | Return permissionIds =>
          if negb (Nat.eqb (List.length permissionIds)
                           (List.length permissions))
          then Throw (mkError "One or more permission IDs are invalid"
                              (Some 400))
          else Return tt
      end
  | _ => Return tt
  end.

(** [permissions || fallback]: an array is truthy even when empty. *)
Definition or_permissions (permissions : Js.prop (list string))
    (fallback : list ObjectId) : list ObjectId :=
  match permissions with
  | Some permissions => permissions
  | None => fallback
  end.

(** The document [createRole] hands to [Role.create], as stored: the
    schema trims the [name]. *)
Definition created (roles : list RoleRecord) (body : CreateRoleInput)
    : RoleRecord :=
  mkRoleRecord (fresh_id roles) (JsString.trim (create_name body))
               (create_description body)
               (or_permissions (create_permissions body) [])
               (truthy_flag (create_isDefault body) || false).

(** [createRole]: the collection afterwards and the answer. *)
Definition createRole (roles : list RoleRecord) (body : CreateRoleInput)
    : list RoleRecord * ControllerResult :=
  match find (name_filter (create_name body)) roles with
  | Some _ =>
      (roles,
       Forwarded (mkError "Role with this name already exists" (Some 400)))
  | None =>
      let roles := if truthy_flag (create_isDefault body)
                   then clear_defaults roles else roles in
      match permissions_valid (create_permissions body) with
      | Throw error => (roles, Forwarded error)
      | Return _ =>
          let role := created roles body in
          match create_rejects roles role with
          | Some error => (roles, Forwarded error)
          | None =>
              (roles ++ [role], Responded 201 "Role created successfully")
          end
      end
  end.

(** [name && name !== role.name], then [Role.findOne({ name })]. *)
Definition name_taken (roles : list RoleRecord) (role : RoleRecord)
    (body_name : Js.prop string) : bool :=
  match body_name with
  | Some n =>
      if Js.truthy_str body_name && negb (String.eqb n (name role))
      then match find (name_filter n) roles with
           | Some _ => true
           | None => false
           end
      else false
  | None => false
  end.

(** The update [updateRole] hands to [findByIdAndUpdate], applied to
    [role]. *)
Definition updated (role : RoleRecord) (body : UpdateRoleInput)
    : RoleRecord :=
  mkRoleRecord (_id role)
               (JsString.trim
                  (match or_string (update_name body) (Some (name role))
                   with Some n => n | None => name role end))
               (match or_string (update_description body)
                                (Some (description role))
                with Some d => d | None => description role end)
               (or_permissions (update_permissions body)
                               (permissions role))
               (match update_isDefault body with
                | Some isDefault => isDefault
                | None => isDefault role
                end).

(** [updateRole]. *)
Definition updateRole (roles : list RoleRecord) (id : string)
    (body : UpdateRoleInput) : list RoleRecord * ControllerResult :=
  match cast_id id with
  | Throw error => (roles, Forwarded error)
  | Return oid =>
      match find (by_id oid) roles with
      | None => (roles, Forwarded (mkError "Role not found" (Some 404)))
      | Some role =>
          if name_taken roles role (update_name body)
          then (roles,
                Forwarded (mkError "Role with this name already exists"
                                   (Some 400)))
          else
            let roles :=
              if truthy_flag (update_isDefault body)
                 && negb (isDefault role)
              then clear_defaults roles else roles in
            match permissions_valid (update_permissions body) with
            | Throw error => (roles, Forwarded error)
            | Return _ =>
                match update_rejects roles (updated role body) with
                | Some error => (roles, Forwarded error)
                | None =>
                    match find (by_id oid) roles with
                    | None =>
                        (roles,
                         Forwarded (mkError "Role not found" (Some 404)))
                    | Some _ =>
                        (replace_first (by_id oid) (updated role body)
                                       roles,
                         Responded 200 "Role updated successfully")
                    end
                end
            end
      end
  end.

(** [deleteRole]. *)
Definition deleteRole (roles : list RoleRecord) (id : string)
    : list RoleRecord * ControllerResult :=
  match cast_id id with
  | Throw error => (roles, Forwarded error)
  | Return oid =>
      match find (by_id oid) roles with
      | None => (roles, Forwarded (mkError "Role not found" (Some 404)))
      | Some role =>
          if isDefault role
          then (roles,
                Forwarded (mkError "Cannot delete the default role"
                                   (Some 400)))
          else if Nat.ltb 0 (usersWithRole id)
          then (roles,
                Forwarded
                  (mkError "Cannot delete a role that is assigned to users"
                           (Some 400)))
          else (remove_first (by_id oid) roles,
                Responded 200 "Role deleted successfully")
      end
  end.

End Controller.

End RoleController.

(* ================================================================= *)
(** ** Registration and password reset (models/user.model.ts, the auth
       controller) *)

From Stdlib Require Import NArith.

Module AuthController.

(** The fields of a stored user that registration and the reset flow
    read or write.  [passwordResetToken] and [passwordResetExpires]
    are [None] when absent or [null]; a date is its number of
    milliseconds. *)
Record UserRecord : Type := mkUserRecord {
  _id : ObjectId;
  email : string;
  password : string;
  roles : list ObjectId;
  passwordResetToken : Js.prop string;
  passwordResetExpires : Js.prop N
}.

(** The body of [POST /api/auth/register]. *)
Record RegisterInput : Type := mkRegisterInput {
  register_email : string;
  register_password : string;
  roleId : Js.prop string
}.

(** [10 * 60 * 1000]: the life of a reset token. *)
Definition reset_window : N := (10 * 60 * 1000)%N.

Section Controller.

(** [crypto.createHash('sha256').update(t).digest('hex')]. *)
Variable sha256 : string -> string.
(** The [pre('save')] hook on a modified password:
    [bcrypt.hash(password, salt)]. *)
Variable bcrypt_hash : string -> string.
(** The [ValidationError] that [save] throws for a password that the
    schema refuses. *)
Variable validation_error : string -> JsError.
(** The filter [{ email }] on a stored [email]. *)
Variable email_matches : string -> string -> bool.
(** The [lowercase] and [trim] setters of the [email] path. *)
Variable email_setters : string -> string.
(** The cast of a [roleId] to an [ObjectId]; it throws a [CastError]
    on a string that is none. *)
Variable cast_id : string -> Outcome ObjectId.
(** What [User.create] throws on a document that the validators or
    the unique index refuse. *)
Variable create_rejects : list UserRecord -> UserRecord -> option JsError.
(** The [_id] of a new document. *)
Variable fresh_id : list UserRecord -> ObjectId.

(** The block [let role; if (roleId) { ... } else { ... }] of
    [register]. *)
Definition registration_role (stored : list RoleController.RoleRecord)
    (roleId : Js.prop string) : Outcome RoleController.RoleRecord :=
  match roleId with
  | Some id =>
      if Js.truthy_str roleId
      then match cast_id id with
           | Throw error => Throw error
           | Return oid =>
               match find (RoleController.by_id oid) stored with
               | Some role => Return role
               | None => Throw (mkError "Role not found" (Some 400))
               end
           end
      else match find RoleController.isDefault stored with
           | Some role => Return role
           | None => Throw (mkError "Default role not found" (Some 500))
           end
  | None =>
      match find RoleController.isDefault stored with
      | Some role => Return role
      | None => Throw (mkError "Default role not found" (Some 500))
      end
  end.

(** [register]: the users afterwards and the answer. *)
Definition register (users : list UserRecord)
    (stored : list RoleController.RoleRecord) (body : RegisterInput)
    : list UserRecord * ControllerResult :=
  match find (fun u => email_matches (register_email body) (email u)) users
  with
  | Some _ =>
      (users,
       Forwarded (mkError "User with this email already exists" (Some 400)))
  | None =>
      match registration_role stored (roleId body) with
      | Throw error => (users, Forwarded error)
      | Return role =>
          let user :=
            mkUserRecord (fresh_id users)
                         (email_setters (register_email body))
                         (bcrypt_hash (register_password body))
                         [RoleController._id role] None None in
          match create_rejects users user with
          | Some error => (users, Forwarded error)
          | None =>
              (users ++ [user],
               Responded 201
                 "Registration successful. Please check your email to verify your account.")
          end
      end
  end.

(** [await user.save()]. *)
Definition save (this : UserRecord) (users : list UserRecord)
    : list UserRecord :=
  replace_first (fun stored => String.eqb (_id stored) (_id this)) this
                users.

(** [generatePasswordResetToken]; [resetToken] is the value of
    [crypto.randomBytes(32).toString('hex')] and [now] that of
    [Date.now()].  Returns the mutated document and the token. *)
Definition generatePasswordResetToken (resetToken : string) (now : N)
    (this : UserRecord) : UserRecord * string :=
  (mkUserRecord (_id this) (email this) (password this) (roles this)
                (Some (sha256 resetToken)) (Some (now + reset_window)%N),
   resetToken).

Definition reset_link_message : string :=
  "If your email is registered, you will receive a password reset link".

(** [forgotPassword]: the collection afterwards and the answer. *)
Definition forgotPassword (users : list UserRecord)
    (body_email resetToken : string) (now : N)
    : list UserRecord * ControllerResult :=
  match find (fun u => email_matches body_email (email u)) users with
  | None => (users, Responded 200 reset_link_message)
  | Some user =>
      let (user, _) := generatePasswordResetToken resetToken now user in
      (save user users, Responded 200 reset_link_message)
  end.

(** The filter [{ passwordResetToken: hashedToken,
    passwordResetExpires: { $gt: Date.now() } }]. *)
Definition reset_filter (hashedToken : string) (now : N)
    (u : UserRecord) : bool :=
  match passwordResetToken u, passwordResetExpires u with
  | Some stored, Some expires =>
      String.eqb stored hashedToken && N.ltb now expires
  | _, _ => false
  end.

(** The validators of the [password] path, [required] and
    [minlength: 6], which [save] runs on the new password before
    the [pre('save')] hook hashes it. *)
Definition password_refused (body_password : string) : bool :=
  Nat.ltb (JsString.length body_password) 6.

(** [resetPassword].  When [save] throws, nothing is stored: the
    user keeps the old password and the token. *)
Definition resetPassword (users : list UserRecord)
    (token body_password : string) (now : N)
    : list UserRecord * ControllerResult :=
  let hashedToken := sha256 token in
  match find (reset_filter hashedToken now) users with
  | None =>
      (users, Forwarded (mkError "Invalid or expired token" (Some 400)))
  | Some user =>
      if password_refused body_password
      then (users, Forwarded (validation_error body_password))
      else
        (save (mkUserRecord (_id user) (email user)
                            (bcrypt_hash body_password) (roles user)
                            None None) users,
         Responded 200
           "Password reset successful. You can now log in with your new password.")
  end.

(** No stored document holds the hash of [resetToken]. *)
Definition unissued (resetToken : string) (users : list UserRecord)
    : Prop :=
  forall v, In v users ->
            passwordResetToken v <> Some (sha256 resetToken).

End Controller.

End AuthController.

Module SampleAccounts.

Import AuthController.

Definition sha256 (s : string) : string := "sha256(" ++ s ++ ")".
Definition bcrypt_hash (s : string) : string := "bcrypt(" ++ s ++ ")".
Definition validation_error (s : string) : JsError :=
  mkError
    "User validation failed: password: Password must be at least 6 characters"
    None.

Definition ada : UserRecord :=
  mkUserRecord "64b000000000000000000001" "ada@example.com" "bcrypt(first)"
               ["64a000000000000000000001"] None None.
Definition bob : UserRecord :=
  mkUserRecord "64b000000000000000000002" "bob@example.com" "bcrypt(second)"
               ["64a000000000000000000002"] None None.
Definition users : list UserRecord := [ada; bob].

End SampleAccounts.

Module SampleRoles.

Import RoleController.

Definition name_filter (n : string) (r : RoleRecord) : bool :=
  String.eqb (name r) (JsString.trim n).
Definition cast_id (id : string) : Outcome ObjectId :=
  if Nat.eqb (String.length id) 24 then Return id
  else Throw (mkError "Cast to ObjectId failed" None).
Definition stored_permissions : list ObjectId :=
  ["64c000000000000000000001"; "64c000000000000000000002"].
Definition permission_ids (permissions : list string)
    : Outcome (list ObjectId) :=
  Return (filter (fun p => existsb (String.eqb p) permissions)
                 stored_permissions).
Definition accepts (roles : list RoleRecord) (r : RoleRecord)
    : option JsError := None.
Definition fresh_id (roles : list RoleRecord) : ObjectId :=
  "64a0000000000000000000ff".
Definition usersWithRole (id : string) : nat := 0.

Definition viewer : RoleRecord :=
  mkRoleRecord "64a000000000000000000001" "Viewer" "Reads" [] true.
Definition editor : RoleRecord :=
  mkRoleRecord "64a000000000000000000002" "Editor" "Writes"
               ["64c000000000000000000001"] false.
Definition roles : list RoleRecord := [viewer; editor].

(** A default role with a permission that is not stored. *)
Definition manager : CreateRoleInput :=
  mkCreateRoleInput "Manager" "Manages" (Some ["64c0000000000000000000aa"])
                    (Some true).

(** A default role without permissions. *)
Definition guest : CreateRoleInput :=
  mkCreateRoleInput "Guest" "Looks" None (Some true).

Definition newcomer : AuthController.RegisterInput :=
  AuthController.mkRegisterInput "eve@example.com" "secret1" None.

End SampleRoles.

(* ================================================================= *)
(** * Properties of the permission resolver *)

Lemma some_true_iff {A : Type} (f : A -> bool) (xs : list A) :
  Js.some f xs = true <-> exists x, In x xs /\ f x = true.
Proof. unfold Js.some. apply existsb_exists. Qed.

Lemma strict_eq_true (x : Js.prop string) (s : string) :
  Js.strict_eq x s = true <-> x = Some s.
Proof.
  destruct x as [v|]; simpl.
  - rewrite String.eqb_eq. split; intros H; [now subst | now inversion H].
  - split; discriminate.
Qed.

Lemma entry_name_doc (e : RoleEntry) (n : string) :
  entry_name e = Some n <-> exists r, e = RoleDoc r /\ role_name r = n.
Proof.
  destruct e as [i|r]; simpl; split.
  - discriminate.
  - intros (r & H & _). discriminate.
  - intros H. inversion H. now exists r.
  - intros (r' & H & Hn). inversion H. now subst.
Qed.

(** [hasRole] decides [holds_role]; unresolved references never match. *)
Lemma hasRole_iff (p : IUser) (roleName : string) :
  hasRole p roleName = true <-> holds_role p roleName.
Proof.
  unfold hasRole, holds_role.
  destruct (user_roles p) as [[|first rest]|] eqn:Hroles.
  - split; [discriminate|]. intros (roles & r & H & Hin & _).
    inversion H; subst. destruct Hin.
  - assert (Hobj : Js.type_tag_eqb (typeof_role first) Js.TObject = true)
      by (destruct first; reflexivity).
    rewrite Hobj, some_true_iff. split.
    + intros (e & Hin & He). apply strict_eq_true, entry_name_doc in He.
      destruct He as (r & -> & Hn). exists (first :: rest), r.
      repeat split; auto.
    + intros (roles & r & H & Hin & Hn). inversion H; subst roles.
      exists (RoleDoc r). split; [assumption|].
      apply strict_eq_true. simpl. now rewrite Hn.
  - split; [discriminate|]. intros (roles & r & H & _). discriminate.
Qed.

Lemma hasRole_false_iff (p : IUser) (roleName : string) :
  hasRole p roleName = false <-> ~ holds_role p roleName.
Proof.
  rewrite <- hasRole_iff. destruct (hasRole p roleName); split; congruence.
Qed.

(** A principal whose roles are all unresolved references holds no role. *)
Lemma hasRole_unresolved (ids : list ObjectId) (uid : Js.prop ObjectId)
    (roleName : string) :
  hasRole (mkUser uid (Some (map RoleRef ids))) roleName = false.
Proof.
  apply hasRole_false_iff. intros (roles & r & H & Hin & _).
  simpl in H. inversion H; subst roles.
  apply in_map_iff in Hin. destruct Hin as (i & Hi & _). discriminate.
Qed.

Lemma scan_permissions_iff (permissions : list PermissionEntry) (c : string) :
  scan_permissions permissions c = true <->
  exists e, In e permissions /\ composite e = c.
Proof.
  induction permissions as [|e rest IH]; simpl.
  - split; [discriminate | intros (e & [] & _)].
  - assert (Hobj : Js.type_tag_eqb (typeof_permission e) Js.TObject = true)
      by (destruct e; reflexivity).
    rewrite Hobj. simpl.
    destruct (String.eqb_spec (composite e) c) as [Heq|Hne].
    + split; [|reflexivity]. intros _. exists e. now split; [left|].
    + rewrite IH. split.
      * intros (e' & Hin & He'). exists e'. now split; [right|].
      * intros (e' & [->|Hin] & He'); [contradiction|]. now exists e'.
Qed.

Lemma scan_roles_iff (roles : list RoleEntry) (c : string) :
  scan_roles roles c = true <->
  exists r permissions e,
    In (RoleDoc r) roles /\ role_permissions r = Some permissions /\
    In e permissions /\ composite e = c.
Proof.
  induction roles as [|role rest IH]; simpl.
  - split; [discriminate | intros (r & ps & e & [] & _)].
  - destruct (entry_permissions role) as [ps|] eqn:Hps.
    + destruct (scan_permissions ps c) eqn:Hscan.
      * split; [|reflexivity]. intros _.
        apply scan_permissions_iff in Hscan. destruct Hscan as (e & Hin & He).
        destruct role as [i|r]; simpl in Hps; [discriminate|].
        exists r, ps, e. repeat split; [now left|assumption..].
      * rewrite IH. split.
        -- intros (r & ps' & e & Hin & H). exists r, ps', e.
           now split; [right|].
        -- intros (r & ps' & e & [Hhd|Hin] & Hp & Hine & He).
           ++ subst role. simpl in Hps. rewrite Hp in Hps.
              injection Hps as ->.
              assert (scan_permissions ps c = true)
                by (apply scan_permissions_iff; now exists e).
              congruence.
           ++ now exists r, ps', e.
    + rewrite IH. split.
      * intros (r & ps' & e & Hin & H). exists r, ps', e. now split; [right|].
      * intros (r & ps' & e & [Hhd|Hin] & Hp & Hine & He).
        -- subst role. simpl in Hps. congruence.
        -- now exists r, ps', e.
Qed.

(** What [hasPermission] computes: some resolved role lists an entry,
    resolved or not, whose template string equals the code. *)
Lemma hasPermission_iff (p : IUser) (c : string) :
  hasPermission p c = true <->
  exists roles r permissions e,
    user_roles p = Some roles /\ In (RoleDoc r) roles /\
    role_permissions r = Some permissions /\
    In e permissions /\ composite e = c.
Proof.
  unfold hasPermission.
  destruct (user_roles p) as [[|first rest]|] eqn:Hroles.
  - split; [discriminate|]. intros (roles & r & ps & e & H & Hin & _).
    inversion H; subst. destruct Hin.
  - assert (Hobj : Js.type_tag_eqb (typeof_role first) Js.TObject = true)
      by (destruct first; reflexivity).
    rewrite Hobj, scan_roles_iff. split.
    + intros (r & ps & e & H). now exists (first :: rest), r, ps, e.
    + intros (roles & r & ps & e & H & H'). inversion H; subst roles.
      now exists r, ps, e.
  - split; [discriminate|]. intros (roles & r & ps & e & H & _). discriminate.
Qed.

Lemma composite_doc (perm : IPermission) :
  composite (PermissionDoc perm) = code perm.
Proof. reflexivity. Qed.

Lemma composite_ref (i : ObjectId) :
  composite (PermissionRef i) = "undefined:undefined".
Proof. reflexivity. Qed.

(** Away from the string ["undefined:undefined"], [hasPermission]
    decides [holds_permission]. *)
Lemma hasPermission_resolved (p : IUser) (c : string) :
  c <> "undefined:undefined" ->
  (hasPermission p c = true <-> holds_permission p c).
Proof.
  intros Hc. rewrite hasPermission_iff. unfold holds_permission. split.
  - intros (roles & r & ps & e & H1 & H2 & H3 & H4 & H5).
    destruct e as [i|perm].
    + rewrite composite_ref in H5. congruence.
    + now exists roles, r, ps, perm.
  - intros (roles & r & ps & perm & H1 & H2 & H3 & H4 & H5).
    now exists roles, r, ps, (PermissionDoc perm).
Qed.

(** Roles that are all unresolved references grant no permission. *)
Lemma hasPermission_unresolved_roles (ids : list ObjectId)
    (uid : Js.prop ObjectId) (c : string) :
  hasPermission (mkUser uid (Some (map RoleRef ids))) c = false.
Proof.
  destruct (hasPermission _ c) eqn:H; [|reflexivity].
  apply hasPermission_iff in H.
  destruct H as (roles & r & ps & e & H & Hin & _).
  simpl in H. inversion H; subst roles.
  apply in_map_iff in Hin. destruct Hin as (i & Hi & _). discriminate.
Qed.

Lemma split_head_code (resource action : string) :
  Js.occurs ":" resource = false ->
  Js.split_head ":" (resource ++ ":" ++ action) = resource.
Proof.
  induction resource as [|ch rest IH]; simpl; intros H.
  - reflexivity.
  - apply orb_false_iff in H. destruct H as [Hc Hrest].
    rewrite Hc. f_equal. now apply IH.
Qed.

Lemma split_head_decompose (c : string) :
  Js.occurs ":" c = true ->
  exists action,
    c = (Js.split_head ":" c ++ ":" ++ action)%string /\
    Js.occurs ":" (Js.split_head ":" c) = false.
Proof.
  induction c as [|ch rest IH]; simpl; [discriminate|].
  destruct (Ascii.eqb_spec ch ":") as [->|Hne]; simpl.
  - intros _. exists rest. now split.
  - intros H. destruct (IH H) as (action & Heq & Hocc).
    exists action. split.
    + f_equal. exact Heq.
    + apply orb_false_iff. split; [|assumption].
      now apply Ascii.eqb_neq.
Qed.

(** The three ways [requirePermission] lets an authenticated request
    through, read off the code. *)
Lemma requirePermission_next (P : list string) (p : IUser) :
  requirePermission P (mkRequest (Some p)) = Next <->
  hasRole p "SuperAdmin" = true \/
  (exists c, In c P /\ hasPermission p c = true) \/
  (exists c, In c P /\
     (hasPermission p (Js.split_head ":" c ++ ":manage")%string = true \/
      hasPermission p "all:manage" = true)).
Proof.
  unfold requirePermission; simpl.
  destruct (hasRole p "SuperAdmin"); [tauto|].
  destruct (Js.some (fun permission => hasPermission p permission) P) eqn:Hdirect.
  - apply some_true_iff in Hdirect. tauto.
  - match goal with |- context [if ?b then _ else _] => destruct b eqn:Hmanage end.
    + apply some_true_iff in Hmanage. destruct Hmanage as (c & Hin & Hc).
      apply orb_true_iff in Hc. split; [|reflexivity]. intros _.
      right; right. now exists c.
    + split; [discriminate|]. intros [H|[H|H]]; [discriminate| |].
      * destruct H as (c & Hin & Hc).
        assert (Js.some (fun permission => hasPermission p permission) P = true)
          by (apply some_true_iff; now exists c).
        congruence.
      * destruct H as (c & Hin & Hc). apply orb_true_iff in Hc.
        assert (Js.some
                  (fun permission =>
                     hasPermission p (Js.split_head ":" permission ++ ":manage")%string
                     || hasPermission p "all:manage") P = true)
          by (apply some_true_iff; now exists c).
        congruence.
Qed.

Lemma requirePermission_outcomes (P : list string) (p : IUser) :
  requirePermission P (mkRequest (Some p)) = Next \/
  requirePermission P (mkRequest (Some p)) =
    NextError (mkApiError "You do not have permission to perform this action" 403).
Proof.
  unfold requirePermission; simpl.
  repeat match goal with
         | |- context [if ?b then _ else _] => destruct b
         end; auto.
Qed.

Lemma decision_allow (n : NextCall) : decision n = Allow <-> n = Next.
Proof.
  destruct n as [|e]; simpl; [tauto|].
  split; [|discriminate].
  destruct (Nat.eqb (statusCode e) 401); [discriminate|].
  destruct (Nat.eqb (statusCode e) 403); discriminate.
Qed.

Lemma manage_code_defined (resource : string) :
  Js.occurs ":" resource = false ->
  (resource ++ ":manage")%string <> "undefined:undefined".
Proof.
  intros Hocc Heq.
  pose proof (f_equal (Js.split_head ":") Heq) as Hhead.
  change (resource ++ ":manage")%string
    with (resource ++ ":" ++ "manage")%string in Hhead.
  rewrite (split_head_code resource "manage" Hocc) in Hhead.
  simpl in Hhead. subst resource. discriminate Heq.
Qed.

(** [requirePermission] (the specification's [authorizePermission])
    denies with Unauthenticated when the request carries no principal.
    For a principal [p] and a list [P] of codes of the form
    [resource:action], none of them the string ["undefined:undefined"],
    it allows exactly when [p] has the SuperAdmin role, or [p] holds
    some code of [P], or, for some [resource:action] in [P], [p] holds
    [resource:manage] or [all:manage]; otherwise it denies with
    Forbidden.  "Has" and "holds" are those of the specification:
    [holds_role] and [holds_permission]. *)
Lemma requirePermission_decision (P : list string)
    (Hcodes : Forall (fun c => Js.occurs ":" c = true) P)
    (Hdefined : ~ In "undefined:undefined" P) :
  decision (requirePermission P (mkRequest None)) = Unauthenticated /\
  forall p : IUser,
    (decision (requirePermission P (mkRequest (Some p))) = Allow <->
       holds_role p "SuperAdmin" \/
       (exists c, In c P /\ holds_permission p c) \/
       (exists resource action,
          In (resource ++ ":" ++ action)%string P /\
          Js.occurs ":" resource = false /\
          (holds_permission p (resource ++ ":manage")%string \/
           holds_permission p "all:manage"))) /\
    (decision (requirePermission P (mkRequest (Some p))) = Allow \/
     decision (requirePermission P (mkRequest (Some p))) = Forbidden).
Proof.
  assert (Hin : forall c, In c P -> c <> "undefined:undefined")
    by (intros c Hc ->; exact (Hdefined Hc)).
  assert (Hall : "all:manage" <> "undefined:undefined") by discriminate.
  split; [reflexivity|]. intros p. split.
  - rewrite decision_allow, requirePermission_next, hasRole_iff.
    rewrite Forall_forall in Hcodes. split.
    + intros [H|[(c & Hc & H)|(c & Hc & H)]]; [now left| |].
      * right; left. exists c. split; [exact Hc|].
        now apply (hasPermission_resolved p c (Hin c Hc)).
      * right; right.
        destruct (split_head_decompose c (Hcodes c Hc))
          as (action & Heq & Hocc).
        exists (Js.split_head ":" c), action. rewrite <- Heq.
        split; [exact Hc|]. split; [exact Hocc|].
        destruct H as [H|H].
        -- left. now apply (hasPermission_resolved p _
                              (manage_code_defined _ Hocc)).
        -- right. now apply (hasPermission_resolved p _ Hall).
    + intros [H|[(c & Hc & H)|(resource & action & Hc & Hocc & H)]];
        [now left| |].
      * right; left. exists c. split; [exact Hc|].
        now apply (hasPermission_resolved p c (Hin c Hc)).
      * right; right. exists (resource ++ ":" ++ action)%string.
        split; [exact Hc|]. rewrite (split_head_code resource action Hocc).
        destruct H as [H|H].
        -- left. now apply (hasPermission_resolved p _
                              (manage_code_defined _ Hocc)).
        -- right. now apply (hasPermission_resolved p _ Hall).
  - destruct (requirePermission_outcomes P p) as [-> | ->]; simpl; auto.
Qed.

(** The manage-escalation scenario: [hrManagerUser] does not hold
    [careers:create] and is allowed it through [careers:manage]. *)
Lemma requirePermission_manage_escalation :
  ~ holds_permission Sample.hrManagerUser "careers:create" /\
  decision (requirePermission ["careers:create"]
              (mkRequest (Some Sample.hrManagerUser))) = Allow.
Proof.
  assert (Hcodes : Forall (fun c => Js.occurs ":" c = true) ["careers:create"])
    by (repeat constructor).
  assert (Hdefined : ~ In "undefined:undefined" ["careers:create"])
    by (intros [H|[]]; discriminate H).
  split.
  - intros H.
    apply (hasPermission_resolved Sample.hrManagerUser "careers:create") in H;
      discriminate.
  - apply (proj2 (requirePermission_decision ["careers:create"] Hcodes Hdefined)
             Sample.hrManagerUser).
    right; right. exists "careers", "create".
    split; [now left|]. split; [reflexivity|]. left.
    apply (hasPermission_resolved Sample.hrManagerUser "careers:manage");
      [discriminate|reflexivity].
Qed.



Lemma authorize_next (R : list string) (p : IUser) :
  authorize R (mkRequest (Some p)) = Next <->
  hasRole p "SuperAdmin" = true \/ exists r, In r R /\ hasRole p r = true.
Proof.
  unfold authorize; simpl.
  destruct (hasRole p "SuperAdmin"); [tauto|].
  destruct (Js.some (fun role => hasRole p role) R) eqn:Hsome; simpl.
  - apply some_true_iff in Hsome. tauto.
  - split; [discriminate|]. intros [H|(r & Hin & Hr)]; [discriminate|].
    assert (Js.some (fun role => hasRole p role) R = true)
      by (apply some_true_iff; now exists r).
    congruence.
Qed.

(** C2.  [authorize] denies with Unauthenticated when the request carries
    no principal; for a principal [p] it allows exactly when [p] has the
    SuperAdmin role or [hasRole p r] for some [r] of the required list,
    that is, when the resolved roles of [p] meet the list; otherwise it
    denies with Forbidden. *)
Theorem authorize_decision (R : list string) :
  decision (authorize R (mkRequest None)) = Unauthenticated /\
  forall p : IUser,
    (decision (authorize R (mkRequest (Some p))) = Allow <->
       hasRole p "SuperAdmin" = true \/
       exists r, In r R /\ hasRole p r = true) /\
    (decision (authorize R (mkRequest (Some p))) = Allow <->
       holds_role p "SuperAdmin" \/ exists r, In r R /\ holds_role p r) /\
    (decision (authorize R (mkRequest (Some p))) = Allow \/
     decision (authorize R (mkRequest (Some p))) = Forbidden).
Proof.
  split; [reflexivity|]. intros p.
  assert (Hnext := authorize_next R p).
  split; [|split].
  - now rewrite decision_allow.
  - rewrite decision_allow, Hnext, hasRole_iff. split.
    + intros [H|(r & Hin & Hr)]; [now left|].
      right. exists r. now rewrite <- hasRole_iff.
    + intros [H|(r & Hin & Hr)]; [now left|].
      right. exists r. now rewrite hasRole_iff.
  - unfold authorize; simpl.
    destruct (hasRole p "SuperAdmin"); [now left|].
    destruct (Js.some (fun role => hasRole p role) R); simpl; auto.
Qed.

(** C10.  With an empty requirement list, [authorize] and
    [requirePermission] deny a principal without the SuperAdmin role with
    Forbidden, and still allow a principal that has it. *)
Theorem empty_requirement_list (p : IUser) :
  (~ holds_role p "SuperAdmin" ->
     decision (authorize [] (mkRequest (Some p))) = Forbidden /\
     decision (requirePermission [] (mkRequest (Some p))) = Forbidden) /\
  (holds_role p "SuperAdmin" ->
     decision (authorize [] (mkRequest (Some p))) = Allow /\
     decision (requirePermission [] (mkRequest (Some p))) = Allow).
Proof.
  split; intros H.
  - apply hasRole_false_iff in H.
    unfold authorize, requirePermission; simpl. now rewrite H.
  - apply hasRole_iff in H.
    unfold authorize, requirePermission; simpl. now rewrite H.
Qed.

Lemma editor_not_superadmin : ~ holds_role Sample.editorUser "SuperAdmin".
Proof. apply hasRole_false_iff. reflexivity. Defined.

Lemma superadmin_holds : holds_role Sample.superAdminUser "SuperAdmin".
Proof. apply hasRole_iff. reflexivity. Defined.

Lemma empty_requirement_list_witness :
  (decision (authorize [] (mkRequest (Some Sample.editorUser))) = Forbidden /\
   decision (requirePermission [] (mkRequest (Some Sample.editorUser)))
     = Forbidden) /\
  (decision (authorize [] (mkRequest (Some Sample.superAdminUser))) = Allow /\
   decision (requirePermission [] (mkRequest (Some Sample.superAdminUser)))
     = Allow).
Proof.
  split.
  - apply (proj1 (empty_requirement_list Sample.editorUser)).
    exact editor_not_superadmin.
  - apply (proj2 (empty_requirement_list Sample.superAdminUser)).
    exact superadmin_holds.
Defined.

(** C8.  A principal whose role is resolved but whose permissions are
    still references: [hasPermission] answers [true] for the code
    ["undefined:undefined"], although the principal holds no resolved
    permission at all. *)
Theorem hasPermission_unresolved_reference_matches :
  hasPermission Sample.shallowUser "undefined:undefined" = true /\
  (forall c, ~ holds_permission Sample.shallowUser c).
Proof.
  split; [reflexivity|].
  intros c (roles & r & ps & perm & H1 & H2 & H3 & H4 & _).
  simpl in H1. injection H1 as <-.
  destruct H2 as [H2|[]]. injection H2 as <-.
  simpl in H3. injection H3 as <-.
  destruct H4 as [H4|[]]. discriminate.
Qed.

(* ================================================================= *)
(** * Properties of the insertion-ordered map *)

Section JsMapFacts.
Context {V : Type}.
Implicit Types (m : JsMap.t V) (k : string) (v : V).

Lemma get_set_eq m k v : JsMap.get (JsMap.set m k v) k = Some v.
Proof.
  induction m as [|[k' v'] rest IH]; simpl.
  - now rewrite String.eqb_refl.
  - destruct (String.eqb_spec k' k) as [->|Hne]; simpl.
    + now rewrite String.eqb_refl.
    + destruct (String.eqb_spec k' k); [contradiction|assumption].
Qed.

Lemma get_set_neq m k k' v :
  k <> k' -> JsMap.get (JsMap.set m k v) k' = JsMap.get m k'.
Proof.
  intros Hne. induction m as [|[k0 v0] rest IH]; simpl.
  - destruct (String.eqb_spec k k'); [contradiction|reflexivity].
  - destruct (String.eqb_spec k0 k) as [->|Hk]; simpl.
    + destruct (String.eqb_spec k k'); [contradiction|reflexivity].
    + now rewrite IH.
Qed.

Lemma get_delete_eq m k : JsMap.get (JsMap.delete m k) k = None.
Proof.
  unfold JsMap.delete.
  induction m as [|[k0 v0] rest IH]; simpl; [reflexivity|].
  destruct (String.eqb_spec k0 k) as [->|Hk]; simpl; [assumption|].
  destruct (String.eqb_spec k0 k); [contradiction|assumption].
Qed.

Lemma get_delete_neq m k k' :
  k <> k' -> JsMap.get (JsMap.delete m k) k' = JsMap.get m k'.
Proof.
  intros Hne. unfold JsMap.delete.
  induction m as [|[k0 v0] rest IH]; simpl; [reflexivity|].
  destruct (String.eqb_spec k0 k) as [->|Hk]; simpl.
  - destruct (String.eqb_spec k k'); [contradiction|assumption].
  - now rewrite IH.
Qed.

Lemma get_none_keys m k : JsMap.get m k = None <-> ~ In k (JsMap.keys m).
Proof.
  induction m as [|[k0 v0] rest IH]; simpl; [tauto|].
  destruct (String.eqb_spec k0 k) as [->|Hk].
  - split; [discriminate|]. intros H. exfalso. apply H. now left.
  - rewrite IH. tauto.
Qed.

Lemma keys_set m k v :
  JsMap.keys (JsMap.set m k v) =
  if JsMap.has m k then JsMap.keys m else JsMap.keys m ++ [k].
Proof.
  unfold JsMap.has.
  induction m as [|[k0 v0] rest IH]; simpl; [reflexivity|].
  destruct (String.eqb_spec k0 k) as [->|Hk]; simpl; [reflexivity|].
  rewrite IH. now destruct (JsMap.get rest k).
Qed.

Lemma wf_set m k v : JsMap.wf m -> JsMap.wf (JsMap.set m k v).
Proof.
  unfold JsMap.wf. intros Hwf. rewrite keys_set.
  unfold JsMap.has. destruct (JsMap.get m k) eqn:Hget; [assumption|].
  apply get_none_keys in Hget.
  apply NoDup_app; [assumption|repeat constructor; intros []|].
  intros x Hx [<-|[]]. contradiction.
Qed.

Lemma wf_delete m k : JsMap.wf m -> JsMap.wf (JsMap.delete m k).
Proof.
  unfold JsMap.wf, JsMap.delete, JsMap.keys.
  induction m as [|[k0 v0] rest IH]; simpl; intros Hwf; [constructor|].
  inversion Hwf as [|? ? Hnotin Hrest]; subst.
  destruct (String.eqb k0 k); simpl; [now apply IH|].
  constructor; [|now apply IH].
  intros Hin. apply Hnotin. apply in_map_iff in Hin.
  destruct Hin as (e & He & Hin). apply filter_In in Hin.
  apply in_map_iff. exists e. tauto.
Qed.

Lemma get_entries m k v :
  JsMap.wf m -> (JsMap.get m k = Some v <-> In (k, v) (JsMap.entries m)).
Proof.
  unfold JsMap.wf, JsMap.entries, JsMap.keys.
  induction m as [|[k0 v0] rest IH]; simpl; intros Hwf.
  - split; [discriminate|tauto].
  - inversion Hwf as [|? ? Hnotin Hrest]; subst.
    destruct (String.eqb_spec k0 k) as [->|Hk].
    + split.
      * intros H. injection H as ->. now left.
      * intros [H|H]; [now injection H as ->|].
        exfalso. apply Hnotin. apply in_map_iff. now exists (k, v).
    + rewrite (IH Hrest). split; [tauto|].
      intros [H|H]; [injection H as -> _; contradiction|assumption].
Qed.

End JsMapFacts.

(* ================================================================= *)
(** * The connection registry *)

Lemma get_register (reg : Registry) (userId : string)
    (socket : AuthenticatedSocket) (u : string) :
  JsMap.get (register reg userId socket) u =
  if String.eqb userId u
  then Some (or_empty (JsMap.get reg userId) ++ [socket])
  else JsMap.get reg u.
Proof.
  unfold register, JsMap.has.
  destruct (JsMap.get reg userId) as [sockets|] eqn:Hget; simpl.
  - rewrite Hget.
    destruct (String.eqb_spec userId u) as [<-|Hne].
    + apply get_set_eq.
    + now apply get_set_neq.
  - rewrite get_set_eq.
    destruct (String.eqb_spec userId u) as [<-|Hne].
    + apply get_set_eq.
    + now rewrite !get_set_neq.
Qed.

Lemma get_unregister (reg : Registry) (userId : string)
    (socket : AuthenticatedSocket) (u : string) :
  JsMap.get (unregister reg userId socket) u =
  if String.eqb userId u
  then stored (filter (fun s => negb (String.eqb (socket_id s) (socket_id socket)))
                      (or_empty (JsMap.get reg userId)))
  else JsMap.get reg u.
Proof.
  unfold unregister. fold (or_empty (JsMap.get reg userId)).
  destruct (filter _ (or_empty (JsMap.get reg userId))) as [|s rest] eqn:Hf;
    simpl.
  - destruct (String.eqb_spec userId u) as [<-|Hne].
    + apply get_delete_eq.
    + now apply get_delete_neq.
  - destruct (String.eqb_spec userId u) as [<-|Hne].
    + apply get_set_eq.
    + now apply get_set_neq.
Qed.

Lemma wf_register (reg : Registry) (userId : string)
    (socket : AuthenticatedSocket) :
  JsMap.wf reg -> JsMap.wf (register reg userId socket).
Proof.
  intros Hwf. unfold register.
  destruct (negb (JsMap.has reg userId));
    match goal with
    | |- context [JsMap.get ?m userId] =>
        destruct (JsMap.get m userId); auto using wf_set
    end.
Qed.

Lemma wf_unregister (reg : Registry) (userId : string)
    (socket : AuthenticatedSocket) :
  JsMap.wf reg -> JsMap.wf (unregister reg userId socket).
Proof.
  intros Hwf. unfold unregister.
  match goal with |- context [if ?b then _ else _] => destruct b end;
    auto using wf_set, wf_delete.
Qed.

Lemma or_empty_stored (sockets : list AuthenticatedSocket) :
  or_empty (stored sockets) = sockets.
Proof. now destruct sockets. Qed.

Lemma stored_app (sockets : list AuthenticatedSocket) (s : AuthenticatedSocket) :
  stored (sockets ++ [s]) = Some (sockets ++ [s]).
Proof. now destruct sockets. Qed.

Lemma filter_idem {A : Type} (f : A -> bool) (xs : list A) :
  filter f (filter f xs) = filter f xs.
Proof.
  induction xs as [|x rest IH]; simpl; [reflexivity|].
  destruct (f x) eqn:Hf; simpl; [rewrite Hf; now f_equal|assumption].
Qed.

Lemma filter_all {A : Type} (f : A -> bool) (xs : list A) :
  (forall x, In x xs -> f x = true) -> filter f xs = xs.
Proof.
  induction xs as [|x rest IH]; simpl; intros H; [reflexivity|].
  rewrite (H x (or_introl eq_refl)). f_equal. apply IH. auto.
Qed.

(** *** The handlers, one by one *)

Lemma fold_on_timer (ts : list Timer) (st : ServerState) :
  let st' := fold_left (fun acc t => on_timer t acc) ts st in
  activeConnections st' = activeConnections st /\
  listeners st' = listeners st /\
  intervals st' = intervals st.
Proof.
  revert st. induction ts as [|t rest IH]; intros st; simpl; [auto|].
  destruct (IH (on_timer t st)) as (H1 & H2 & H3).
  now rewrite H1, H2, H3.
Qed.

Lemma on_connection_tracks (socket : AuthenticatedSocket) (st : ServerState)
    (L : string -> list AuthenticatedSocket) :
  registry_tracks st L ->
  registry_tracks (on_connection socket st)
    (match connection_of socket with
     | Some (owner, s) =>
         fun userId => if String.eqb owner userId then L userId ++ [s]
                       else L userId
     | None => L
     end).
Proof.
  intros HL. unfold on_connection, connection_of.
  destruct (socket_user socket) as [user|]; [|exact HL].
  destruct (user_id user) as [userId|]; [|exact HL].
  intros u. simpl. rewrite get_register, (HL userId), or_empty_stored.
  destruct (String.eqb_spec userId u) as [<-|Hne].
  - now rewrite stored_app.
  - apply HL.
Qed.

Lemma on_connection_cover (socket : AuthenticatedSocket) (st : ServerState)
    (L : string -> list AuthenticatedSocket) :
  listeners_cover st L ->
  listeners_cover (on_connection socket st)
    (match connection_of socket with
     | Some (owner, s) =>
         fun userId => if String.eqb owner userId then L userId ++ [s]
                       else L userId
     | None => L
     end).
Proof.
  intros HL. unfold on_connection, connection_of.
  destruct (socket_user socket) as [user|]; [|exact HL].
  destruct (user_id user) as [userId|]; [|exact HL].
  intros u s Hin. simpl.
  assert (Hold : In s (L u) ->
                 exists l, In l (listeners st ++
                                 [mkListener socket userId (next_handle st)]) /\
                           socket_id (listener_socket l) = socket_id s /\
                           listener_userId l = u).
  { intros H. destruct (HL u s H) as (l & Hl & Hrest).
    exists l. split; [apply in_or_app; now left|assumption]. }
  destruct (String.eqb_spec userId u) as [<-|Hne]; [|now apply Hold].
  apply in_app_or in Hin. destruct Hin as [Hin|[<-|[]]]; [now apply Hold|].
  exists (mkListener socket userId (next_handle st)).
  split; [apply in_or_app; right; now left|now split].
Qed.

Lemma on_disconnect_tracks (l : DisconnectListener) (st : ServerState)
    (L : string -> list AuthenticatedSocket) :
  registry_tracks st L ->
  registry_tracks (on_disconnect l st)
    (fun userId =>
       if String.eqb (listener_userId l) userId
       then filter (fun s => negb (String.eqb (socket_id s)
                                              (socket_id (listener_socket l))))
                   (L userId)
       else L userId).
Proof.
  intros HL u. unfold on_disconnect, prune, clearInterval. simpl.
  rewrite get_unregister, (HL (listener_userId l)), or_empty_stored.
  destruct (String.eqb_spec (listener_userId l) u) as [<-|Hne];
    [reflexivity|apply HL].
Qed.

Lemma fold_on_disconnect_listeners (ls : list DisconnectListener)
    (st : ServerState) :
  listeners (fold_left (fun acc l => on_disconnect l acc) ls st) = listeners st.
Proof.
  revert st. induction ls as [|l rest IH]; intros st; simpl; [reflexivity|].
  now rewrite IH.
Qed.

Lemma fold_on_disconnect_tracks (sid : string) (ls : list DisconnectListener) :
  (forall l, In l ls -> socket_id (listener_socket l) = sid) ->
  forall (st : ServerState) (L : string -> list AuthenticatedSocket),
    registry_tracks st L ->
    registry_tracks (fold_left (fun acc l => on_disconnect l acc) ls st)
      (fun userId =>
         if existsb (fun l => String.eqb (listener_userId l) userId) ls
         then filter (fun s => negb (String.eqb (socket_id s) sid)) (L userId)
         else L userId).
Proof.
  induction ls as [|l rest IH]; intros Hsid st L HL; simpl; [exact HL|].
  assert (Hl : socket_id (listener_socket l) = sid) by (apply Hsid; now left).
  assert (Hrest : forall l', In l' rest -> socket_id (listener_socket l') = sid)
    by (intros l' H; apply Hsid; now right).
  pose proof (IH Hrest _ _ (on_disconnect_tracks l st L HL)) as Hfold.
  intros u. rewrite (Hfold u), Hl.
  destruct (String.eqb (listener_userId l) u); simpl.
  - rewrite filter_idem.
    now destruct (existsb (fun l0 => String.eqb (listener_userId l0) u) rest).
  - reflexivity.
Qed.

(** *** One step of the event loop *)

Section RegistryInvariant.

Variable env : Env.

Lemma step_tracks (st : ServerState) (L : string -> list AuthenticatedSocket)
    (ev : Event) :
  registry_tracks st L -> listeners_cover st L ->
  registry_tracks (step env st ev) (live_step env L ev) /\
  listeners_cover (step env st ev) (live_step env L ev).
Proof.
  intros HL Hcov. destruct ev as [socket|socket|handle|sid].
  - (* handshake *)
    unfold step, live_step; simpl. unfold on_handshake.
    destruct (auth_middleware env socket)
      as [attached [|reason]].
    + split; [now apply on_connection_tracks|now apply on_connection_cover].
    + split; assumption.
  - (* connection *)
    unfold step, live_step; simpl.
    split; [now apply on_connection_tracks|now apply on_connection_cover].
  - (* timer *)
    unfold step, live_step; simpl.
    destruct (fold_on_timer
                (filter (fun t => Nat.eqb (timer_handle t) handle) (intervals st))
                st) as (Hreg & Hlis & _).
    split.
    + intros u. rewrite Hreg. apply HL.
    + intros u s Hin. rewrite Hlis. now apply Hcov.
  - (* disconnect *)
    unfold step, live_step; simpl.
    set (ls := filter (fun l => String.eqb (socket_id (listener_socket l)) sid)
                      (listeners st)).
    assert (Hls : forall l, In l ls -> socket_id (listener_socket l) = sid).
    { intros l Hin. apply filter_In in Hin. now apply String.eqb_eq. }
    pose proof (fold_on_disconnect_tracks sid ls Hls st L HL) as Hfold.
    split.
    + intros u. rewrite (Hfold u).
      destruct (existsb (fun l => String.eqb (listener_userId l) u) ls)
        eqn:Hex; [reflexivity|].
      f_equal. symmetry. apply filter_all. intros s Hin.
      apply negb_true_iff. apply String.eqb_neq. intros Hsid.
      destruct (Hcov u s Hin) as (l & Hl & Hid & Huid).
      assert (existsb (fun l0 => String.eqb (listener_userId l0) u) ls = true).
      { apply existsb_exists. exists l. split.
        - apply filter_In. split; [assumption|].
          apply String.eqb_eq. congruence.
        - now apply String.eqb_eq. }
      congruence.
    + intros u s Hin. rewrite fold_on_disconnect_listeners.
      apply filter_In in Hin. now apply Hcov.
Qed.

Lemma run_tracks (evs : list Event) :
  forall (st : ServerState) (L : string -> list AuthenticatedSocket),
    registry_tracks st L -> listeners_cover st L ->
    registry_tracks (run env st evs) (fold_left (live_step env) evs L) /\
    listeners_cover (run env st evs) (fold_left (live_step env) evs L).
Proof.
  induction evs as [|ev rest IH]; intros st L HL Hcov; simpl; [now split|].
  destruct (step_tracks st L ev HL Hcov) as (HL' & Hcov').
  now apply IH.
Qed.

(** The registry never holds two entries for one key. *)
Lemma step_wf (st : ServerState) (ev : Event) :
  JsMap.wf (activeConnections st) -> JsMap.wf (activeConnections (step env st ev)).
Proof.
  assert (Hconn : forall socket s0,
             JsMap.wf (activeConnections s0) ->
             JsMap.wf (activeConnections (on_connection socket s0))).
  { intros socket s0 H. unfold on_connection.
    destruct (socket_user socket) as [user|]; [|exact H].
    destruct (user_id user); [|exact H]. simpl. now apply wf_register. }
  intros Hwf. destruct ev as [socket|socket|handle|sid]; simpl.
  - unfold on_handshake.
    destruct (auth_middleware env socket)
      as [attached [|reason]]; [now apply Hconn|exact Hwf].
  - now apply Hconn.
  - destruct (fold_on_timer
                (filter (fun t => Nat.eqb (timer_handle t) handle) (intervals st))
                st) as (Hreg & _).
    now rewrite Hreg.
  - generalize (filter (fun l => String.eqb (socket_id (listener_socket l)) sid)
                       (listeners st)).
    intros ls. revert st Hwf.
    induction ls as [|l rest IH]; intros st Hwf; simpl; [exact Hwf|].
    apply IH. unfold on_disconnect, prune, clearInterval; simpl.
    now apply wf_unregister.
Qed.

Lemma run_wf (evs : list Event) (st : ServerState) :
  JsMap.wf (activeConnections st) -> JsMap.wf (activeConnections (run env st evs)).
Proof.
  revert st. induction evs as [|ev rest IH]; intros st Hwf; simpl;
    [exact Hwf|].
  apply IH. now apply step_wf.
Qed.

(** C4.  After any sequence of events from server start, a user id is
    a key of the registry exactly when that user has a live
    connection; the array stored under the key is the list of those
    connections; and the registry has one entry per key.  As this
    holds after every event, the key of a user whose last connection
    disconnects is gone when the disconnect handler returns: the
    registry update of that handler leaves under the key the
    connections that remain, and no key when none remains. *)
Theorem registry_key_iff_live (evs : list Event) (userId : string) :
  let reg := activeConnections (run env initial_state evs) in
  (JsMap.has reg userId = true <-> live env evs userId <> []) /\
  (JsMap.has reg userId = true <-> 0 < List.length (live env evs userId)) /\
  JsMap.get reg userId = stored (live env evs userId) /\
  JsMap.wf reg /\
  (forall (r : Registry) (socket : AuthenticatedSocket),
      JsMap.get (unregister r userId socket) userId =
      stored (filter (fun s => negb (String.eqb (socket_id s)
                                                (socket_id socket)))
                     (or_empty (JsMap.get r userId)))).
Proof.
  intros reg.
  cut ((JsMap.has reg userId = true <-> live env evs userId <> []) /\
       (JsMap.has reg userId = true <-> 0 < List.length (live env evs userId)) /\
       JsMap.get reg userId = stored (live env evs userId) /\
       JsMap.wf reg).
  { intros (H1 & H2 & H3 & H4). repeat (split; [assumption|]).
    intros r socket. rewrite get_unregister. now rewrite String.eqb_refl. }
  assert (Hinit : registry_tracks initial_state (fun _ => []))
    by (intros u; reflexivity).
  assert (Hcov : listeners_cover initial_state (fun _ => []))
    by (intros u s []).
  destruct (run_tracks evs _ _ Hinit Hcov) as (Htracks & _).
  pose proof (Htracks userId : JsMap.get reg userId = stored (live env evs userId))
    as Hget.
  assert (Hwf : JsMap.wf reg) by (apply run_wf; constructor).
  unfold JsMap.has. rewrite Hget.
  destruct (live env evs userId) as [|s rest]; simpl.
  - split; [|split; [|split]]; try assumption; try reflexivity.
    + split; [discriminate|]. intros H. now contradiction H.
    + split; [discriminate|lia].
  - split; [|split; [|split]]; try assumption; try reflexivity.
    + split; [discriminate|reflexivity].
    + split; [lia|reflexivity].
Qed.

End RegistryInvariant.

(* ================================================================= *)
(** * The heartbeat *)

Lemma fold_on_timer_wire (ts : list Timer) (st : ServerState) :
  wire (fold_left (fun acc t => on_timer t acc) ts st) =
  wire st ++ map (fun t => mkEmission (timer_socket t) "ping" None) ts.
Proof.
  revert st. induction ts as [|t rest IH]; intros st; simpl.
  - now rewrite app_nil_r.
  - rewrite IH. simpl. now rewrite <- app_assoc.
Qed.

Lemma fold_on_disconnect_wire (ls : list DisconnectListener) (st : ServerState) :
  wire (fold_left (fun acc l => on_disconnect l acc) ls st) = wire st.
Proof.
  revert st. induction ls as [|l rest IH]; intros st; simpl; [reflexivity|].
  now rewrite IH.
Qed.

(** The timers that survive a run of disconnect handlers were scheduled
    before and were cleared by none of them. *)
Lemma fold_on_disconnect_intervals (ls : list DisconnectListener)
    (st : ServerState) (t : Timer) :
  In t (intervals (fold_left (fun acc l => on_disconnect l acc) ls st)) ->
  In t (intervals st) /\
  forall l, In l ls -> timer_handle t <> listener_pingInterval l.
Proof.
  revert st. induction ls as [|l rest IH]; intros st; simpl.
  - intros H. split; [assumption|intros l []].
  - intros H. apply IH in H. destruct H as (Hin & Hrest).
    unfold on_disconnect, prune, clearInterval in Hin. simpl in Hin.
    apply filter_In in Hin. destruct Hin as (Hin & Hh).
    split; [assumption|].
    intros l' [<-|Hl']; [|now apply Hrest].
    apply negb_true_iff in Hh. now apply Nat.eqb_neq.
Qed.

Lemma on_connection_wire (socket : AuthenticatedSocket) (st : ServerState) :
  wire (on_connection socket st) = wire st.
Proof.
  unfold on_connection.
  destruct (socket_user socket) as [user|]; [|reflexivity].
  now destruct (user_id user).
Qed.

Lemma on_connection_owned (socket : AuthenticatedSocket) (st : ServerState) :
  timers_owned st -> timers_owned (on_connection socket st).
Proof.
  intros Hown. unfold on_connection.
  destruct (socket_user socket) as [user|]; [|exact Hown].
  destruct (user_id user) as [userId|]; [|exact Hown].
  intros t Hin. simpl in *. apply in_app_or in Hin.
  destruct Hin as [Hin|[<-|[]]].
  - destruct (Hown t Hin) as (l & Hl & Hrest).
    exists l. split; [apply in_or_app; now left|assumption].
  - exists (mkListener socket userId (next_handle st)).
    split; [apply in_or_app; right; now left|now split].
Qed.

Lemma on_connection_no_timer (sid : string) (socket : AuthenticatedSocket)
    (st : ServerState) :
  socket_id socket <> sid ->
  no_timer_for sid st -> no_timer_for sid (on_connection socket st).
Proof.
  intros Hne Hno. unfold on_connection.
  destruct (socket_user socket) as [user|]; [|exact Hno].
  destruct (user_id user) as [userId|]; [|exact Hno].
  intros t Hin. simpl in Hin. apply in_app_or in Hin.
  destruct Hin as [Hin|[<-|[]]]; [now apply Hno|exact Hne].
Qed.

Lemma auth_middleware_id (env : Env) (socket : AuthenticatedSocket) :
  socket_id (fst (auth_middleware env socket)) = socket_id socket.
Proof.
  unfold auth_middleware.
  repeat match goal with
         | |- context [match ?x with _ => _ end] => destruct x; simpl
         end; reflexivity.
Qed.

Section Heartbeat.

Variable env : Env.

Lemma run_app (st : ServerState) (evs1 evs2 : list Event) :
  run env st (evs1 ++ evs2) = run env (run env st evs1) evs2.
Proof. apply fold_left_app. Qed.

Lemma step_owned (st : ServerState) (ev : Event) :
  timers_owned st -> timers_owned (step env st ev).
Proof.
  intros Hown. destruct ev as [socket|socket|handle|sid]; simpl.
  - unfold on_handshake.
    destruct (auth_middleware env socket)
      as [attached [|reason]]; [now apply on_connection_owned|exact Hown].
  - now apply on_connection_owned.
  - destruct (fold_on_timer
                (filter (fun t => Nat.eqb (timer_handle t) handle) (intervals st))
                st) as (_ & Hlis & Hint).
    intros t Hin. rewrite Hint in Hin. rewrite Hlis. now apply Hown.
  - intros t Hin. rewrite fold_on_disconnect_listeners.
    apply fold_on_disconnect_intervals in Hin. now apply Hown.
Qed.

Lemma run_owned (evs : list Event) (st : ServerState) :
  timers_owned st -> timers_owned (run env st evs).
Proof.
  revert st. induction evs as [|ev rest IH]; intros st Hown; simpl;
    [exact Hown|].
  apply IH. now apply step_owned.
Qed.

Lemma step_periodic (st : ServerState) (ev : Event) :
  timers_periodic st -> timers_periodic (step env st ev).
Proof.
  assert (Hconn : forall socket s0,
             timers_periodic s0 -> timers_periodic (on_connection socket s0)).
  { intros socket s0 H. unfold on_connection.
    destruct (socket_user socket) as [user|]; [|exact H].
    destruct (user_id user); [|exact H].
    intros t Hin. simpl in Hin. apply in_app_or in Hin.
    destruct Hin as [Hin|[<-|[]]]; [now apply H|reflexivity]. }
  intros Hper. destruct ev as [socket|socket|handle|sid]; simpl.
  - unfold on_handshake.
    destruct (auth_middleware env socket)
      as [attached [|reason]]; [now apply Hconn|exact Hper].
  - now apply Hconn.
  - destruct (fold_on_timer
                (filter (fun t => Nat.eqb (timer_handle t) handle) (intervals st))
                st) as (_ & _ & Hint).
    intros t Hin. rewrite Hint in Hin. now apply Hper.
  - intros t Hin. apply fold_on_disconnect_intervals in Hin. now apply Hper.
Qed.

Lemma run_periodic (evs : list Event) (st : ServerState) :
  timers_periodic st -> timers_periodic (run env st evs).
Proof.
  revert st. induction evs as [|ev rest IH]; intros st Hper; simpl;
    [exact Hper|].
  apply IH. now apply step_periodic.
Qed.

(** When the disconnect handlers of [sid] have run, no timer pings
    [sid] any more. *)
Lemma disconnect_clears (sid : string) (st : ServerState) :
  timers_owned st -> no_timer_for sid (step env st (EvDisconnect sid)).
Proof.
  intros Hown t Hin Hsid. simpl in Hin.
  apply fold_on_disconnect_intervals in Hin. destruct Hin as (Hin & Hclear).
  destruct (Hown t Hin) as (l & Hl & Hid & Hhandle).
  apply (Hclear l); [|now symmetry].
  apply filter_In. split; [assumption|].
  apply String.eqb_eq. congruence.
Qed.

(** Without a timer for [sid], an event that does not open [sid] again
    schedules none and sends [sid] no ping. *)
Lemma step_quiet (sid : string) (st : ServerState) (ev : Event) :
  opens sid ev = false -> no_timer_for sid st ->
  no_timer_for sid (step env st ev) /\
  pings_to sid (wire (step env st ev)) = pings_to sid (wire st).
Proof.
  intros Hopen Hno. destruct ev as [socket|socket|handle|s']; simpl in *.
  - apply String.eqb_neq in Hopen. unfold on_handshake.
    pose proof (auth_middleware_id env socket)
      as Hid.
    destruct (auth_middleware env socket)
      as [attached [|reason]]; simpl in Hid; [|now split].
    rewrite on_connection_wire. split; [|reflexivity].
    apply on_connection_no_timer; [congruence|assumption].
  - apply String.eqb_neq in Hopen. rewrite on_connection_wire.
    split; [|reflexivity]. now apply on_connection_no_timer.
  - set (ts := filter (fun t => Nat.eqb (timer_handle t) handle) (intervals st)).
    destruct (fold_on_timer ts st) as (_ & _ & Hint).
    split.
    + intros t Hin. rewrite Hint in Hin. now apply Hno.
    + rewrite fold_on_timer_wire. unfold pings_to.
      rewrite filter_app.
      assert (Hnone : forall us,
                 (forall t, In t us -> socket_id (timer_socket t) <> sid) ->
                 filter (fun e => String.eqb (socket_id (emit_to e)) sid
                                  && String.eqb (emit_event e) "ping")
                        (map (fun t => mkEmission (timer_socket t) "ping" None) us)
                 = []).
      { induction us as [|u rest IH]; simpl; intros H; [reflexivity|].
        destruct (String.eqb_spec (socket_id (timer_socket u)) sid) as [E|_].
        - exfalso. apply (H u); [now left|assumption].
        - simpl. apply IH. intros t Ht. apply H. now right. }
      rewrite Hnone; [apply app_nil_r|].
      intros t Hin. apply filter_In in Hin. now apply Hno.
  - rewrite fold_on_disconnect_wire. split; [|reflexivity].
    intros t Hin. apply fold_on_disconnect_intervals in Hin. now apply Hno.
Qed.

Lemma run_quiet (sid : string) (evs : list Event) (st : ServerState) :
  forallb (fun ev => negb (opens sid ev)) evs = true ->
  no_timer_for sid st ->
  pings_to sid (wire (run env st evs)) = pings_to sid (wire st).
Proof.
  revert st. induction evs as [|ev rest IH]; intros st Hevs Hno; simpl;
    [reflexivity|].
  simpl in Hevs. apply andb_true_iff in Hevs. destruct Hevs as (Hev & Hrest).
  apply negb_true_iff in Hev.
  destruct (step_quiet sid st ev Hev Hno) as (Hno' & Hwire).
  rewrite <- Hwire. now apply IH.
Qed.

(** C9.  Once the disconnect handler of a connection has run env, no
    heartbeat is sent to it, whatever timer firings and other events
    follow within that connection's lifetime (the socket is not opened
    again).  The handler clears the interval before it touches the
    registry: after [clearInterval] the registry is still as it was and
    the timer is already gone.  Every timer the server schedules is a
    heartbeat of 30 seconds. *)
Theorem no_ping_after_disconnect (pre post : list Event) (sid : string) :
  forallb (fun ev => negb (opens sid ev)) post = true ->
  pings_to sid (wire (run env initial_state (pre ++ EvDisconnect sid :: post))) =
  pings_to sid (wire (run env initial_state (pre ++ [EvDisconnect sid]))) /\
  (forall l st,
      let cleared := clearInterval (listener_pingInterval l) st in
      on_disconnect l st = prune l cleared /\
      activeConnections cleared = activeConnections st /\
      (forall t, In t (intervals cleared) ->
                 timer_handle t <> listener_pingInterval l) /\
      intervals (on_disconnect l st) = intervals cleared) /\
  (forall evs t,
      In t (intervals (run env initial_state evs)) -> timer_delay t = 30 * 1000).
Proof.
  intros Hpost. split; [|split].
  - change (pre ++ EvDisconnect sid :: post)
      with (pre ++ [EvDisconnect sid] ++ post).
    rewrite app_assoc, run_app.
    apply run_quiet; [assumption|].
    rewrite run_app. simpl. apply disconnect_clears.
    apply run_owned. intros t [].
  - intros l st cleared. repeat split.
    intros t Hin. unfold cleared, clearInterval in Hin. simpl in Hin.
    apply filter_In in Hin. destruct Hin as (_ & Hh).
    apply negb_true_iff in Hh. now apply Nat.eqb_neq.
  - intros evs t Hin.
    apply (run_periodic evs initial_state); [intros t0 []|exact Hin].
Qed.

End Heartbeat.

(* ================================================================= *)
(** * The notifier *)

Lemma existsb_pointwise {A : Type} (f g : A -> bool) (xs : list A) :
  (forall x, f x = g x) -> existsb f xs = existsb g xs.
Proof.
  intros H. induction xs as [|x rest IH]; simpl; [reflexivity|].
  now rewrite H, IH.
Qed.

(** The inline role test of [notifyRoles] agrees with [hasRole]. *)
Lemma role_matches_hasRole (user : IUser) (role : string) :
  role_matches user role = hasRole user role.
Proof.
  unfold role_matches, hasRole.
  destruct (user_roles user) as [[|first rest]|]; [reflexivity| |reflexivity].
  assert (Hobj : forall e, Js.type_tag_eqb (typeof_role e) Js.TObject = true)
    by (intros []; reflexivity).
  rewrite Hobj. unfold Js.some. apply existsb_pointwise.
  intros e. rewrite Hobj. simpl. apply orb_diag.
Qed.

Lemma count_id_app (sid : string) (xs ys : list AuthenticatedSocket) :
  count_id sid (xs ++ ys) = count_id sid xs + count_id sid ys.
Proof. unfold count_id. now rewrite filter_app, length_app. Qed.

Lemma count_id_firstn (sid : string) (k : nat) (xs : list AuthenticatedSocket) :
  count_id sid (firstn k xs) <= count_id sid xs.
Proof.
  rewrite <- (firstn_skipn k xs) at 2. rewrite count_id_app. lia.
Qed.

Lemma deliveries_to_emissions (sid : string) (event : string)
    (data : Js.prop Payload) (xs : list AuthenticatedSocket) :
  deliveries_to sid (map (emission_of event data) xs) = count_id sid xs.
Proof.
  unfold deliveries_to, count_id.
  induction xs as [|x rest IH]; simpl; [reflexivity|].
  destruct (String.eqb (socket_id x) sid); simpl; now rewrite IH.
Qed.

(** The monad laws used below. *)
Lemma bind_ret_l {A B : Type} (a : A) (k : A -> Eff B) : bind (ret a) k = k a.
Proof. unfold bind, ret. now destruct (k a). Qed.

Lemma bind_assoc {A B C : Type} (m : Eff A) (f : A -> Eff B) (g : B -> Eff C) :
  bind (bind m f) g = bind m (fun a => bind (f a) g).
Proof.
  destruct m as [cs [a|e]]; simpl; [|reflexivity].
  destruct (f a) as [cs1 [b|e]]; simpl; [|reflexivity].
  destruct (g b) as [cs2 r]. now rewrite app_assoc.
Qed.

Section NotifierFacts.

Variable transport_emit :
  AuthenticatedSocket -> string -> Js.prop Payload -> option JsError.

Local Abbreviation each := (forEach_emit transport_emit).

Lemma forEach_emit_cons (x : AuthenticatedSocket)
    (rest : list AuthenticatedSocket) (event : string)
    (data : Js.prop Payload) :
  each (x :: rest) event data =
  (emit transport_emit x event data ;;; each rest event data).
Proof. reflexivity. Qed.

Lemma forEach_emit_app (xs ys : list AuthenticatedSocket) (event : string)
    (data : Js.prop Payload) :
  each (xs ++ ys) event data = (each xs event data ;;; each ys event data).
Proof.
  induction xs as [|x rest IH].
  - change (each [] event data) with (@ret unit tt).
    now rewrite bind_ret_l.
  - rewrite <- app_comm_cons, !forEach_emit_cons, IH.
    now rewrite bind_assoc.
Qed.

Lemma notify_entry_targets (roles : list string) (event : string)
    (data : Js.prop Payload) (entry : string * list AuthenticatedSocket) :
  notify_entry transport_emit roles event data entry =
  each (entry_targets roles entry) event data.
Proof.
  unfold notify_entry, entry_targets.
  destruct (snd entry) as [|socket rest]; [reflexivity|].
  cbn [hd_error].
  destruct (socket_user socket) as [user|]; [|reflexivity].
  unfold Js.some.
  rewrite (existsb_pointwise (fun role => role_matches user role)
             (fun role => hasRole user role) roles
             (role_matches_hasRole user)).
  now destruct (existsb (fun role => hasRole user role) roles).
Qed.

(** [notifyRoles] is one [forEach] over the targets. *)
Lemma notifyRoles_forEach (reg : Registry) (roles : list string)
    (event : string) (data : Payload) :
  notifyRoles transport_emit reg roles event data =
  each (targets reg roles) event (Some data).
Proof.
  unfold notifyRoles, targets, JsMap.entries.
  induction reg as [|entry rest IH]; [reflexivity|].
  cbn [notify_loop flat_map].
  now rewrite forEach_emit_app, notify_entry_targets, IH.
Qed.

(** With no failing call, every target is called once, in order. *)
Lemma forEach_emit_ok (xs : list AuthenticatedSocket) (event : string)
    (data : Js.prop Payload) :
  (forall s, In s xs -> transport_emit s event data = None) ->
  each xs event data = (map (emission_of event data) xs, Return tt).
Proof.
  induction xs as [|x rest IH]; intros Hok; [reflexivity|].
  rewrite forEach_emit_cons, IH by (intros s Hs; apply Hok; now right).
  unfold bind, emit. now rewrite (Hok x (or_introl eq_refl)).
Qed.

(** The first failing call ends the iteration with its exception. *)
Lemma forEach_emit_throw (pre post : list AuthenticatedSocket)
    (s : AuthenticatedSocket) (error : JsError) (event : string)
    (data : Js.prop Payload) :
  (forall x, In x pre -> transport_emit x event data = None) ->
  transport_emit s event data = Some error ->
  each (pre ++ s :: post) event data =
  (map (emission_of event data) (pre ++ [s]), Throw error).
Proof.
  intros Hpre Hs.
  rewrite forEach_emit_app, (forEach_emit_ok pre), forEach_emit_cons
    by assumption.
  unfold bind, emit. rewrite Hs. now rewrite map_app.
Qed.

(** Whatever the transport does, the calls made are an initial
    segment of the calls to the targets. *)
Lemma forEach_emit_prefix (xs : list AuthenticatedSocket) (event : string)
    (data : Js.prop Payload) :
  exists k,
    calls (each xs event data) = map (emission_of event data) (firstn k xs).
Proof.
  induction xs as [|x rest IH].
  - now exists 0.
  - destruct IH as (k & Hk). rewrite forEach_emit_cons. unfold bind, emit.
    destruct (transport_emit x event data) as [error|].
    + now exists 1.
    + exists (S k). unfold calls in *.
      destruct (each rest event data) as [cs r]. simpl in *.
      now rewrite Hk.
Qed.

End NotifierFacts.


Lemma count_id_entry_targets (sid : string) (roles : list string)
    (entry : string * list AuthenticatedSocket) :
  count_id sid (entry_targets roles entry) <= count_id sid (snd entry).
Proof.
  unfold entry_targets.
  destruct (hd_error (snd entry)) as [rep|]; [|apply Nat.le_0_l].
  destruct (socket_user rep) as [pr|]; [|apply Nat.le_0_l].
  destruct (existsb (fun role => hasRole pr role) roles);
    [apply Nat.le_refl|apply Nat.le_0_l].
Qed.

Lemma count_id_targets (sid : string) (reg : Registry) (roles : list string) :
  count_id sid (targets reg roles) <= occurrences sid reg.
Proof.
  unfold targets, occurrences, JsMap.entries.
  induction reg as [|entry rest IH]; simpl; [apply Nat.le_refl|].
  rewrite !count_id_app.
  pose proof (count_id_entry_targets sid roles entry). lia.
Qed.

Lemma occurrences_set (sid : string) (reg : Registry) (userId : string)
    (sockets : list AuthenticatedSocket) :
  occurrences sid (JsMap.set reg userId sockets)
  + count_id sid (or_empty (JsMap.get reg userId))
  = occurrences sid reg + count_id sid sockets.
Proof.
  unfold occurrences, JsMap.entries.
  induction reg as [|[k0 v0] rest IH]; simpl.
  - rewrite app_nil_r. change (count_id sid []) with 0. lia.
  - destruct (String.eqb k0 userId); simpl; rewrite !count_id_app; lia.
Qed.




(** C5 (as amended).  [register] does not look for duplicates: it
    always adds one more listing, also for a connection that is already
    listed.  [notifyRoles] calls a connection at most as often as the
    registry arrays list it, on any transport; and when no call throws,
    exactly as often as the arrays of the matching users list it.  So a
    connection registered once is called at most once, and one
    registered twice under a matching user is called twice. *)
Theorem delivery_once_per_registration
    (transport_emit :
       AuthenticatedSocket -> string -> Js.prop Payload -> option JsError)
    (reg : Registry) (roles : list string) (event : string) (data : Payload)
    (userId : string) (c : AuthenticatedSocket) :
  occurrences (socket_id c) (register reg userId c)
  = S (occurrences (socket_id c) reg) /\
  (forall sid,
      deliveries_to sid (calls (notifyRoles transport_emit reg roles event data))
      <= occurrences sid reg) /\
  ((forall s, transport_emit s event (Some data) = None) ->
   forall sid,
     deliveries_to sid (calls (notifyRoles transport_emit reg roles event data))
     = count_id sid (targets reg roles)).
Proof.
  split; [|split].
  - unfold register, JsMap.has.
    assert (Hc : count_id (socket_id c) [c] = 1)
      by (unfold count_id; simpl; now rewrite String.eqb_refl).
    destruct (JsMap.get reg userId) as [sockets|] eqn:Hget; simpl.
    + rewrite Hget.
      pose proof (occurrences_set (socket_id c) reg userId (sockets ++ [c])) as H.
      rewrite Hget, count_id_app, Hc in H. simpl in H. lia.
    + rewrite get_set_eq.
      pose proof (occurrences_set (socket_id c) reg userId []) as H0.
      pose proof (occurrences_set (socket_id c) (JsMap.set reg userId [])
                    userId ([] ++ [c])) as H1.
      rewrite Hget in H0. rewrite get_set_eq in H1. simpl in H0, H1.
      change ([] ++ [c]) with [c].
      change (count_id (socket_id c) []) with 0 in H0, H1. lia.
  - intros sid. rewrite notifyRoles_forEach.
    destruct (forEach_emit_prefix transport_emit (targets reg roles) event
                (Some data)) as (k & ->).
    rewrite deliveries_to_emissions.
    etransitivity; [apply count_id_firstn|apply count_id_targets].
  - intros Hok sid.
    rewrite notifyRoles_forEach, forEach_emit_ok by (intros s _; apply Hok).
    apply deliveries_to_emissions.
Qed.

Lemma delivery_once_per_registration_witness :
  let c := Sample.adminSocket1 in
  let once := register JsMap.empty "64f1c0ffee0000000000b003" c in
  let twice := register once "64f1c0ffee0000000000b003" c in
  (forall s, Sample.never_throws s "notification:blog" (Some Sample.payload)
             = None) /\
  occurrences (socket_id c) twice = 2 /\
  deliveries_to (socket_id c)
    (calls (notifyRoles Sample.never_throws once ["SuperAdmin"]
              "notification:blog" Sample.payload)) = 1 /\
  deliveries_to (socket_id c)
    (calls (notifyRoles Sample.never_throws twice ["SuperAdmin"]
              "notification:blog" Sample.payload)) = 2.
Proof.
  intros c once twice.
  assert (Hok : forall s, Sample.never_throws s "notification:blog"
                            (Some Sample.payload) = None)
    by (intros s; reflexivity).
  split; [exact Hok|]. split; [|split].
  - exact (proj1 (delivery_once_per_registration Sample.never_throws once
                    ["SuperAdmin"] "notification:blog" Sample.payload
                    "64f1c0ffee0000000000b003" c)).
  - exact (proj2 (proj2 (delivery_once_per_registration Sample.never_throws
                           once ["SuperAdmin"] "notification:blog"
                           Sample.payload "64f1c0ffee0000000000b003" c))
             Hok (socket_id c)).
  - exact (proj2 (proj2 (delivery_once_per_registration Sample.never_throws
                           twice ["SuperAdmin"] "notification:blog"
                           Sample.payload "64f1c0ffee0000000000b003" c))
             Hok (socket_id c)).
Defined.

(** C5, the claim as written fails: the same connection registered
    twice is called twice by one matching [notifyRoles]. *)
Lemma register_twice_delivers_twice :
  let c := Sample.adminSocket1 in
  let reg := register (register JsMap.empty "64f1c0ffee0000000000b003" c)
                      "64f1c0ffee0000000000b003" c in
  let log := calls (notifyRoles Sample.never_throws reg ["SuperAdmin"]
                      "notification:blog" Sample.payload) in
  deliveries_to (socket_id c) log = 2 /\ ~ deliveries_to (socket_id c) log <= 1.
Proof.
  split; [reflexivity|].
  intros H. vm_compute in H. lia.
Qed.

(** C7 (as amended).  [notifyRoles] has no handler of its own.  When
    no call to [emit] throws it returns having called every target, in
    order.  When a call throws, the exception leaves [notifyRoles] and
    the targets after the failing one are not called. *)
Theorem notifyRoles_failure_propagates
    (transport_emit :
       AuthenticatedSocket -> string -> Js.prop Payload -> option JsError)
    (reg : Registry) (roles : list string) (event : string) (data : Payload) :
  ((forall s, In s (targets reg roles) ->
              transport_emit s event (Some data) = None) ->
   notifyRoles transport_emit reg roles event data
   = (map (emission_of event (Some data)) (targets reg roles), Return tt)) /\
  (forall pre s post error,
      targets reg roles = pre ++ s :: post ->
      (forall x, In x pre -> transport_emit x event (Some data) = None) ->
      transport_emit s event (Some data) = Some error ->
      notifyRoles transport_emit reg roles event data
      = (map (emission_of event (Some data)) (pre ++ [s]), Throw error)).
Proof.
  split.
  - intros Hok. rewrite notifyRoles_forEach. now apply forEach_emit_ok.
  - intros pre s post error Htargets Hpre Hs.
    rewrite notifyRoles_forEach, Htargets. now apply forEach_emit_throw.
Qed.

(** The scenario of the specification: only the super administrator's
    two connections are notified. *)
Example notify_scenario :
  let st := run Sample.env initial_state
                Sample.three_connections in
  notifyRoles Sample.never_throws (activeConnections st)
              ["SuperAdmin"; "Admin"] "notification:blog" Sample.payload
  = ([emission_of "notification:blog" (Some Sample.payload) Sample.adminSocket1;
      emission_of "notification:blog" (Some Sample.payload) Sample.adminSocket2],
     Return tt).
Proof. reflexivity. Qed.

(** After one of the two connections has disconnected, the other still
    receives the notification; after both have, the key is gone. *)
Example notify_after_disconnect :
  let st1 := run Sample.env initial_state
                 (Sample.three_connections ++ [EvDisconnect "sock-admin-1"]) in
  let st2 := run Sample.env st1
                 [EvDisconnect "sock-admin-2"] in
  calls (notifyRoles Sample.never_throws (activeConnections st1)
           ["SuperAdmin"] "notification:blog" Sample.payload)
  = [emission_of "notification:blog" (Some Sample.payload) Sample.adminSocket2]
  /\ JsMap.keys (activeConnections st1)
     = ["64f1c0ffee0000000000b002"; "64f1c0ffee0000000000b003"]
  /\ JsMap.keys (activeConnections st2) = ["64f1c0ffee0000000000b002"].
Proof. repeat split. Qed.



(** C7, the claim as written fails: the first connection's [emit]
    throws, [notifyRoles] throws, and the user's second connection is
    never called. *)
Lemma failing_emit_aborts_notifyRoles :
  let reg :=
    activeConnections
      (run Sample.env initial_state
           Sample.three_connections) in
  let result := notifyRoles (Sample.throws_at "sock-admin-1") reg
                  ["SuperAdmin"] "notification:blog" Sample.payload in
  targets reg ["SuperAdmin"] = [Sample.adminSocket1; Sample.adminSocket2] /\
  outcome result = Throw (mkError "transport failure" None) /\
  outcome result <> Return tt /\
  deliveries_to "sock-admin-2" (calls result) = 0.
Proof. repeat split. discriminate. Qed.

Lemma notifyRoles_failure_propagates_witness :
  let reg :=
    activeConnections
      (run Sample.env initial_state
           Sample.three_connections) in
  notifyRoles Sample.never_throws reg ["SuperAdmin"] "notification:blog"
    Sample.payload
  = (map (emission_of "notification:blog" (Some Sample.payload))
         [Sample.adminSocket1; Sample.adminSocket2], Return tt) /\
  notifyRoles (Sample.throws_at "sock-admin-2") reg ["SuperAdmin"]
    "notification:blog" Sample.payload
  = (map (emission_of "notification:blog" (Some Sample.payload))
         ([Sample.adminSocket1] ++ [Sample.adminSocket2]),
     Throw (mkError "transport failure" None)).
Proof.
  intros reg. split.
  - apply (proj1 (notifyRoles_failure_propagates Sample.never_throws reg
                    ["SuperAdmin"] "notification:blog" Sample.payload)).
    intros s _. reflexivity.
  - apply (proj2 (notifyRoles_failure_propagates
                    (Sample.throws_at "sock-admin-2") reg
                    ["SuperAdmin"] "notification:blog" Sample.payload)
             [Sample.adminSocket1] Sample.adminSocket2 []).
    + reflexivity.
    + intros x [<-|[]]. reflexivity.
    + reflexivity.
Defined.

(* ================================================================= *)
(** * The handshake *)

(** C6 (as amended).  A handshake whose token is present but is refused
    by [jwt.verify] is rejected through the [catch] block: the reason is
    ["Authentication error: "] followed by the verifier's message (or by
    ["Invalid access token"] when that message is empty).  The socket is
    left without a user, and the registry, the timers and the listeners
    are untouched. *)
Theorem handshake_verification_failure
    (env : Env) (st : ServerState) (socket : AuthenticatedSocket)
    (token key : string) (error : JsError) :
  socket_token socket = Some token -> token <> "" ->
  JWT_ACCESS_SECRET env = Some key -> key <> "" ->
  jwt_verify env token key = Throw error ->
  let reason :=
    ("Authentication error: " ++
     (if String.eqb (error_message error) "" then "Invalid access token"
      else error_message error))%string in
  let st' := step env st (EvHandshake socket) in
  auth_middleware env socket = (socket, Rejected reason) /\
  connect_errors st' = connect_errors st ++ [(socket_id socket, reason)] /\
  activeConnections st' = activeConnections st /\
  intervals st' = intervals st /\
  listeners st' = listeners st /\
  established env (EvHandshake socket) = None.
Proof.
  intros Htoken Hnonempty Hsecret Hkey Hverify reason st'.
  assert (Hmw : auth_middleware env socket = (socket, Rejected reason)).
  { unfold auth_middleware, verifyAccessToken. rewrite Htoken, Hsecret. simpl.
    apply String.eqb_neq in Hnonempty, Hkey. rewrite Hnonempty, Hkey. simpl.
    rewrite Hverify. unfold auth_catch, reason. simpl.
    now destruct (String.eqb (error_message error) ""). }
  unfold st'. simpl. unfold on_handshake. rewrite Hmw. simpl.
  repeat split; reflexivity.
Qed.

(** When the token verifies but the payload is a string or carries no
    [userId], the reason is ["Invalid token"]. *)
Lemma handshake_missing_userId (env : Env) (socket : AuthenticatedSocket)
    (token key : string) (decoded : Decoded) :
  socket_token socket = Some token -> token <> "" ->
  JWT_ACCESS_SECRET env = Some key -> key <> "" ->
  jwt_verify env token key = Return decoded ->
  Js.truthy_str (decoded_userId decoded) = false ->
  auth_middleware env socket
  = (socket, Rejected "Authentication error: Invalid token").
Proof.
  intros Htoken Hnonempty Hsecret Hkey Hverify Hfalsy.
  unfold auth_middleware, verifyAccessToken. rewrite Htoken, Hsecret. simpl.
  apply String.eqb_neq in Hnonempty, Hkey. rewrite Hnonempty, Hkey. simpl.
  rewrite Hverify.
  destruct (decoded_truthy decoded); simpl; [|reflexivity].
  destruct (decoded_userId decoded) as [userId|]; [|reflexivity].
  simpl in Hfalsy. now rewrite Hfalsy.
Qed.

(** C6, the claim as written fails: an expired token is rejected with
    the verifier's message, not with ["Invalid token"]. *)
Lemma expired_token_reason :
  snd (auth_middleware Sample.env
         Sample.staleSocket)
  = Rejected "Authentication error: jwt expired" /\
  snd (auth_middleware Sample.env
         Sample.staleSocket)
  <> Rejected "Authentication error: Invalid token".
Proof. split; [reflexivity|discriminate]. Qed.

Lemma handshake_verification_failure_witness :
  let st' := step Sample.env initial_state
                  (EvHandshake Sample.staleSocket) in
  socket_token Sample.staleSocket = Some "token-expired" /\
  "token-expired" <> "" /\
  JWT_ACCESS_SECRET Sample.env = Some "s3cret" /\ "s3cret" <> "" /\
  jwt_verify Sample.env "token-expired" "s3cret"
  = Throw (mkError "jwt expired" None) /\
  connect_errors st' = [("sock-stale-1", "Authentication error: jwt expired")] /\
  activeConnections st' = JsMap.empty.
Proof.
  intros st'.
  assert (H1 : "token-expired" <> "") by discriminate.
  assert (H2 : "s3cret" <> "") by discriminate.
  split; [reflexivity|]. split; [exact H1|]. split; [reflexivity|].
  split; [exact H2|]. split; [reflexivity|].
  pose proof (handshake_verification_failure Sample.env initial_state Sample.staleSocket
                "token-expired" "s3cret" (mkError "jwt expired" None)
                eq_refl H1 eq_refl H2 eq_refl) as H.
  destruct H as (_ & Herr & Hreg & _). split; [exact Herr|exact Hreg].
Defined.

(** The heartbeat at work: two pings reach the connection while it is
    open, and no later timer firing adds one once it has disconnected. *)
Lemma no_ping_after_disconnect_witness :
  let pre := [EvConnection Sample.adminSocket1; EvTimer 0; EvTimer 0] in
  let post := [EvTimer 0; EvConnection Sample.adminSocket2; EvTimer 1;
               EvTimer 0] in
  let run := run Sample.env in
  forallb (fun ev => negb (opens "sock-admin-1" ev)) post = true /\
  List.length (pings_to "sock-admin-1" (wire (run initial_state pre))) = 2 /\
  pings_to "sock-admin-1"
    (wire (run initial_state (pre ++ EvDisconnect "sock-admin-1" :: post)))
  = pings_to "sock-admin-1"
      (wire (run initial_state (pre ++ [EvDisconnect "sock-admin-1"]))).
Proof.
  intros pre post run.
  split; [reflexivity|]. split; [reflexivity|].
  exact (proj1 (no_ping_after_disconnect Sample.env pre post "sock-admin-1" eq_refl)).
Defined.

(* ================================================================= *)
(** * More on the handshake and the event loop *)

(** The handshake accepts exactly the sockets whose token verifies to a
    payload naming an existing user, and it attaches that user. *)
Theorem handshake_accepted_iff (env : Env) (socket attached : AuthenticatedSocket) :
  auth_middleware env socket = (attached, Accepted) <->
  exists token key userId user roles,
    socket_token socket = Some token /\ token <> "" /\
    JWT_ACCESS_SECRET env = Some key /\ key <> "" /\
    jwt_verify env token key = Return (DecodedObject (Some userId)) /\
    userId <> "" /\
    findById env userId = Return (Some user) /\
    user_roles user = Some roles /\
    attached = mkSocket (socket_id socket) (socket_token socket) (Some user).
Proof.
  unfold auth_middleware, verifyAccessToken, Js.truthy_str. split.
  - destruct (socket_token socket) as [token|]; [|discriminate].
    destruct (String.eqb_spec token "") as [|Htoken]; simpl; [discriminate|].
    destruct (JWT_ACCESS_SECRET env) as [key|]; [|discriminate].
    destruct (String.eqb_spec key "") as [|Hkey]; simpl; [discriminate|].
    destruct (jwt_verify env token key) as [[s|[userId|]]|error] eqn:Hverify;
      simpl; try discriminate.
    + destruct (negb (negb (String.eqb s ""))); discriminate.
    + destruct (String.eqb_spec userId "") as [|Hid]; simpl; [discriminate|].
      destruct (findById env userId) as [[user|]|error] eqn:Hfind;
        try discriminate.
      destruct (user_roles user) as [roles|] eqn:Hroles; [|discriminate].
      intros H. injection H as <-.
      exists token, key, userId, user, roles. repeat split; auto.
  - intros (token & key & userId & user & roles & Htok & Htoken & Hsecret
            & Hkey & Hverify & Hid & Hfind & Hroles & ->).
    rewrite Htok, Hsecret.
    apply String.eqb_neq in Htoken, Hkey, Hid.
    rewrite Htoken, Hkey. simpl. rewrite Hverify. simpl. rewrite Hid. simpl.
    rewrite Hfind, Hroles. reflexivity.
Qed.

(** A rejected handshake is answered with a reason that starts with
    ["Authentication error: "] and leaves the server as it was, the
    recorded error apart. *)
Theorem rejected_handshake_inert (env : Env) (st : ServerState)
    (socket left : AuthenticatedSocket) (reason : string) :
  auth_middleware env socket = (left, Rejected reason) ->
  let st' := step env st (EvHandshake socket) in
  JsString.startsWith reason "Authentication error: " = true /\
  connect_errors st' = connect_errors st ++ [(socket_id socket, reason)] /\
  activeConnections st' = activeConnections st /\
  intervals st' = intervals st /\ listeners st' = listeners st /\
  wire st' = wire st /\ forced st' = forced st.
Proof.
  intros Hmw st'. split.
  - revert Hmw. unfold auth_middleware, auth_catch.
    repeat match goal with
           | |- context [match ?x with _ => _ end] => destruct x
           end;
      intros H; try discriminate; injection H as _ <-; reflexivity.
  - unfold st'. simpl. unfold on_handshake. rewrite Hmw. simpl.
    repeat split; reflexivity.
Qed.

Lemma rejected_handshake_inert_witness :
  let st' := step Sample.env initial_state (EvHandshake Sample.staleSocket) in
  auth_middleware Sample.env Sample.staleSocket
  = (Sample.staleSocket, Rejected "Authentication error: jwt expired") /\
  connect_errors st' = [("sock-stale-1", "Authentication error: jwt expired")] /\
  activeConnections st' = JsMap.empty.
Proof.
  intros st'. split; [reflexivity|].
  destruct (rejected_handshake_inert Sample.env initial_state Sample.staleSocket
              Sample.staleSocket "Authentication error: jwt expired" eq_refl)
    as (_ & Herr & Hreg & _).
  split; [exact Herr|exact Hreg].
Defined.

(** *** Handles, timers and registered sockets *)

Lemma on_connection_some (socket : AuthenticatedSocket) (st : ServerState)
    (user : IUser) (userId : string) :
  socket_user socket = Some user -> user_id user = Some userId ->
  connection_of socket = Some (userId, socket) /\
  on_connection socket st =
  mkState (register (activeConnections st) userId socket)
          (intervals st ++ [mkTimer (next_handle st) heartbeat_ms socket userId])
          (S (next_handle st))
          (listeners st ++ [mkListener socket userId (next_handle st)])
          (wire st) (connect_errors st) (forced st).
Proof.
  intros Huser Hid. unfold connection_of, on_connection.
  now rewrite Huser, Hid.
Qed.

Lemma on_connection_none (socket : AuthenticatedSocket) (st : ServerState) :
  connection_of socket = None ->
  on_connection socket st =
  mkState (activeConnections st) (intervals st) (next_handle st) (listeners st)
          (wire st) (connect_errors st) (forced st ++ [socket_id socket]).
Proof.
  unfold connection_of, on_connection.
  destruct (socket_user socket) as [user|]; [|reflexivity].
  destruct (user_id user); [discriminate|reflexivity].
Qed.

Lemma connection_of_some (socket s : AuthenticatedSocket) (owner : string) :
  connection_of socket = Some (owner, s) ->
  s = socket /\
  exists user, socket_user socket = Some user /\ user_id user = Some owner.
Proof.
  unfold connection_of.
  destruct (socket_user socket) as [user|]; [|discriminate].
  destruct (user_id user) as [uid|] eqn:Hid; [|discriminate].
  intros H. injection H as <- <-. split; [reflexivity|]. now exists user.
Qed.

Lemma on_connection_invariant (socket : AuthenticatedSocket) (st : ServerState)
    (L : string -> list AuthenticatedSocket) (owner : string) :
  connection_of socket = Some (owner, socket) ->
  loop_invariant st L ->
  loop_invariant (on_connection socket st) (with_connection L owner socket).
Proof.
  intros Hconn (Htrack & Hcov & Hown & (Hft & Hfl) & Hpair & Hdist
                & Hreg & Htimed & Hfiled).
  pose proof (on_connection_tracks socket st L Htrack) as Htrack'.
  pose proof (on_connection_cover socket st L Hcov) as Hcov'.
  pose proof (on_connection_owned socket st Hown) as Hown'.
  rewrite Hconn in Htrack', Hcov'.
  destruct (connection_of_some _ _ _ Hconn) as (_ & user & Huser & Hid).
  destruct (on_connection_some socket st user owner Huser Hid) as (_ & Heq).
  rewrite Heq in *. clear Heq.
  unfold loop_invariant, with_connection.
  split; [exact Htrack'|]. split; [exact Hcov'|]. split; [exact Hown'|].
  split; [|split; [|split; [|split; [|split]]]].
  - (* fresh *)
    split; simpl.
    + intros t Hin. apply in_app_or in Hin. destruct Hin as [Hin|[<-|[]]].
      * specialize (Hft t Hin). lia.
      * simpl. lia.
    + intros l Hin. apply in_app_or in Hin. destruct Hin as [Hin|[<-|[]]].
      * specialize (Hfl l Hin). lia.
      * simpl. lia.
  - (* paired *)
    intros t l Ht Hl Heq. simpl in Ht, Hl.
    apply in_app_or in Ht. apply in_app_or in Hl.
    destruct Ht as [Ht|[<-|[]]]; destruct Hl as [Hl|[<-|[]]]; simpl in *.
    + now apply Hpair.
    + specialize (Hft t Ht). lia.
    + specialize (Hfl l Hl). lia.
    + now split.
  - (* distinct *)
    unfold timers_distinct in *. simpl. rewrite map_app. simpl.
    apply NoDup_app; [assumption|repeat constructor; intros []|].
    intros h Hin [<-|[]]. apply in_map_iff in Hin.
    destruct Hin as (t & Heq & Hin). specialize (Hft t Hin). lia.
  - (* timers registered *)
    intros t Hin. simpl in Hin. apply in_app_or in Hin.
    destruct Hin as [Hin|[<-|[]]]; simpl.
    + specialize (Hreg t Hin).
      destruct (String.eqb owner (timer_userId t)); [|assumption].
      apply in_or_app. now left.
    + rewrite String.eqb_refl. apply in_or_app. right. now left.
  - (* registered timed *)
    intros u s Hin. simpl.
    assert (Hold : In s (L u) ->
                   exists t, In t (intervals st ++
                                   [mkTimer (next_handle st) heartbeat_ms
                                            socket owner]) /\
                             timer_socket t = s /\ timer_userId t = u).
    { intros H. destruct (Htimed u s H) as (t & Ht & Hrest).
      exists t. split; [apply in_or_app; now left|assumption]. }
    destruct (String.eqb_spec owner u) as [<-|Hne]; [|now apply Hold].
    apply in_app_or in Hin. destruct Hin as [Hin|[<-|[]]]; [now apply Hold|].
    exists (mkTimer (next_handle st) heartbeat_ms socket owner).
    split; [apply in_or_app; right; now left|now split].
  - (* filed under owner *)
    intros u s Hin.
    destruct (String.eqb_spec owner u) as [<-|Hne]; [|now apply Hfiled].
    apply in_app_or in Hin. destruct Hin as [Hin|[<-|[]]]; [now apply Hfiled|].
    now exists user.
Qed.

Lemma loop_invariant_frame (st st' : ServerState)
    (L : string -> list AuthenticatedSocket) :
  activeConnections st' = activeConnections st ->
  intervals st' = intervals st ->
  next_handle st' = next_handle st ->
  listeners st' = listeners st ->
  loop_invariant st L -> loop_invariant st' L.
Proof.
  destruct st as [reg ts n ls w ce f], st' as [reg' ts' n' ls' w' ce' f'].
  simpl. intros -> -> -> -> H. exact H.
Qed.

Lemma fold_on_timer_next (ts : list Timer) (st : ServerState) :
  next_handle (fold_left (fun acc t => on_timer t acc) ts st) = next_handle st.
Proof.
  revert st. induction ts as [|t rest IH]; intros st; simpl; [reflexivity|].
  now rewrite IH.
Qed.

Lemma fold_on_disconnect_next (ls : list DisconnectListener) (st : ServerState) :
  next_handle (fold_left (fun acc l => on_disconnect l acc) ls st)
  = next_handle st.
Proof.
  revert st. induction ls as [|l rest IH]; intros st; simpl; [reflexivity|].
  now rewrite IH.
Qed.

(** A timer that no handler of the run clears is still scheduled. *)
Lemma fold_on_disconnect_keeps (ls : list DisconnectListener)
    (st : ServerState) (t : Timer) :
  In t (intervals st) ->
  (forall l, In l ls -> timer_handle t <> listener_pingInterval l) ->
  In t (intervals (fold_left (fun acc l => on_disconnect l acc) ls st)).
Proof.
  revert st. induction ls as [|l rest IH]; intros st Hin Hkeep; simpl;
    [assumption|].
  apply IH; [|intros l' Hl'; apply Hkeep; now right].
  unfold on_disconnect, prune, clearInterval. simpl.
  apply filter_In. split; [assumption|].
  apply negb_true_iff, Nat.eqb_neq. apply Hkeep. now left.
Qed.

(** The timers left by the disconnect of [sid]: those scheduled before
    whose handle no listener of [sid] holds. *)
Lemma disconnect_intervals_iff (env : Env) (sid : string) (st : ServerState)
    (t : Timer) :
  In t (intervals (step env st (EvDisconnect sid))) <->
  In t (intervals st) /\
  forall l, In l (listeners st) -> socket_id (listener_socket l) = sid ->
            timer_handle t <> listener_pingInterval l.
Proof.
  simpl. split.
  - intros Hin. apply fold_on_disconnect_intervals in Hin.
    destruct Hin as (Hin & Hclear). split; [assumption|].
    intros l Hl Hsid. apply Hclear. apply filter_In. split; [assumption|].
    now apply String.eqb_eq.
  - intros (Hin & Hkeep). apply fold_on_disconnect_keeps; [assumption|].
    intros l Hl. apply filter_In in Hl. destruct Hl as (Hl & Hsid).
    apply Hkeep; [assumption|now apply String.eqb_eq].
Qed.

Lemma disconnect_invariant (env : Env) (sid : string) (st : ServerState)
    (L : string -> list AuthenticatedSocket) :
  loop_invariant st L ->
  loop_invariant (step env st (EvDisconnect sid))
                 (live_step env L (EvDisconnect sid)).
Proof.
  intros (Htrack & Hcov & Hown & (Hft & Hfl) & Hpair & Hdist
          & Hreg & Htimed & Hfiled).
  destruct (step_tracks env st L (EvDisconnect sid) Htrack Hcov)
    as (Htrack' & Hcov').
  pose proof (step_owned env st (EvDisconnect sid) Hown) as Hown'.
  assert (Hlis : listeners (step env st (EvDisconnect sid)) = listeners st)
    by apply fold_on_disconnect_listeners.
  assert (Hnext : next_handle (step env st (EvDisconnect sid)) = next_handle st)
    by apply fold_on_disconnect_next.
  split; [exact Htrack'|]. split; [exact Hcov'|]. split; [exact Hown'|].
  split; [|split; [|split; [|split; [|split]]]].
  - split.
    + intros t Hin. rewrite Hnext. apply disconnect_intervals_iff in Hin.
      now apply Hft.
    + intros l Hin. rewrite Hnext. rewrite Hlis in Hin. now apply Hfl.
  - intros t l Ht Hl. apply disconnect_intervals_iff in Ht.
    rewrite Hlis in Hl. now apply Hpair.
  - unfold timers_distinct in *.
    assert (Hsub : forall ls s0,
               NoDup (map timer_handle (intervals s0)) ->
               NoDup (map timer_handle
                        (intervals (fold_left (fun acc l => on_disconnect l acc)
                                              ls s0)))).
    { induction ls as [|l rest IH]; intros s0 H0; simpl; [assumption|].
      apply IH. unfold on_disconnect, prune, clearInterval. simpl.
      clear - H0. induction (intervals s0) as [|t ts IHt]; simpl; [constructor|].
      inversion H0 as [|? ? Hnotin Hrest]; subst.
      destruct (negb (Nat.eqb (timer_handle t) (listener_pingInterval l)));
        simpl; [|now apply IHt].
      constructor; [|now apply IHt].
      intros Hin. apply Hnotin. apply in_map_iff in Hin.
      destruct Hin as (t' & Heq & Hin). apply filter_In in Hin.
      apply in_map_iff. exists t'. tauto. }
    apply Hsub. assumption.
  - (* timers registered *)
    intros t Hin. apply disconnect_intervals_iff in Hin.
    destruct Hin as (Hin & Hkeep). simpl.
    apply filter_In. split; [now apply Hreg|].
    apply negb_true_iff, String.eqb_neq. intros Hsid.
    destruct (Hown t Hin) as (l & Hl & Hid & Hhandle).
    apply (Hkeep l Hl); [congruence|now symmetry].
  - (* registered timed *)
    intros u s Hin. simpl in Hin. apply filter_In in Hin.
    destruct Hin as (Hin & Hsid). apply negb_true_iff, String.eqb_neq in Hsid.
    destruct (Htimed u s Hin) as (t & Ht & Hsock & Huid).
    exists t. split; [|now split].
    apply disconnect_intervals_iff. split; [assumption|].
    intros l Hl Hlsid Heq.
    destruct (Hpair t l Ht Hl Heq) as (Hsame & _).
    apply Hsid. congruence.
  - intros u s Hin. simpl in Hin. apply filter_In in Hin. now apply Hfiled.
Qed.

Lemma step_invariant (env : Env) (st : ServerState)
    (L : string -> list AuthenticatedSocket) (ev : Event) :
  loop_invariant st L ->
  loop_invariant (step env st ev) (live_step env L ev).
Proof.
  assert (Hconn : forall socket,
             loop_invariant st L ->
             loop_invariant (on_connection socket st)
               (match connection_of socket with
                | Some (owner, s) =>
                    fun userId => if String.eqb owner userId
                                  then L userId ++ [s] else L userId
                | None => L
                end)).
  { intros socket Hinv.
    destruct (connection_of socket) as [[owner s]|] eqn:Hc.
    - destruct (connection_of_some _ _ _ Hc) as (-> & _).
      now apply (on_connection_invariant socket st L owner).
    - rewrite (on_connection_none socket st Hc).
      now apply (loop_invariant_frame st). }
  intros Hinv. destruct ev as [socket|socket|handle|sid].
  - unfold step, live_step, established, on_handshake.
    destruct (auth_middleware env socket) as [attached [|reason]].
    + now apply Hconn.
    + now apply (loop_invariant_frame st).
  - now apply Hconn.
  - simpl.
    destruct (fold_on_timer
                (filter (fun t => Nat.eqb (timer_handle t) handle) (intervals st))
                st) as (Hreg & Hlis & Hint).
    apply (loop_invariant_frame st); auto using fold_on_timer_next.
  - now apply disconnect_invariant.
Qed.

Lemma run_invariant (env : Env) (evs : list Event) :
  loop_invariant (run env initial_state evs) (live env evs).
Proof.
  unfold run, live.
  assert (H0 : loop_invariant initial_state (fun _ => [])).
  { unfold loop_invariant. split; [intros u; reflexivity|].
    split; [intros u s []|]. split; [intros t []|].
    split; [split; [intros t []|intros l []]|].
    split; [intros t l []|]. split; [constructor|].
    split; [intros t []|]. split; [intros u s []|intros u s []]. }
  revert H0. generalize initial_state, (fun _ : string => @nil AuthenticatedSocket).
  induction evs as [|ev rest IH]; intros st L Hinv; simpl; [assumption|].
  apply IH. now apply step_invariant.
Qed.

Lemma live_snoc (env : Env) (evs : list Event) (ev : Event) :
  live env (evs ++ [ev]) = live_step env (live env evs) ev.
Proof. unfold live. now rewrite fold_left_app. Qed.

Lemma run_snoc (env : Env) (evs : list Event) (ev : Event) :
  run env initial_state (evs ++ [ev]) = step env (run env initial_state evs) ev.
Proof. unfold run. now rewrite fold_left_app. Qed.

Lemma registry_is_live (env : Env) (evs : list Event) (userId : string) :
  or_empty (JsMap.get (activeConnections (run env initial_state evs)) userId)
  = live env evs userId.
Proof.
  destruct (run_invariant env evs) as (Htrack & _).
  now rewrite (Htrack userId), or_empty_stored.
Qed.

Lemma filter_unique_handle (ts : list Timer) (t : Timer) :
  NoDup (map timer_handle ts) -> In t ts ->
  filter (fun u => Nat.eqb (timer_handle u) (timer_handle t)) ts = [t].
Proof.
  induction ts as [|u rest IH]; simpl; intros Hnd Hin; [contradiction|].
  inversion Hnd as [|? ? Hnotin Hrest]; subst.
  destruct Hin as [->|Hin].
  - rewrite Nat.eqb_refl. f_equal.
    clear IH Hrest Hnd. induction rest as [|v vs IHv]; simpl; [reflexivity|].
    destruct (Nat.eqb_spec (timer_handle v) (timer_handle t)) as [Heq|_].
    + exfalso. apply Hnotin. left. exact Heq.
    + apply IHv. intros H. apply Hnotin. now right.
  - destruct (Nat.eqb_spec (timer_handle u) (timer_handle t)) as [Heq|_].
    + exfalso. apply Hnotin. rewrite Heq. apply in_map_iff. now exists t.
    + now apply IH.
Qed.

(** After any sequence of events, the connections in the registry and
    the scheduled heartbeat timers correspond: every registered
    connection has a 30-second timer that pings it, and every scheduled
    timer pings a connection that is still registered under its user. *)
Theorem heartbeat_iff_registered (env : Env) (evs : list Event) :
  let st := run env initial_state evs in
  (forall userId s,
      In s (or_empty (JsMap.get (activeConnections st) userId)) ->
      exists t, In t (intervals st) /\ timer_socket t = s /\
                timer_userId t = userId /\ timer_delay t = heartbeat_ms) /\
  (forall t,
      In t (intervals st) ->
      In (timer_socket t)
         (or_empty (JsMap.get (activeConnections st) (timer_userId t)))).
Proof.
  intros st.
  destruct (run_invariant env evs)
    as (_ & _ & _ & _ & _ & _ & Hreg & Htimed & _).
  split.
  - intros u s Hin. unfold st in Hin. rewrite registry_is_live in Hin.
    destruct (Htimed u s Hin) as (t & Ht & Hs & Hu).
    exists t. repeat split; try assumption.
    apply (run_periodic env evs initial_state); [intros t0 []|exact Ht].
  - intros t Hin. unfold st. rewrite registry_is_live. now apply Hreg.
Qed.

Lemma heartbeat_iff_registered_witness :
  let st := run Sample.env initial_state Sample.three_connections in
  In Sample.adminSocket2
     (or_empty (JsMap.get (activeConnections st) "64f1c0ffee0000000000b003")) /\
  exists t, In t (intervals st) /\ timer_socket t = Sample.adminSocket2 /\
            timer_userId t = "64f1c0ffee0000000000b003" /\
            timer_delay t = heartbeat_ms.
Proof.
  intros st.
  assert (Hin : In Sample.adminSocket2
                   (or_empty (JsMap.get (activeConnections st)
                                        "64f1c0ffee0000000000b003")))
    by (right; left; reflexivity).
  split; [exact Hin|].
  exact (proj1 (heartbeat_iff_registered Sample.env Sample.three_connections)
           "64f1c0ffee0000000000b003" Sample.adminSocket2 Hin).
Defined.

(** After any sequence of events, every socket in the registry carries
    a principal, and is filed under that principal's id. *)
Theorem registered_sockets_authenticated (env : Env) (evs : list Event)
    (userId : string) (s : AuthenticatedSocket) :
  In s (or_empty (JsMap.get (activeConnections (run env initial_state evs))
                            userId)) ->
  exists user, socket_user s = Some user /\ user_id user = Some userId.
Proof.
  rewrite registry_is_live.
  destruct (run_invariant env evs) as (_ & _ & _ & _ & _ & _ & _ & _ & Hfiled).
  apply Hfiled.
Qed.

Lemma registered_sockets_authenticated_witness :
  In Sample.editorSocket
     (or_empty (JsMap.get
                  (activeConnections
                     (run Sample.env initial_state Sample.three_connections))
                  "64f1c0ffee0000000000b002")) /\
  exists user,
    socket_user Sample.editorSocket = Some user /\
    user_id user = Some "64f1c0ffee0000000000b002".
Proof.
  assert (Hin : In Sample.editorSocket
                   (or_empty (JsMap.get
                                (activeConnections
                                   (run Sample.env initial_state
                                        Sample.three_connections))
                                "64f1c0ffee0000000000b002")))
    by (left; reflexivity).
  split; [exact Hin|].
  exact (registered_sockets_authenticated Sample.env Sample.three_connections
           "64f1c0ffee0000000000b002" Sample.editorSocket Hin).
Defined.

(** The disconnect of one socket removes that socket and its timer and
    nothing else: every other registered connection stays registered
    and keeps its heartbeat timer. *)
Theorem disconnect_spares_others (env : Env) (evs : list Event) (sid : string) :
  let st := run env initial_state evs in
  let st' := step env st (EvDisconnect sid) in
  (forall userId s,
      In s (or_empty (JsMap.get (activeConnections st') userId)) <->
      In s (or_empty (JsMap.get (activeConnections st) userId)) /\
      socket_id s <> sid) /\
  (forall t,
      In t (intervals st') <->
      In t (intervals st) /\ socket_id (timer_socket t) <> sid).
Proof.
  intros st st'. split.
  - intros u s. unfold st', st.
    rewrite <- run_snoc, !registry_is_live, live_snoc. simpl.
    rewrite filter_In, negb_true_iff, String.eqb_neq. reflexivity.
  - intros t. unfold st'. rewrite disconnect_intervals_iff.
    destruct (run_invariant env evs)
      as (_ & _ & Hown & _ & Hpair & _).
    fold st in Hown, Hpair.
    split; intros (Hin & H); (split; [assumption|]).
    + intros Hsid. destruct (Hown t Hin) as (l & Hl & Hid & Hhandle).
      apply (H l Hl); [congruence|now symmetry].
    + intros l Hl Hlsid Heq. destruct (Hpair t l Hin Hl Heq) as (Hsame & _).
      apply H. congruence.
Qed.

(** When the runtime fires the timer of a connection that is still
    open, exactly one [ping] goes out, to that connection, and nothing
    else changes. *)
Theorem timer_fires_one_ping (env : Env) (evs : list Event) (t : Timer) :
  let st := run env initial_state evs in
  In t (intervals st) ->
  let st' := step env st (EvTimer (timer_handle t)) in
  wire st' = wire st ++ [ping_to (timer_socket t)] /\
  activeConnections st' = activeConnections st /\
  intervals st' = intervals st /\ listeners st' = listeners st.
Proof.
  intros st Hin st'. unfold st'. simpl.
  destruct (run_invariant env evs) as (_ & _ & _ & _ & _ & Hdist & _).
  fold st in Hdist.
  rewrite (filter_unique_handle (intervals st) t Hdist Hin). simpl.
  repeat split.
Qed.

Lemma timer_fires_one_ping_witness :
  let st := run Sample.env initial_state Sample.three_connections in
  let t := mkTimer 1 heartbeat_ms Sample.adminSocket1
                   "64f1c0ffee0000000000b003" in
  In t (intervals st) /\
  wire (step Sample.env st (EvTimer 1)) = wire st ++ [ping_to Sample.adminSocket1].
Proof.
  intros st t.
  assert (Hin : In t (intervals st)) by (right; left; reflexivity).
  split; [exact Hin|].
  exact (proj1 (timer_fires_one_ping Sample.env Sample.three_connections t Hin)).
Defined.

(* ================================================================= *)
(** * The HTTP authentication middleware *)

Lemma split_cons (sep : ascii) (s : string) :
  exists piece pieces, JsString.split sep s = piece :: pieces.
Proof.
  destruct s as [|c rest]; simpl; [now exists EmptyString, []|].
  destruct (Ascii.eqb c sep); [now eexists _, _|].
  destruct (JsString.split sep rest); now eexists _, _.
Qed.

Lemma split_prefix (sep : ascii) (a b : string) :
  Js.occurs sep a = false ->
  JsString.split sep (a ++ String sep b) = a :: JsString.split sep b.
Proof.
  induction a as [|c rest IH]; simpl; intros Hocc.
  - now rewrite Ascii.eqb_refl.
  - apply orb_false_iff in Hocc. destruct Hocc as (Hc & Hrest).
    rewrite Hc, (IH Hrest). reflexivity.
Qed.

Lemma split_no_sep (sep : ascii) (a : string) :
  Js.occurs sep a = false -> JsString.split sep a = [a].
Proof.
  induction a as [|c rest IH]; simpl; intros Hocc; [reflexivity|].
  apply orb_false_iff in Hocc. destruct Hocc as (Hc & Hrest).
  now rewrite Hc, (IH Hrest).
Qed.

(** The head of [split] is [split_head]. *)
Lemma split_head_is_hd (sep : ascii) (s : string) :
  hd_error (JsString.split sep s) = Some (Js.split_head sep s).
Proof.
  induction s as [|c rest IH]; simpl; [reflexivity|].
  destruct (Ascii.eqb c sep); [reflexivity|].
  destruct (JsString.split sep rest) as [|piece pieces]; simpl in *;
    [discriminate|].
  now injection IH as ->.
Qed.

(** A header built as [Bearer <token>] from a non-empty token without
    blanks yields that token, whatever the cookie; a header that starts
    with [Bearer] but carries nothing after one blank yields no token,
    and the cookie is not consulted. *)
Theorem extract_token_bearer (token : string) (cookie : Js.prop string) :
  Js.occurs " " token = false ->
  extract_token (mkHttpRequest (Some ("Bearer " ++ token)%string) cookie)
  = Some token /\
  extract_token (mkHttpRequest (Some "Bearer") cookie) = None /\
  extract_token (mkHttpRequest (Some ("Bearer  " ++ token)%string) cookie)
  = Some EmptyString.
Proof.
  intros Hocc. unfold extract_token.
  cbn [authorization cookie_token Js.to_template]. split; [|split].
  - replace (Js.truthy_str (Some ("Bearer " ++ token)%string)
             && JsString.startsWith ("Bearer " ++ token) "Bearer")
      with true by reflexivity.
    change ("Bearer " ++ token)%string
      with ("Bearer" ++ String " " token)%string.
    rewrite (split_prefix " " "Bearer" token eq_refl).
    now rewrite (split_no_sep " " token Hocc).
  - reflexivity.
  - replace (Js.truthy_str (Some ("Bearer  " ++ token)%string)
             && JsString.startsWith ("Bearer  " ++ token) "Bearer")
      with true by reflexivity.
    change ("Bearer  " ++ token)%string
      with ("Bearer" ++ String " " (String " " token))%string.
    rewrite (split_prefix " " "Bearer" (String " " token) eq_refl).
    reflexivity.
Qed.

Lemma extract_token_bearer_witness :
  Js.occurs " " "abc.def.ghi" = false /\
  extract_token (mkHttpRequest (Some "Bearer abc.def.ghi") (Some "cookie-token"))
  = Some "abc.def.ghi".
Proof.
  split; [reflexivity|].
  exact (proj1 (extract_token_bearer "abc.def.ghi" (Some "cookie-token")
                  eq_refl)).
Defined.

Section ProtectFacts.

Variable env : Env.
Variable findAccount : Js.prop string -> Outcome (option Account).

Lemma protect_attaches (isRequired : bool) (req : HttpRequest) (user : IUser) :
  req_user (fst (protect env findAccount isRequired req)) = Some user <->
  authenticates env findAccount req user.
Proof.
  unfold protect, authenticates. split.
  - destruct (extract_token req) as [token|];
      [|destruct isRequired; discriminate].
    unfold Js.truthy_str.
    destruct (String.eqb_spec token "") as [|Htoken]; simpl;
      [destruct isRequired; discriminate|].
    destruct (verifyAccessToken env token) as [decoded|error] eqn:Hverify;
      [|destruct isRequired; discriminate].
    destruct (findAccount (decoded_userId decoded)) as [[account|]|error]
      eqn:Hfind; try (destruct isRequired; discriminate).
    destruct (isActive account) eqn:Hactive; simpl;
      [|destruct isRequired; discriminate].
    intros H. injection H as <-.
    exists token, decoded, account. repeat split; auto.
  - intros (token & decoded & account & Htok & Htoken & Hverify & Hfind
            & Hactive & <-).
    rewrite Htok. unfold Js.truthy_str.
    apply String.eqb_neq in Htoken. rewrite Htoken. simpl.
    now rewrite Hverify, Hfind, Hactive.
Qed.

Lemma protect_cases (isRequired : bool) (req : HttpRequest) :
  (exists user,
      protect env findAccount isRequired req = (mkRequest (Some user), Next)) \/
  (exists text,
      protect env findAccount isRequired req =
      (mkRequest None,
       if isRequired then NextError (mkApiError text 401) else Next)).
Proof.
  unfold protect.
  destruct (extract_token req) as [token|];
    [|right; eexists; destruct isRequired; reflexivity].
  destruct (negb (Js.truthy_str (Some token)));
    [right; eexists; destruct isRequired; reflexivity|].
  destruct (verifyAccessToken env token) as [decoded|error];
    [|right; eexists; destruct isRequired; reflexivity].
  destruct (findAccount (decoded_userId decoded)) as [[account|]|error];
    try (right; eexists; destruct isRequired; reflexivity).
  destruct (negb (isActive account));
    [right; eexists; destruct isRequired; reflexivity|].
  left. now eexists.
Qed.

(** [protect(true)] lets a request through exactly when its token
    verifies and names an existing, active user, whom it attaches;
    every other request is answered 401 and carries no user. *)
Theorem protect_required (req : HttpRequest) :
  (forall user,
      protect env findAccount true req = (mkRequest (Some user), Next) <->
      authenticates env findAccount req user) /\
  ((exists user, authenticates env findAccount req user) \/
   (req_user (fst (protect env findAccount true req)) = None /\
    decision (snd (protect env findAccount true req)) = Unauthenticated)).
Proof.
  split.
  - intros user. rewrite <- (protect_attaches true req user). split.
    + intros ->. reflexivity.
    + intros Huser.
      destruct (protect_cases true req) as [(u & Hp)|(text & Hp)];
        rewrite Hp in *; simpl in Huser; [|discriminate].
      now injection Huser as ->.
  - destruct (protect_cases true req) as [(u & Hp)|(text & Hp)]; rewrite Hp.
    + left. exists u. apply (protect_attaches true). now rewrite Hp.
    + right. split; reflexivity.
Qed.

(** [protect(false)] never rejects, and attaches the same user as
    [protect(true)] would. *)
Theorem protect_optional (req : HttpRequest) :
  snd (protect env findAccount false req) = Next /\
  req_user (fst (protect env findAccount false req))
  = req_user (fst (protect env findAccount true req)).
Proof.
  split.
  - destruct (protect_cases false req) as [(u & Hp)|(text & Hp)];
      now rewrite Hp.
  - destruct (req_user (fst (protect env findAccount true req))) as [user|]
      eqn:Htrue.
    + apply protect_attaches. now apply (protect_attaches true).
    + destruct (req_user (fst (protect env findAccount false req)))
        as [user|] eqn:Hfalse; [|reflexivity].
      apply protect_attaches in Hfalse.
      apply (protect_attaches true) in Hfalse. congruence.
Qed.

(** A route behind [protect(true)] and [requirePermission]: the
    controller runs exactly for an authenticated user whom
    [requirePermission] allows; an unauthenticated request gets 401,
    an authenticated one without the permission 403. *)
Theorem guarded_route_decision (permissions : list string)
    (req : HttpRequest) :
  (guarded_route env findAccount permissions req = Next <->
   exists user,
     authenticates env findAccount req user /\
     requirePermission permissions (mkRequest (Some user)) = Next) /\
  (decision (guarded_route env findAccount permissions req) = Unauthenticated
   <-> forall user, ~ authenticates env findAccount req user) /\
  (decision (guarded_route env findAccount permissions req) = Forbidden
   <-> exists user,
     authenticates env findAccount req user /\
     requirePermission permissions (mkRequest (Some user)) <> Next).
Proof.
  unfold guarded_route.
  destruct (protect_cases true req) as [(u & Hp)|(text & Hp)]; rewrite Hp.
  - assert (Hu : authenticates env findAccount req u)
      by (apply (protect_attaches true); now rewrite Hp).
    assert (Huniq : forall user, authenticates env findAccount req user ->
                                 user = u).
    { intros user Hauth. apply (protect_attaches true) in Hauth.
      rewrite Hp in Hauth. simpl in Hauth. congruence. }
    destruct (requirePermission_outcomes permissions u) as [Hr|Hr];
      rewrite Hr; simpl.
    + split; [|split].
      * split; [intros _; now exists u|reflexivity].
      * split; [discriminate|]. intros H. exfalso. now apply (H u).
      * split; [discriminate|]. intros (user & Hauth & Hne).
        rewrite (Huniq user Hauth) in Hne. congruence.
    + split; [|split].
      * split; [discriminate|]. intros (user & Hauth & Hnext).
        rewrite (Huniq user Hauth) in Hnext. congruence.
      * split; [discriminate|]. intros H. exfalso. now apply (H u).
      * split; [|reflexivity]. intros _. exists u. split; [assumption|].
        rewrite Hr. discriminate.
  - assert (Hnone : forall user, ~ authenticates env findAccount req user).
    { intros user Hauth. apply (protect_attaches true) in Hauth.
      rewrite Hp in Hauth. discriminate. }
    simpl. split; [|split].
    + split; [discriminate|]. intros (user & Hauth & _).
      exfalso. now apply (Hnone user).
    + split; [intros _; exact Hnone|reflexivity].
    + split; [discriminate|]. intros (user & Hauth & _).
      exfalso. now apply (Hnone user).
Qed.

End ProtectFacts.

(** A few requests against the sample accounts: the editor may create
    blogs but not delete them; a deactivated account and a request
    without a token are turned away with 401. *)
Example guarded_route_samples :
  guarded_route Sample.env SampleHttp.accounts ["blogs:create"]
    (mkHttpRequest (Some "Bearer token-editor") None) = Next /\
  decision (guarded_route Sample.env SampleHttp.accounts ["blogs:delete"]
              (mkHttpRequest (Some "Bearer token-editor") None)) = Forbidden /\
  guarded_route Sample.env SampleHttp.accounts ["blogs:create"]
    (mkHttpRequest None (Some "token-admin"))
  = NextError (mkApiError "User account is deactivated" 401) /\
  guarded_route Sample.env SampleHttp.accounts ["blogs:create"]
    (mkHttpRequest (Some "Bearer") (Some "token-editor"))
  = NextError (mkApiError "Not authorized to access this route" 401).
Proof. repeat split. Qed.

(* ================================================================= *)
(** * The query helpers *)

Lemma startsWith_dash (s : string) :
  JsString.startsWith s "-" = true <-> exists rest, s = String "-" rest.
Proof.
  destruct s as [|c rest].
  - split; [discriminate|]. intros (r & H). discriminate.
  - change (JsString.startsWith (String c rest) "-")
      with (Ascii.eqb "-" c && true).
    rewrite andb_true_r. rewrite Ascii.eqb_eq. split.
    + intros <-. now exists rest.
    + intros (r & H). now injection H as <- _.
Qed.

(** [getSortStage] loses nothing: the sort string can be read back from
    the stage.  The direction is descending exactly for a string that
    starts with a dash, and only that one dash is removed. *)
Theorem getSortStage_roundtrip (sort : string) :
  sort_string (getSortStage sort) = sort /\
  (snd (getSortStage sort) = Descending <->
   JsString.startsWith sort "-" = true) /\
  (forall field, getSortStage (String "-" field) = (field, Descending)) /\
  (JsString.startsWith sort "-" = false ->
   getSortStage sort = (sort, Ascending)).
Proof.
  unfold getSortStage, sort_string.
  split; [|split; [|split]].
  - destruct (JsString.startsWith sort "-") eqn:Hdash; simpl; [|reflexivity].
    apply startsWith_dash in Hdash. destruct Hdash as (rest & ->). reflexivity.
  - destruct (JsString.startsWith sort "-"); simpl; split; congruence.
  - intros field. reflexivity.
  - intros ->. reflexivity.
Qed.

Lemma getSortStage_roundtrip_witness :
  JsString.startsWith "createdAt" "-" = false /\
  getSortStage "createdAt" = ("createdAt", Ascending) /\
  getSortStage "-createdAt" = ("createdAt", Descending).
Proof.
  split; [reflexivity|]. split.
  - exact (proj2 (proj2 (proj2 (getSortStage_roundtrip "createdAt"))) eq_refl).
  - exact (proj1 (proj2 (proj2 (getSortStage_roundtrip "createdAt")))
             "createdAt").
Defined.

(** *** Trimming *)

Lemma trimStart_step (s : string) :
  JsString.trimStart s
  = match JsString.after_space s with
    | Some rest => JsString.trimStart rest
    | None => s
    end.
Proof.
  destruct s as [|a rest]; [reflexivity|].
  cbn [JsString.trimStart JsString.after_space].
  destruct (JsString.is_space a); [reflexivity|].
  destruct rest as [|b rest]; [reflexivity|].
  destruct (JsString.is_space2 a b); [reflexivity|].
  destruct rest as [|c rest]; [reflexivity|].
  destruct (JsString.is_space3 a b c); reflexivity.
Qed.

Lemma blank_step (s : string) :
  JsString.blank s
  = match s with
    | EmptyString => true
    | String _ _ =>
        match JsString.after_space s with
        | Some rest => JsString.blank rest
        | None => false
        end
    end.
Proof.
  destruct s as [|a rest]; [reflexivity|].
  cbn [JsString.blank JsString.after_space].
  destruct (JsString.is_space a); [reflexivity|].
  destruct rest as [|b rest]; [reflexivity|].
  destruct (JsString.is_space2 a b); [reflexivity|].
  destruct rest as [|c rest]; [reflexivity|].
  destruct (JsString.is_space3 a b c); reflexivity.
Qed.

Lemma after_space_length (s rest : string) :
  JsString.after_space s = Some rest -> String.length rest < String.length s.
Proof.
  destruct s as [|a tail]; [discriminate|]. cbn [JsString.after_space].
  destruct (JsString.is_space a); [intros [= <-]; simpl; lia|].
  destruct tail as [|b tail]; [discriminate|].
  destruct (JsString.is_space2 a b); [intros [= <-]; simpl; lia|].
  destruct tail as [|c tail]; [discriminate|].
  destruct (JsString.is_space3 a b c); [intros [= <-]; simpl; lia|discriminate].
Qed.

Lemma after_space_app (s rest more : string) :
  JsString.after_space s = Some rest ->
  JsString.after_space (s ++ more) = Some (rest ++ more)%string.
Proof.
  destruct s as [|a tail]; [discriminate|].
  cbn [JsString.after_space append].
  destruct (JsString.is_space a); [intros [= <-]; reflexivity|].
  destruct tail as [|b tail]; [discriminate|]. cbn [append].
  destruct (JsString.is_space2 a b); [intros [= <-]; reflexivity|].
  destruct tail as [|c tail]; [discriminate|]. cbn [append].
  destruct (JsString.is_space3 a b c); [intros [= <-]; reflexivity|discriminate].
Qed.

(** Induction along the white space a string starts with. *)
Lemma leading_space_ind (P : string -> Prop) :
  (forall s, JsString.after_space s = None -> P s) ->
  (forall s rest, JsString.after_space s = Some rest -> P rest -> P s) ->
  forall s, P s.
Proof.
  intros Hstop Hstep s.
  remember (String.length s) as n eqn:Hn. revert s Hn.
  induction n as [n IH] using lt_wf_ind. intros s ->.
  destruct (JsString.after_space s) as [rest|] eqn:Hs; [|now apply Hstop].
  apply (Hstep s rest Hs).
  exact (IH _ (after_space_length s rest Hs) rest eq_refl).
Qed.

(** What [trimStart] returns starts with no white space. *)
Lemma trimStart_fixed (s : string) :
  JsString.after_space (JsString.trimStart s) = None.
Proof.
  induction s as [s Hs|s rest Hs IH] using leading_space_ind;
    rewrite trimStart_step, Hs; assumption.
Qed.

Lemma trimStart_blank_iff (s : string) :
  JsString.trimStart s = EmptyString <-> JsString.blank s = true.
Proof.
  induction s as [s Hs|s rest Hs IH] using leading_space_ind;
    rewrite trimStart_step, blank_step, Hs.
  - destruct s; [tauto|]. split; discriminate.
  - destruct s; [discriminate|]. exact IH.
Qed.

Lemma blank_app (s more : string) :
  JsString.blank s = true ->
  JsString.blank (s ++ more) = JsString.blank more.
Proof.
  induction s as [s Hs|s rest Hs IH] using leading_space_ind.
  - rewrite (blank_step s), Hs. destruct s; [reflexivity|discriminate].
  - rewrite (blank_step s), Hs. destruct s as [|a tail]; [discriminate|].
    intros Hrest. rewrite (blank_step (String a tail ++ more)).
    cbn [append]. change (String a (tail ++ more)) with (String a tail ++ more)%string.
    rewrite (after_space_app _ _ more Hs). now apply IH.
Qed.

Lemma trimEnd_blank_iff (s : string) :
  JsString.trimEnd s = EmptyString <-> JsString.blank s = true.
Proof.
  destruct s as [|a rest]; [now split|].
  cbn [JsString.trimEnd]. destruct (JsString.blank (String a rest)).
  - now split.
  - split; discriminate.
Qed.

(** [trimEnd] cuts a string of white space off the end. *)
Lemma trimEnd_split (s : string) :
  exists tail,
    s = (JsString.trimEnd s ++ tail)%string /\ JsString.blank tail = true.
Proof.
  induction s as [|a rest IH]; [now exists EmptyString|].
  cbn [JsString.trimEnd]. destruct (JsString.blank (String a rest)) eqn:Hb.
  - now exists (String a rest).
  - destruct IH as (tail & Hrest & Htail). exists tail.
    split; [|exact Htail]. cbn [append]. now rewrite <- Hrest.
Qed.

Lemma trimEnd_idem (s : string) :
  JsString.trimEnd (JsString.trimEnd s) = JsString.trimEnd s.
Proof.
  induction s as [|a rest IH]; [reflexivity|].
  cbn [JsString.trimEnd]. destruct (JsString.blank (String a rest)) eqn:Hb;
    [reflexivity|].
  cbn [JsString.trimEnd].
  destruct (JsString.blank (String a (JsString.trimEnd rest))) eqn:Hcut.
  - destruct (trimEnd_split rest) as (tail & Hrest & Htail).
    pose proof (blank_app _ tail Hcut) as Happ.
    cbn [append] in Happ. rewrite <- Hrest in Happ. congruence.
  - now rewrite IH.
Qed.

(** [trim] yields the empty string exactly for a string of white space. *)
Lemma trim_blank_iff (s : string) :
  JsString.trim s = EmptyString <-> JsString.blank s = true.
Proof.
  unfold JsString.trim. rewrite trimEnd_blank_iff. split.
  - intros Hb. apply trimStart_blank_iff.
    pose proof (trimStart_fixed s) as Hfixed.
    rewrite blank_step, Hfixed in Hb.
    destruct (JsString.trimStart s); [reflexivity|discriminate].
  - intros Hb. apply trimStart_blank_iff in Hb. now rewrite Hb.
Qed.

Lemma trim_idem (s : string) :
  JsString.trim (JsString.trim s) = JsString.trim s.
Proof.
  unfold JsString.trim.
  assert (Hstart : JsString.trimStart (JsString.trimEnd (JsString.trimStart s))
                   = JsString.trimEnd (JsString.trimStart s)).
  { rewrite trimStart_step.
    destruct (JsString.after_space (JsString.trimEnd (JsString.trimStart s)))
      as [rest|] eqn:Hcut; [|reflexivity].
    destruct (trimEnd_split (JsString.trimStart s)) as (tail & Hsplit & _).
    pose proof (trimStart_fixed s) as Hfixed.
    rewrite Hsplit, (after_space_app _ _ tail Hcut) in Hfixed. discriminate. }
  rewrite Hstart. apply trimEnd_idem.
Qed.

(** *** [parseIds] and [createIdQuery] *)

Lemma split_join (sep : ascii) (pieces : list string) :
  pieces <> [] ->
  Forall (fun piece => Js.occurs sep piece = false) pieces ->
  JsString.split sep (JsString.join (String sep EmptyString) pieces) = pieces.
Proof.
  induction pieces as [|piece rest IH]; intros Hne Hclean; [contradiction|].
  inversion Hclean as [|? ? Hpiece Hrest]; subst.
  destruct rest as [|next rest'].
  - simpl. now apply split_no_sep.
  - change (JsString.join (String sep EmptyString) (piece :: next :: rest'))
      with (piece ++ String sep
              (JsString.join (String sep EmptyString) (next :: rest')))%string.
    rewrite (split_prefix sep _ _ Hpiece). f_equal.
    apply IH; [discriminate|assumption].
Qed.

Lemma filter_map_id {A : Type} (f : A -> A) (keep : A -> bool) (xs : list A) :
  Forall (fun x => f x = x /\ keep x = true) xs ->
  filter keep (map f xs) = xs.
Proof.
  induction 1 as [|x rest (Hf & Hk) _ IH]; simpl; [reflexivity|].
  now rewrite Hf, Hk, IH.
Qed.

Section MongoUtilsFacts.

Variable isValid : string -> bool.
Variable toObjectId : string -> ObjectId.

Lemma parseIds_array (l : list string) :
  parseIds isValid toObjectId (IdsArray l) =
  match filter isValid l with
  | [] => None
  | valid => Some (map toObjectId valid)
  end.
Proof.
  unfold parseIds. destruct l as [|id rest]; [reflexivity|].
  cbn [List.length Nat.eqb].
  destruct (filter isValid (id :: rest)); reflexivity.
Qed.

(** [parseIds] never returns an empty list.  On an array it keeps the
    valid ids in their order, silently drops the others, and returns
    [null] exactly when no id is valid. *)
Theorem parseIds_valid_only (ids : IdsInput) (l : list string) :
  parseIds isValid toObjectId ids <> Some [] /\
  (parseIds isValid toObjectId (IdsArray l) = None <->
   forall id, In id l -> isValid id = false) /\
  (forall found,
      parseIds isValid toObjectId (IdsArray l) = Some found <->
      found = map toObjectId (filter isValid l) /\ found <> []).
Proof.
  split; [|split].
  - unfold parseIds.
    repeat match goal with
           | |- context [if ?b then _ else _] => destruct b eqn:?
           end; try discriminate.
    intros H. injection H as H. rewrite H in *. discriminate.
  - rewrite parseIds_array. split.
    + destruct (filter isValid l) as [|v vs] eqn:Hf; [|discriminate].
      intros _ id Hin. destruct (isValid id) eqn:Hv; [|reflexivity].
      assert (In id (filter isValid l)) by (apply filter_In; now split).
      rewrite Hf in *. contradiction.
    + intros Hnone.
      destruct (filter isValid l) as [|v vs] eqn:Hf; [reflexivity|].
      assert (Hv : In v (filter isValid l)) by (rewrite Hf; now left).
      apply filter_In in Hv. destruct Hv as (Hin & Hv).
      rewrite (Hnone v Hin) in Hv. discriminate.
  - intros found. rewrite parseIds_array.
    destruct (filter isValid l) as [|v vs]; simpl.
    + split; [discriminate|]. intros (-> & H). now contradiction H.
    + split.
      * intros H. injection H as <-. split; [reflexivity|discriminate].
      * intros (-> & _). reflexivity.
Qed.

(** A comma-separated string stands for the array of its pieces: for
    ids that are non-empty, trimmed and free of commas, [parseIds]
    gives the same result on both forms. *)
Theorem parseIds_string_as_array (l : list string) :
  Forall (fun id => id <> EmptyString /\ JsString.trim id = id /\
                    Js.occurs "," id = false) l ->
  parseIds isValid toObjectId (IdsString (JsString.join "," l))
  = parseIds isValid toObjectId (IdsArray l).
Proof.
  intros Hclean. destruct l as [|id rest]; [reflexivity|].
  assert (Hne : JsString.join "," (id :: rest) <> EmptyString).
  { inversion Hclean as [|? ? (Hid & _) _]; subst.
    destruct id as [|c id']; [contradiction|].
    destruct rest; simpl; discriminate. }
  unfold parseIds at 1. apply String.eqb_neq in Hne. rewrite Hne.
  rewrite split_join; [|discriminate|].
  - rewrite filter_map_id.
    + reflexivity.
    + eapply Forall_impl; [|exact Hclean].
      intros x (Hx & Htrim & _). split; [assumption|].
      apply negb_true_iff. now apply String.eqb_neq.
  - eapply Forall_impl; [|exact Hclean]. now intros x (_ & _ & H).
Qed.

Lemma createIdQuery_normal (fieldName : string) (ids : IdsInput)
    (array exact : Js.prop bool) :
  createIdQuery isValid toObjectId fieldName ids
    (mkIdQueryOptions array exact) =
  match parseIds isValid toObjectId ids with
  | None => None
  | Some [id] =>
      if match exact with Some b => b | None => false end
      then Some (FieldEquals fieldName id)
      else Some (FieldIn fieldName [id])
  | Some found => Some (FieldIn fieldName found)
  end.
Proof.
  unfold createIdQuery. cbn [arrayField exactMatch].
  destruct (parseIds isValid toObjectId ids) as [[|id [|id' more]]|];
    [| | |reflexivity].
  - destruct array as [[|]|]; reflexivity.
  - destruct exact as [[|]|]; destruct array as [[|]|]; reflexivity.
  - destruct array as [[|]|]; reflexivity.
Qed.

(** [createIdQuery] answers [null] exactly when [parseIds] does, never
    builds an empty [$in] list, builds an equality only for one valid
    id under [exactMatch], and does not depend on [arrayField]. *)
Theorem createIdQuery_shape (fieldName : string) (ids : IdsInput)
    (array1 array2 exact : Js.prop bool) :
  let query := createIdQuery isValid toObjectId fieldName ids
                 (mkIdQueryOptions array1 exact) in
  (query = None <-> parseIds isValid toObjectId ids = None) /\
  query = createIdQuery isValid toObjectId fieldName ids
            (mkIdQueryOptions array2 exact) /\
  (forall found, query = Some (FieldIn fieldName found) ->
                 parseIds isValid toObjectId ids = Some found /\ found <> []) /\
  (forall id, query = Some (FieldEquals fieldName id) <->
              parseIds isValid toObjectId ids = Some [id] /\
              exact = Some true).
Proof.
  intros query. unfold query. rewrite !createIdQuery_normal.
  pose proof (proj1 (parseIds_valid_only ids [])) as Hnonempty.
  destruct (parseIds isValid toObjectId ids) as [[|o [|o' os]]|].
  - now contradiction Hnonempty.
  - destruct exact as [[|]|].
    + split; [split; discriminate|]. split; [reflexivity|].
      split; [discriminate|]. intros id. split.
      * intros H. injection H as <-. now split.
      * intros (H & _). now injection H as <-.
    + split; [split; discriminate|]. split; [reflexivity|]. split.
      * intros found H. injection H as <-. split; [reflexivity|discriminate].
      * intros id. split; [discriminate|]. intros (_ & H). discriminate.
    + split; [split; discriminate|]. split; [reflexivity|]. split.
      * intros found H. injection H as <-. split; [reflexivity|discriminate].
      * intros id. split; [discriminate|]. intros (_ & H). discriminate.
  - split; [split; discriminate|]. split; [reflexivity|]. split.
    + intros found H. injection H as <-. split; [reflexivity|discriminate].
    + intros id. split; [discriminate|]. intros (H & _). discriminate.
  - split; [split; reflexivity|]. split; [reflexivity|].
    split; [discriminate|]. intros id. split; [discriminate|].
    intros (H & _). discriminate.
Qed.

End MongoUtilsFacts.

(** [createSearchQuery] answers [null] exactly for a missing or blank
    term.  Otherwise it gives one case-insensitive clause per field, in
    the order of the fields, all with the trimmed term, which is not
    empty and has no white space around it. *)
Theorem createSearchQuery_clauses (fields : list string)
    (searchTerm : Js.prop string) :
  (createSearchQuery fields searchTerm = None <->
   searchTerm = None \/ exists term, searchTerm = Some term /\ JsString.blank term = true)
  /\
  (forall clauses,
      createSearchQuery fields searchTerm = Some clauses ->
      exists term,
        searchTerm = Some term /\
        map clause_field clauses = fields /\
        Forall (fun c => clause_regex c = JsString.trim term /\
                         clause_options c = "i") clauses /\
        JsString.trim term <> EmptyString /\
        JsString.trim (JsString.trim term) = JsString.trim term).
Proof.
  unfold createSearchQuery. destruct searchTerm as [term|].
  - unfold Js.truthy_str. rewrite !negb_involutive.
    destruct (String.eqb_spec (JsString.trim term) "") as [Hblank|Hsome].
    + rewrite orb_true_r. split; [|discriminate].
      split; [|reflexivity]. intros _. right. exists term.
      split; [reflexivity|now apply trim_blank_iff].
    + assert (Hterm : String.eqb term "" = false).
      { apply String.eqb_neq. intros ->. now apply Hsome. }
      rewrite Hterm. simpl. split.
      * split; [discriminate|]. intros [H|(t & H & Hb)]; [discriminate|].
        injection H as <-. apply trim_blank_iff in Hb. contradiction.
      * intros clauses H. injection H as <-. exists term.
        split; [reflexivity|]. split.
        -- rewrite map_map. simpl. apply map_id.
        -- split; [|split; [assumption|apply trim_idem]].
           apply Forall_forall. intros c Hc. apply in_map_iff in Hc.
           destruct Hc as (f & <- & _). now split.
  - split; [|discriminate]. split; [now left|reflexivity].
Qed.

Lemma createSearchQuery_clauses_witness :
  createSearchQuery ["name"; "email"] (Some "  ada  ")
  = Some [mkRegexClause "name" "ada" "i"; mkRegexClause "email" "ada" "i"] /\
  exists term,
    Some "  ada  " = Some term /\
    map clause_field
        [mkRegexClause "name" "ada" "i"; mkRegexClause "email" "ada" "i"]
    = ["name"; "email"] /\
    Forall (fun c => clause_regex c = JsString.trim term /\
                     clause_options c = "i")
           [mkRegexClause "name" "ada" "i"; mkRegexClause "email" "ada" "i"] /\
    JsString.trim term <> EmptyString /\
    JsString.trim (JsString.trim term) = JsString.trim term.
Proof.
  split; [reflexivity|].
  exact (proj2 (createSearchQuery_clauses ["name"; "email"] (Some "  ada  "))
           _ eq_refl).
Defined.

(** White space beyond one byte is trimmed, a letter whose last byte is
    160 is not, and one such letter counts as one character. *)
Example trim_samples :
  JsString.trim (SampleText.em_space ++ " ada" ++ SampleText.no_break_space)
  = "ada" /\
  JsString.blank (SampleText.em_space ++ SampleText.no_break_space) = true /\
  createSearchQuery ["name"] (Some SampleText.em_space) = None /\
  JsString.trim ("voil" ++ SampleText.a_grave)
  = ("voil" ++ SampleText.a_grave)%string /\
  JsString.length ("voil" ++ SampleText.a_grave) = 5 /\
  parseIds SampleIds.isValid SampleIds.toObjectId
    (IdsString (SampleText.em_space ++ "64f1c0ffee0000000000b002"))
  = Some ["64f1c0ffee0000000000b002"] /\
  parseIds SampleIds.isValid SampleIds.toObjectId
    (IdsArray [(SampleText.em_space ++ "64f1c0ffee0000000000b002")%string])
  = None.
Proof. repeat split. Qed.

Lemma parseIds_string_as_array_witness :
  Forall (fun id => id <> EmptyString /\ JsString.trim id = id /\
                    Js.occurs "," id = false)
         ["64f1c0ffee0000000000b002"; "draft"] /\
  parseIds SampleIds.isValid SampleIds.toObjectId
    (IdsString "64f1c0ffee0000000000b002,draft")
  = Some ["64f1c0ffee0000000000b002"].
Proof.
  assert (Hclean : Forall (fun id => id <> EmptyString /\
                                     JsString.trim id = id /\
                                     Js.occurs "," id = false)
                          ["64f1c0ffee0000000000b002"; "draft"]).
  { repeat constructor; discriminate. }
  split; [exact Hclean|].
  rewrite (parseIds_string_as_array SampleIds.isValid SampleIds.toObjectId
             ["64f1c0ffee0000000000b002"; "draft"] Hclean
           : parseIds SampleIds.isValid SampleIds.toObjectId
               (IdsString "64f1c0ffee0000000000b002,draft") = _).
  reflexivity.
Defined.

(* ================================================================= *)
(** * More on the permission resolver *)

Lemma append_cancel (a b c : string) : (a ++ b = a ++ c)%string -> b = c.
Proof.
  induction a as [|ch rest IH]; simpl; intros H; [assumption|].
  injection H as H. now apply IH.
Qed.

(** For permissions whose resource contains no colon (as the resources
    of the schema), the [code] determines the permission, and the
    resource part that [requirePermission] cuts out of a code is the
    permission's resource. *)
Theorem permission_code_unique (p q : IPermission) :
  Js.occurs ":" (permission_resource p) = false ->
  Js.occurs ":" (permission_resource q) = false ->
  (code p = code q <-> p = q) /\
  Js.split_head ":" (code p) = permission_resource p.
Proof.
  intros Hp Hq. split.
  - split; [|now intros ->].
    intros Hcode.
    assert (Hres : permission_resource p = permission_resource q).
    { rewrite <- (split_head_code (permission_resource p) (permission_name p) Hp).
      rewrite <- (split_head_code (permission_resource q) (permission_name q) Hq).
      unfold code in Hcode. now rewrite Hcode. }
    unfold code in Hcode. rewrite Hres in Hcode.
    apply append_cancel in Hcode. injection Hcode as Hname.
    destruct p, q. simpl in *. now subst.
  - now apply split_head_code.
Qed.

Lemma permission_code_unique_witness :
  Js.occurs ":" "careers" = false /\
  Js.split_head ":" (code (mkPermission "manage" "careers")) = "careers".
Proof.
  split; [reflexivity|].
  exact (proj2 (permission_code_unique (mkPermission "manage" "careers")
                  (mkPermission "manage" "careers") eq_refl eq_refl)).
Defined.

(** A principal whose roles are all unresolved references is refused
    with 403 by [authorize] and by [requirePermission], whatever is
    required. *)
Theorem unpopulated_principal_denied (d : UserDocument)
    (required : list string) :
  decision (authorize required (mkRequest (Some (unpopulated d)))) = Forbidden /\
  decision (requirePermission required (mkRequest (Some (unpopulated d))))
  = Forbidden.
Proof.
  assert (Hrole : forall r, hasRole (unpopulated d) r = false)
    by (intros r; apply hasRole_unresolved).
  assert (Hperm : forall c, hasPermission (unpopulated d) c = false)
    by (intros c; apply hasPermission_unresolved_roles).
  split.
  - destruct (authorize_next required (unpopulated d)) as (Hnext & _).
    destruct (authorize required (mkRequest (Some (unpopulated d)))) as [|e]
      eqn:Ha.
    + destruct (Hnext eq_refl) as [H|(r & _ & H)]; rewrite Hrole in H;
        discriminate.
    + revert Ha. unfold authorize. simpl. rewrite Hrole.
      destruct (negb _); intros H; [now injection H as <-|discriminate].
  - destruct (requirePermission_outcomes required (unpopulated d)) as [H| ->];
      [|reflexivity].
    apply requirePermission_next in H.
    destruct H as [H|[(c & _ & H)|(c & _ & [H|H])]];
      rewrite ?Hrole, ?Hperm in H; discriminate.
Qed.

Lemma hasRole_mono (p q : IUser) (r : string) :
  roles_included p q -> hasRole p r = true -> hasRole q r = true.
Proof.
  intros (roles & roles' & Hp & Hq & Hincl) H.
  apply hasRole_iff in H. apply hasRole_iff.
  destruct H as (rs & role & Hrs & Hin & Hname).
  rewrite Hp in Hrs. injection Hrs as <-.
  exists roles', role. repeat split; auto.
Qed.

Lemma hasPermission_mono (p q : IUser) (c : string) :
  roles_included p q -> hasPermission p c = true -> hasPermission q c = true.
Proof.
  intros (roles & roles' & Hp & Hq & Hincl) H.
  apply hasPermission_iff in H. apply hasPermission_iff.
  destruct H as (rs & role & ps & e & Hrs & Hin & Hps & He & Hc).
  rewrite Hp in Hrs. injection Hrs as <-.
  exists roles', role, ps, e. repeat split; auto.
Qed.

(** Granting a principal further roles never takes access away: what
    [authorize] and [requirePermission] allowed before, they allow
    after.  In particular the order of the roles does not matter. *)
Theorem more_roles_never_revoke (p q : IUser) (required : list string) :
  roles_included p q ->
  (authorize required (mkRequest (Some p)) = Next ->
   authorize required (mkRequest (Some q)) = Next) /\
  (requirePermission required (mkRequest (Some p)) = Next ->
   requirePermission required (mkRequest (Some q)) = Next).
Proof.
  intros Hincl. split; intros H.
  - apply authorize_next in H. apply authorize_next.
    destruct H as [H|(r & Hin & H)].
    + left. now apply (hasRole_mono p q).
    + right. exists r. split; [assumption|now apply (hasRole_mono p q)].
  - apply requirePermission_next in H. apply requirePermission_next.
    destruct H as [H|[(c & Hin & H)|(c & Hin & [H|H])]].
    + left. now apply (hasRole_mono p q).
    + right; left. exists c. split; [assumption|].
      now apply (hasPermission_mono p q).
    + right; right. exists c. split; [assumption|]. left.
      now apply (hasPermission_mono p q).
    + right; right. exists c. split; [assumption|]. right.
      now apply (hasPermission_mono p q).
Qed.

Lemma more_roles_never_revoke_witness :
  let p := Sample.editorUser in
  let q := mkUser (user_id Sample.editorUser)
                  (Some [RoleDoc Sample.HRManager; RoleDoc Sample.Editor]) in
  roles_included p q /\
  requirePermission ["blogs:create"] (mkRequest (Some p)) = Next /\
  requirePermission ["blogs:create"] (mkRequest (Some q)) = Next.
Proof.
  intros p q.
  assert (Hincl : roles_included p q).
  { exists [RoleDoc Sample.Editor],
           [RoleDoc Sample.HRManager; RoleDoc Sample.Editor].
    split; [reflexivity|]. split; [reflexivity|].
    intros x [<-|[]]. right. now left. }
  split; [exact Hincl|]. split; [reflexivity|].
  exact (proj2 (more_roles_never_revoke p q ["blogs:create"] Hincl) eq_refl).
Defined.

(* ================================================================= *)
(** * Callers of [hasRole] *)

(** [deleteUser] loads the user without populating its roles, so the
    test [user.hasRole('Admin')] is never true: every user that is
    found is handed to [deleteOne], whatever roles it has, and the
    answer is 200 unless [deleteOne] itself fails. *)
Theorem deleteUser_guard_never_fires
    (findUserById : string -> Outcome (option UserDocument))
    (deleteOne : UserDocument -> Outcome unit) (id : string)
    (user : UserDocument) :
  findUserById id = Return (Some user) ->
  hasRole (unpopulated user) "Admin" = false /\
  snd (deleteUser findUserById deleteOne id) = Some user /\
  fst (deleteUser findUserById deleteOne id)
  = match deleteOne user with
    | Return _ => Responded 200 "User deleted successfully"
    | Throw error => Forwarded error
    end.
Proof.
  intros Hfind. unfold deleteUser. rewrite Hfind.
  assert (Hrole : hasRole (unpopulated user) "Admin" = false)
    by apply hasRole_unresolved.
  rewrite Hrole. split; [reflexivity|].
  destruct (deleteOne user); split; reflexivity.
Qed.

Lemma deleteUser_guard_never_fires_witness :
  let admin := mkUserDocument "64f1c0ffee0000000000b009"
                              ["64f1c0ffee0000000000c001"] in
  let find := fun id : string =>
                if String.eqb id "64f1c0ffee0000000000b009"
                then Return (Some admin) else Return None in
  find "64f1c0ffee0000000000b009" = Return (Some admin) /\
  deleteUser find (fun _ => Return tt) "64f1c0ffee0000000000b009"
  = (Responded 200 "User deleted successfully", Some admin).
Proof.
  intros admin find. split; [reflexivity|].
  destruct (deleteUser_guard_never_fires find (fun _ => Return tt)
              "64f1c0ffee0000000000b009" admin eq_refl) as (_ & Hsnd & Hfst).
  destruct (deleteUser find (fun _ => Return tt) "64f1c0ffee0000000000b009")
    as [result called].
  simpl in Hsnd, Hfst. now rewrite Hsnd, Hfst.
Defined.

(** The public listings ([GET /api/blogs], [GET /api/careers], behind
    [protect(false)]): unless the request comes from an authenticated,
    active SuperAdmin, the listing is restricted to published entries,
    whatever status was asked for.  A SuperAdmin gets the status asked
    for (for blogs only a known status), and no restriction otherwise. *)
Theorem public_listing_published_only (env : Env)
    (findAccount : Js.prop string -> Outcome (option Account))
    (req : HttpRequest) (status : Js.prop string) :
  let user := req_user (fst (protect env findAccount false req)) in
  (not_super_admin user = true /\
   blog_status_filter status user = Some "published" /\
   career_status_filter status user = Some "published") \/
  (exists u,
      authenticates env findAccount req u /\ holds_role u "SuperAdmin" /\
      blog_status_filter status user
      = (if Js.truthy_str status
            && existsb (fun v => Js.strict_eq status v) blog_statuses
         then status else None) /\
      career_status_filter status user
      = (if Js.truthy_str status then status else None)).
Proof.
  intros user. destruct (not_super_admin user) eqn:Hout.
  - left. split; [reflexivity|]. unfold blog_status_filter, career_status_filter.
    rewrite Hout. split.
    + destruct (Js.truthy_str status
                && existsb (fun v => Js.strict_eq status v) blog_statuses)
        eqn:Hvalid; [|reflexivity].
      destruct (Js.strict_eq status "published") eqn:Hpub; simpl;
        [|reflexivity].
      now apply strict_eq_true in Hpub.
    + destruct (Js.truthy_str status); [|reflexivity].
      destruct (Js.strict_eq status "published") eqn:Hpub; simpl;
        [|reflexivity].
      now apply strict_eq_true in Hpub.
  - right. unfold not_super_admin in Hout.
    destruct user as [u|] eqn:Huser; [|discriminate].
    apply negb_false_iff in Hout. exists u.
    split; [now apply (protect_attaches env findAccount false)|].
    split; [now apply hasRole_iff|].
    unfold blog_status_filter, career_status_filter, not_super_admin.
    rewrite Hout. simpl. rewrite !andb_false_r. split; reflexivity.
Qed.

(* ================================================================= *)
(** * Mail and [createInquiry] *)

(** [sendEmail] hands at most one message to [sendMail], on a port that
    is never 0 (the stored port, else the environment's, else 587), and
    returns exactly when the settings exist and [sendMail] returns; a
    failure of the lookup or of [sendMail] is thrown on to the caller. *)
Theorem sendEmail_outcome (env : MailEnv)
    (settings : Outcome (option SettingsDocument)) (options : EmailOptions) :
  let result := sendEmail env settings options in
  List.length (fst result) <= 1 /\
  (forall config mail, In (config, mail) (fst result) -> config_port config <> 0)
  /\
  (snd result = Return tt <->
   exists document s config mail,
     settings = Return (Some document) /\ emailSettings document = Some s /\
     fst result = [(config, mail)] /\ sendMail env config mail = Return tt) /\
  (forall error, settings = Throw error -> result = ([], Throw error)) /\
  (forall config mail error,
      fst result = [(config, mail)] -> sendMail env config mail = Throw error ->
      snd result = Throw error).
Proof.
  intros result. unfold result, sendEmail.
  destruct settings as [[document|]|error0].
  - destruct (emailSettings document) as [s|] eqn:Hs; simpl.
    + split; [lia|]. split; [|split; [|split]].
      * intros config mail [H|[]]. injection H as <- _.
        unfold transport_config, truthy_number. simpl.
        destruct (smtpPort s) as [k|].
        -- destruct (Nat.eqb_spec k 0); simpl; [|assumption].
           destruct (SMTP_PORT_number env) as [m|]; [|discriminate].
           destruct (Nat.eqb_spec m 0); simpl; [discriminate|assumption].
        -- destruct (SMTP_PORT_number env) as [m|]; [|discriminate].
           destruct (Nat.eqb_spec m 0); simpl; [discriminate|assumption].
      * split.
        -- intros H. eexists document, s, _, _.
           split; [reflexivity|]. split; [exact Hs|].
           split; [reflexivity|]. exact H.
        -- intros (d & s' & config & mail & Hd & Hs' & Hsent & Hok).
           injection Hsent as <- <-. exact Hok.
      * discriminate.
      * intros config mail error Hsent Hthrow.
        injection Hsent as <- <-. exact Hthrow.
    + split; [lia|]. split; [intros ? ? []|]. split; [|split].
      * split; [discriminate|].
        intros (d & s & config & mail & _ & _ & H & _). discriminate.
      * discriminate.
      * discriminate.
  - simpl. split; [lia|]. split; [intros ? ? []|]. split; [|split].
    + split; [discriminate|].
      intros (d & s & config & mail & H & _). discriminate.
    + discriminate.
    + discriminate.
  - simpl. split; [lia|]. split; [intros ? ? []|]. split; [|split].
    + split; [discriminate|].
      intros (d & s & config & mail & H & _). discriminate.
    + intros error H. now injection H as <-.
    + discriminate.
Qed.

Lemma sendInquiryNotification_returns (env : MailEnv)
    (first second : Outcome (option SettingsDocument)) (inquiry : Inquiry) :
  snd (sendInquiryNotification env first second inquiry) = Return tt.
Proof.
  unfold sendInquiryNotification.
  destruct first as [[document|]|error0]; try reflexivity.
  destruct (emailSettings document) as [s|]; try reflexivity.
  now destruct (Nat.eqb (List.length (notificationEmails s)) 0).
Qed.

(** [sendInquiryNotification] never throws, whatever the settings
    lookups and the mail server do.  It hands [sendMail] at most one
    message, and only a message to all the configured notification
    addresses, joined by commas. *)
Theorem sendInquiryNotification_swallows (env : MailEnv)
    (first second : Outcome (option SettingsDocument)) (inquiry : Inquiry) :
  let result := sendInquiryNotification env first second inquiry in
  snd result = Return tt /\
  List.length (fst result) <= 1 /\
  (forall config mail,
      In (config, mail) (fst result) ->
      exists document s,
        first = Return (Some document) /\ emailSettings document = Some s /\
        notificationEmails s <> [] /\
        mail_to mail = JsString.join "," (notificationEmails s) /\
        mail_subject mail = "New Inquiry" /\
        mail_html mail = inquiry_html env inquiry).
Proof.
  intros result. unfold result, sendInquiryNotification.
  destruct first as [[document|]|error0];
    try (simpl; split; [reflexivity|split; [lia|intros ? ? []]]).
  destruct (emailSettings document) as [s|] eqn:Hs;
    try (simpl; split; [reflexivity|split; [lia|intros ? ? []]]).
  destruct (notificationEmails s) as [|address rest] eqn:Hto;
    [simpl; split; [reflexivity|split; [lia|intros ? ? []]]|].
  cbn [List.length Nat.eqb fst snd].
  split; [reflexivity|]. split.
  - apply (sendEmail_outcome env second).
  - intros config mail Hin. exists document, s.
    split; [reflexivity|]. split; [assumption|]. split; [now rewrite Hto|].
    unfold sendEmail in Hin.
    destruct second as [[document2|]|error2]; try contradiction.
    destruct (emailSettings document2) as [s2|]; try contradiction.
    destruct Hin as [H|[]]. injection H as _ <-. simpl.
    now rewrite Hto.
Qed.

Lemma sendInquiryNotification_swallows_witness :
  let result := sendInquiryNotification SampleMail.failing SampleMail.configured
                  SampleMail.configured SampleMail.inquiry in
  snd result = Return tt /\
  map (fun sent => mail_to (snd sent)) (fst result)
  = ["sales@example.com,owner@example.com"] /\
  snd (sendEmail SampleMail.failing SampleMail.configured
         (mkEmailOptions (ToOne "sales@example.com") "New Inquiry" "text"))
  = Throw (mkError "connect ECONNREFUSED" None).
Proof.
  intros result. split.
  - exact (proj1 (sendInquiryNotification_swallows SampleMail.failing
                    SampleMail.configured SampleMail.configured
                    SampleMail.inquiry)).
  - split; reflexivity.
Defined.

(** [createInquiry], once the inquiry is stored: the answer does not
    depend on the mail at all.  It is 201 when [notifyRoles] returns,
    in particular when no [emit] throws; when an [emit] throws, the
    client is given that error although the inquiry has been stored and
    the notification mail handed over. *)
Theorem createInquiry_outcome (env : MailEnv)
    (first second : Outcome (option SettingsDocument))
    (transport_emit :
       AuthenticatedSocket -> string -> Js.prop Payload -> option JsError)
    (create : Outcome Inquiry) (serialize : Inquiry -> Payload)
    (registry : Registry) (inquiry : Inquiry) :
  create = Return inquiry ->
  let result := createInquiry env first second transport_emit create serialize
                  registry in
  let notified := notifyRoles transport_emit registry
                    ["SuperAdmin"; "Admin"; "BusinessDeveloper"]
                    "notification:inquiry" (serialize inquiry) in
  snd (fst result) = fst (sendInquiryNotification env first second inquiry) /\
  snd result = calls notified /\
  fst (fst result)
  = match outcome notified with
    | Return _ => Responded 201 "Inquiry submitted successfully"
    | Throw error => Forwarded error
    end /\
  ((forall s, transport_emit s "notification:inquiry"
                (Some (serialize inquiry)) = None) ->
   fst (fst result) = Responded 201 "Inquiry submitted successfully" /\
   snd result
   = map (emission_of "notification:inquiry" (Some (serialize inquiry)))
         (targets registry ["SuperAdmin"; "Admin"; "BusinessDeveloper"])).
Proof.
  intros Hcreate result notified. unfold result, createInquiry.
  rewrite Hcreate, sendInquiryNotification_returns. fold notified.
  assert (Hshape : forall r : Eff unit,
             (match outcome r with
              | Return _ => (Responded 201 "Inquiry submitted successfully",
                             fst (sendInquiryNotification env first second
                                    inquiry), calls r)
              | Throw error => (Forwarded error,
                                fst (sendInquiryNotification env first second
                                       inquiry), calls r)
              end)
             = (match outcome r with
                | Return _ => Responded 201 "Inquiry submitted successfully"
                | Throw error => Forwarded error
                end,
                fst (sendInquiryNotification env first second inquiry),
                calls r))
    by (intros r; now destruct (outcome r)).
  rewrite Hshape. simpl. split; [reflexivity|]. split; [reflexivity|].
  split; [reflexivity|].
  intros Hok. unfold notified.
  rewrite notifyRoles_forEach, forEach_emit_ok by (intros s _; apply Hok).
  split; reflexivity.
Qed.

Lemma createInquiry_outcome_witness :
  let registry :=
    activeConnections (run Sample.env initial_state Sample.three_connections) in
  let result :=
    createInquiry SampleMail.failing SampleMail.configured
                  SampleMail.configured Sample.never_throws
                  (Return SampleMail.inquiry) (fun _ => Sample.payload)
                  registry in
  Return SampleMail.inquiry = Return SampleMail.inquiry /\
  fst (fst result) = Responded 201 "Inquiry submitted successfully" /\
  snd result
  = map (emission_of "notification:inquiry" (Some Sample.payload))
        [Sample.adminSocket1; Sample.adminSocket2].
Proof.
  intros registry result. split; [reflexivity|].
  destruct (createInquiry_outcome SampleMail.failing SampleMail.configured
              SampleMail.configured Sample.never_throws
              (Return SampleMail.inquiry) (fun _ => Sample.payload)
              registry SampleMail.inquiry eq_refl) as (_ & _ & _ & Hok).
  apply Hok. intros s. reflexivity.
Defined.

(* ================================================================= *)
(** ** Password reset *)

Lemma find_unique {A : Type} (q : A -> bool) (x : A) (l : list A) :
  In x l -> q x = true ->
  (forall y, In y l -> q y = true -> y = x) ->
  find q l = Some x.
Proof.
  induction l as [|d rest IH]; intros Hin Hq Huniq; [contradiction|].
  simpl. destruct (q d) eqn:Hd.
  - f_equal. apply Huniq; [now left | exact Hd].
  - destruct Hin as [->|Hin]; [congruence|].
    apply IH; [exact Hin | exact Hq |].
    intros y Hy. apply Huniq. now right.
Qed.

Lemma find_all_false {A : Type} (q : A -> bool) (l : list A) :
  (forall y, In y l -> q y = false) -> find q l = None.
Proof.
  induction l as [|d rest IH]; intros Hall; [reflexivity|].
  simpl. rewrite (Hall d (or_introl eq_refl)).
  apply IH. intros y Hy. apply Hall. now right.
Qed.

Lemma in_replace_first {A : Type} (p : A -> bool) (new v : A) (l : list A) :
  In v (replace_first p new l) -> v = new \/ In v l.
Proof.
  induction l as [|d rest IH]; simpl; [tauto|].
  destruct (p d).
  - intros [<-|Hin]; [now left | right; now right].
  - intros [<-|Hin]; [right; now left |].
    destruct (IH Hin) as [->|Hin']; [now left | right; now right].
Qed.

Lemma replace_first_in {A : Type} (p : A -> bool) (new : A) (l : list A) :
  (exists d, In d l /\ p d = true) -> In new (replace_first p new l).
Proof.
  induction l as [|d rest IH]; intros (x & Hin & Hp); [contradiction|].
  simpl. destruct (p d) eqn:Hd; [now left|].
  right. apply IH. exists x. split; [|exact Hp].
  destruct Hin as [->|Hin]; [congruence | exact Hin].
Qed.

Module AuthFacts.

Import AuthController.

Lemma save_save (a b : UserRecord) (users : list UserRecord) :
  _id a = _id b -> save b (save a users) = save b users.
Proof.
  intros Hid. unfold save. rewrite Hid.
  induction users as [|d rest IH]; [reflexivity|].
  simpl. destruct (String.eqb (_id d) (_id b)) eqn:Hd.
  - simpl. rewrite Hid, String.eqb_refl. reflexivity.
  - simpl. rewrite Hd, IH. reflexivity.
Qed.

Lemma find_save (q : UserRecord -> bool) (u u' : UserRecord)
    (users : list UserRecord) :
  find q users = Some u -> q u' = true -> _id u' = _id u ->
  find q (save u' users) = Some u'.
Proof.
  intros Hfind Hq Hid. unfold save. rewrite Hid.
  induction users as [|d rest IH]; [discriminate|].
  simpl in *. destruct (String.eqb (_id d) (_id u)) eqn:Hd.
  - simpl. now rewrite Hq.
  - destruct (q d) eqn:Hqd.
    + injection Hfind as ->. now rewrite String.eqb_refl in Hd.
    + simpl. rewrite Hqd. now apply IH.
Qed.

Lemma in_save (this v : UserRecord) (users : list UserRecord) :
  In v (save this users) -> v = this \/ In v users.
Proof. apply in_replace_first. Qed.

Section Facts.

Variable sha256 : string -> string.
Variable bcrypt_hash : string -> string.
Variable validation_error : string -> JsError.
Variable email_matches : string -> string -> bool.

Local Abbreviation forgot := (forgotPassword sha256 email_matches).
Local Abbreviation reset :=
  (resetPassword sha256 bcrypt_hash validation_error).

Lemma unissued_filter (resetToken : string) (now : N)
    (users : list UserRecord) (v : UserRecord) :
  unissued sha256 resetToken users -> In v users ->
  reset_filter (sha256 resetToken) now v = false.
Proof.
  intros Hfresh Hin. unfold reset_filter.
  destruct (passwordResetToken v) as [stored|] eqn:Ht; [|reflexivity].
  destruct (passwordResetExpires v); [|reflexivity].
  destruct (String.eqb stored (sha256 resetToken)) eqn:He; [|reflexivity].
  apply String.eqb_eq in He. subst stored.
  now destruct (Hfresh v Hin).
Qed.

Lemma forgot_found (users : list UserRecord) (body_email resetToken : string)
    (issued : N) (u : UserRecord) :
  find (fun u => email_matches body_email (email u)) users = Some u ->
  fst (forgot users body_email resetToken issued)
  = save (mkUserRecord (_id u) (email u) (password u) (roles u)
                       (Some (sha256 resetToken))
                       (Some (issued + reset_window)%N)) users.
Proof. intros Hfind. unfold forgotPassword. now rewrite Hfind. Qed.

Lemma reset_after_request (users : list UserRecord)
    (resetToken body_password : string) (issued now : N)
    (u : UserRecord) :
  (exists d, In d users /\ String.eqb (_id d) (_id u) = true) ->
  unissued sha256 resetToken users ->
  let requested :=
    save (mkUserRecord (_id u) (email u) (password u) (roles u)
                       (Some (sha256 resetToken))
                       (Some (issued + reset_window)%N)) users in
  reset requested resetToken body_password now
  = if N.ltb now (issued + reset_window)
    then
      if password_refused body_password
      then (requested, Forwarded (validation_error body_password))
      else (save (mkUserRecord (_id u) (email u)
                               (bcrypt_hash body_password)
                               (roles u) None None) users,
            Responded 200
              "Password reset successful. You can now log in with your new password.")
    else (requested,
          Forwarded (mkError "Invalid or expired token" (Some 400))).
Proof.
  intros Hstored Hfresh requested. unfold resetPassword.
  set (u' := mkUserRecord (_id u) (email u) (password u) (roles u)
                          (Some (sha256 resetToken))
                          (Some (issued + reset_window)%N)) in *.
  destruct (N.ltb now (issued + reset_window)) eqn:Hnow.
  - assert (Hfind : find (reset_filter (sha256 resetToken) now) requested
                    = Some u').
    { apply find_unique.
      - apply replace_first_in. exact Hstored.
      - unfold reset_filter, u'.
        cbn [passwordResetToken passwordResetExpires].
        now rewrite String.eqb_refl, Hnow.
      - intros y Hy Hq. apply in_save in Hy as [->|Hy]; [reflexivity|].
        now rewrite (unissued_filter _ _ _ _ Hfresh Hy) in Hq. }
    rewrite Hfind. destruct (password_refused body_password);
      [reflexivity|].
    f_equal. unfold requested.
    now rewrite save_save by reflexivity.
  - rewrite find_all_false; [reflexivity|].
    intros y Hy. apply in_save in Hy as [->|Hy].
    + unfold reset_filter, u'.
      cbn [passwordResetToken passwordResetExpires].
      now rewrite Hnow, andb_false_r.
    + exact (unissued_filter _ _ _ _ Hfresh Hy).
Qed.

Lemma found_stored (q : UserRecord -> bool) (users : list UserRecord)
    (u : UserRecord) :
  find q users = Some u ->
  exists d, In d users /\ String.eqb (_id d) (_id u) = true.
Proof.
  intros Hfind. apply find_some in Hfind as [Hin _].
  exists u. split; [exact Hin | apply String.eqb_refl].
Qed.

End Facts.

End AuthFacts.

(** A reset token is good for ten minutes: once [forgotPassword] has
    issued it to a registered user, [resetPassword] with that token and
    a password of at least six characters stores the hash of the
    password in that user's document, and in no other, when called less
    than [10 * 60 * 1000] ms later.  With a shorter password [save]
    throws: the error is forwarded and the collection, token included,
    stays as it was.  From ten minutes on the answer is 400 and nothing
    is touched. *)
Theorem reset_token_window (sha256 bcrypt_hash : string -> string)
    (validation_error : string -> JsError)
    (email_matches : string -> string -> bool)
    (users : list AuthController.UserRecord) (body_email resetToken : string)
    (issued : N) (u : AuthController.UserRecord) :
  find (fun u => email_matches body_email (AuthController.email u)) users
  = Some u ->
  AuthController.unissued sha256 resetToken users ->
  let requested :=
    fst (AuthController.forgotPassword sha256 email_matches users body_email
           resetToken issued) in
  forall (now : N) (body_password : string),
    AuthController.resetPassword sha256 bcrypt_hash validation_error requested
      resetToken body_password now
    = if N.ltb now (issued + AuthController.reset_window)
      then
        if Nat.ltb (JsString.length body_password) 6
        then (requested, Forwarded (validation_error body_password))
        else (AuthController.save
                (AuthController.mkUserRecord
                   (AuthController._id u) (AuthController.email u)
                   (bcrypt_hash body_password) (AuthController.roles u)
                   None None) users,
              Responded 200
                "Password reset successful. You can now log in with your new password.")
      else (requested,
            Forwarded (mkError "Invalid or expired token" (Some 400))).
Proof.
  intros Hfind Hfresh requested now body_password. unfold requested.
  rewrite (AuthFacts.forgot_found _ _ _ _ _ _ _ Hfind).
  apply (AuthFacts.reset_after_request sha256 bcrypt_hash validation_error);
    [|exact Hfresh].
  exact (AuthFacts.found_stored _ _ _ Hfind).
Qed.

Lemma reset_token_window_witness :
  let requested :=
    fst (AuthController.forgotPassword SampleAccounts.sha256 String.eqb
           SampleAccounts.users "bob@example.com" "c0ffee" 1000%N) in
  AuthController.resetPassword SampleAccounts.sha256
    SampleAccounts.bcrypt_hash SampleAccounts.validation_error requested
    "c0ffee" "third-secret" (1000 + 9 * 60 * 1000)%N
  = ([SampleAccounts.ada;
      AuthController.mkUserRecord "64b000000000000000000002" "bob@example.com"
        "bcrypt(third-secret)" ["64a000000000000000000002"] None None],
     Responded 200
       "Password reset successful. You can now log in with your new password.")
  /\ AuthController.resetPassword SampleAccounts.sha256
       SampleAccounts.bcrypt_hash SampleAccounts.validation_error requested
       "c0ffee" "third" (1000 + 9 * 60 * 1000)%N
     = (requested, Forwarded (SampleAccounts.validation_error "third"))
  /\ AuthController.resetPassword SampleAccounts.sha256
       SampleAccounts.bcrypt_hash SampleAccounts.validation_error requested
       "c0ffee" "third-secret" (1000 + 10 * 60 * 1000)%N
     = (requested, Forwarded (mkError "Invalid or expired token" (Some 400))).
Proof.
  assert (Hfind : find (fun u => String.eqb "bob@example.com"
                                   (AuthController.email u))
                       SampleAccounts.users = Some SampleAccounts.bob)
    by reflexivity.
  assert (Hfresh : AuthController.unissued SampleAccounts.sha256 "c0ffee"
                     SampleAccounts.users).
  { intros v [<-|[<-|[]]]; discriminate. }
  pose proof (reset_token_window SampleAccounts.sha256
                SampleAccounts.bcrypt_hash SampleAccounts.validation_error
                String.eqb SampleAccounts.users
                "bob@example.com" "c0ffee" 1000%N SampleAccounts.bob
                Hfind Hfresh) as H.
  split; [|split].
  - rewrite (H (1000 + 9 * 60 * 1000)%N "third-secret"). vm_compute.
    reflexivity.
  - rewrite (H (1000 + 9 * 60 * 1000)%N "third"). vm_compute. reflexivity.
  - rewrite (H (1000 + 10 * 60 * 1000)%N "third-secret"). vm_compute.
    reflexivity.
Defined.

(** A reset token works once: after [resetPassword] has accepted it,
    in time and with a password that [save] accepts, the same token is
    answered 400 at any later (or earlier) time and with any password,
    and the collection stays as the first reset left it. *)
Theorem reset_token_single_use (sha256 bcrypt_hash : string -> string)
    (validation_error : string -> JsError)
    (email_matches : string -> string -> bool)
    (users : list AuthController.UserRecord) (body_email resetToken : string)
    (issued now : N) (first_password : string)
    (u : AuthController.UserRecord) :
  find (fun u => email_matches body_email (AuthController.email u)) users
  = Some u ->
  AuthController.unissued sha256 resetToken users ->
  N.ltb now (issued + AuthController.reset_window) = true ->
  6 <= JsString.length first_password ->
  let requested :=
    fst (AuthController.forgotPassword sha256 email_matches users body_email
           resetToken issued) in
  let redeemed :=
    fst (AuthController.resetPassword sha256 bcrypt_hash validation_error
           requested resetToken first_password now) in
  snd (AuthController.resetPassword sha256 bcrypt_hash validation_error
         requested resetToken first_password now)
  = Responded 200
      "Password reset successful. You can now log in with your new password."
  /\
  forall (again : N) (second_password : string),
    AuthController.resetPassword sha256 bcrypt_hash validation_error redeemed
      resetToken second_password again
    = (redeemed, Forwarded (mkError "Invalid or expired token" (Some 400))).
Proof.
  intros Hfind Hfresh Hnow Hlong requested redeemed.
  assert (Haccepted : AuthController.password_refused first_password = false)
    by (apply Nat.ltb_ge; exact Hlong).
  unfold redeemed, requested.
  rewrite (AuthFacts.forgot_found _ _ _ _ _ _ _ Hfind).
  rewrite AuthFacts.reset_after_request
    by (try exact Hfresh; exact (AuthFacts.found_stored _ _ _ Hfind)).
  rewrite Hnow, Haccepted. cbn [fst snd]. split; [reflexivity|].
  intros again second_password.
  unfold AuthController.resetPassword.
  rewrite find_all_false; [reflexivity|].
  intros y Hy. apply AuthFacts.in_save in Hy as [->|Hy]; [reflexivity|].
  exact (AuthFacts.unissued_filter _ _ _ _ _ Hfresh Hy).
Qed.

Lemma reset_token_single_use_witness :
  let requested :=
    fst (AuthController.forgotPassword SampleAccounts.sha256 String.eqb
           SampleAccounts.users "bob@example.com" "c0ffee" 1000%N) in
  let redeemed :=
    fst (AuthController.resetPassword SampleAccounts.sha256
           SampleAccounts.bcrypt_hash SampleAccounts.validation_error
           requested "c0ffee" "third-secret" 2000%N) in
  snd (AuthController.resetPassword SampleAccounts.sha256
         SampleAccounts.bcrypt_hash SampleAccounts.validation_error
         requested "c0ffee" "third-secret" 2000%N)
  = Responded 200
      "Password reset successful. You can now log in with your new password."
  /\
  AuthController.resetPassword SampleAccounts.sha256
    SampleAccounts.bcrypt_hash SampleAccounts.validation_error redeemed
    "c0ffee" "fourth-secret" 3000%N
  = (redeemed, Forwarded (mkError "Invalid or expired token" (Some 400))).
Proof.
  assert (Hfresh : AuthController.unissued SampleAccounts.sha256 "c0ffee"
                     SampleAccounts.users).
  { intros v [<-|[<-|[]]]; discriminate. }
  assert (Hlong : 6 <= JsString.length "third-secret") by (vm_compute; lia).
  destruct (reset_token_single_use SampleAccounts.sha256
              SampleAccounts.bcrypt_hash SampleAccounts.validation_error
              String.eqb SampleAccounts.users
              "bob@example.com" "c0ffee" 1000%N 2000%N "third-secret"
              SampleAccounts.bob eq_refl Hfresh eq_refl Hlong)
    as (Hfirst & Hagain).
  split; [exact Hfirst|]. exact (Hagain 3000%N "fourth-secret").
Defined.

(** A newer request revokes the older token: when [forgotPassword] runs
    a second time for the same user and draws a token with another
    hash, the first token is answered 400 even inside its own ten
    minutes. *)
Theorem newer_reset_request_revokes_older
    (sha256 bcrypt_hash : string -> string)
    (validation_error : string -> JsError)
    (email_matches : string -> string -> bool)
    (users : list AuthController.UserRecord)
    (body_email older newer : string) (issued reissued : N)
    (u : AuthController.UserRecord) :
  find (fun u => email_matches body_email (AuthController.email u)) users
  = Some u ->
  AuthController.unissued sha256 older users ->
  sha256 older <> sha256 newer ->
  let requested :=
    fst (AuthController.forgotPassword sha256 email_matches users body_email
           older issued) in
  let requested_again :=
    fst (AuthController.forgotPassword sha256 email_matches requested
           body_email newer reissued) in
  forall (now : N) (body_password : string),
    AuthController.resetPassword sha256 bcrypt_hash validation_error
      requested_again older body_password now
    = (requested_again,
       Forwarded (mkError "Invalid or expired token" (Some 400))).
Proof.
  intros Hfind Hfresh Hdiff requested requested_again now body_password.
  assert (Hq : email_matches body_email (AuthController.email u) = true)
    by (apply find_some in Hfind; apply Hfind).
  unfold requested_again, requested.
  rewrite (AuthFacts.forgot_found _ _ _ _ _ _ _ Hfind).
  set (u1 := AuthController.mkUserRecord
                (AuthController._id u) (AuthController.email u)
                (AuthController.password u) (AuthController.roles u)
                (Some (sha256 older))
                (Some (issued + AuthController.reset_window)%N)).
  rewrite (AuthFacts.forgot_found _ _ _ _ _ _ _
             (AuthFacts.find_save _ u u1 _ Hfind Hq eq_refl)).
  rewrite AuthFacts.save_save by reflexivity.
  unfold AuthController.resetPassword.
  rewrite find_all_false; [reflexivity|].
  intros y Hy. apply AuthFacts.in_save in Hy as [->|Hy].
  - unfold AuthController.reset_filter.
    cbn [AuthController.passwordResetToken AuthController.passwordResetExpires].
    destruct (String.eqb (sha256 newer) (sha256 older)) eqn:He; [|reflexivity].
    apply String.eqb_eq in He. now destruct Hdiff.
  - exact (AuthFacts.unissued_filter _ _ _ _ _ Hfresh Hy).
Qed.

Lemma newer_reset_request_revokes_older_witness :
  let requested :=
    fst (AuthController.forgotPassword SampleAccounts.sha256 String.eqb
           SampleAccounts.users "bob@example.com" "c0ffee" 1000%N) in
  let requested_again :=
    fst (AuthController.forgotPassword SampleAccounts.sha256 String.eqb
           requested "bob@example.com" "decade" 2000%N) in
  AuthController.resetPassword SampleAccounts.sha256
    SampleAccounts.bcrypt_hash SampleAccounts.validation_error requested_again
    "c0ffee" "third" 3000%N
  = (requested_again,
     Forwarded (mkError "Invalid or expired token" (Some 400))).
Proof.
  assert (Hfresh : AuthController.unissued SampleAccounts.sha256 "c0ffee"
                     SampleAccounts.users).
  { intros v [<-|[<-|[]]]; discriminate. }
  assert (Hdiff : SampleAccounts.sha256 "c0ffee"
                  <> SampleAccounts.sha256 "decade") by discriminate.
  exact (newer_reset_request_revokes_older SampleAccounts.sha256
           SampleAccounts.bcrypt_hash SampleAccounts.validation_error
           String.eqb SampleAccounts.users
           "bob@example.com" "c0ffee" "decade" 1000%N 2000%N SampleAccounts.bob
           eq_refl Hfresh Hdiff 3000%N "third").
Defined.

(* ================================================================= *)
(** ** The default role *)

Lemma replace_first_count {A : Type} (p q : A -> bool) (new d : A)
    (l : list A) :
  find p l = Some d ->
  List.length (filter q (replace_first p new l)) + (if q d then 1 else 0)
  = List.length (filter q l) + (if q new then 1 else 0).
Proof.
  induction l as [|x rest IH]; [discriminate|].
  simpl. destruct (p x) eqn:Hp.
  - intros [= ->]. simpl. destruct (q d), (q new); simpl; lia.
  - intros Hfind. specialize (IH Hfind). simpl.
    destruct (q x); simpl; lia.
Qed.

Lemma remove_first_filter {A : Type} (p q : A -> bool) (d : A) (l : list A) :
  find p l = Some d -> q d = false ->
  filter q (remove_first p l) = filter q l.
Proof.
  induction l as [|x rest IH]; [discriminate|].
  simpl. destruct (p x) eqn:Hp.
  - intros [= ->] Hq. now rewrite Hq.
  - intros Hfind Hq. simpl. now rewrite (IH Hfind Hq).
Qed.

Module RoleFacts.

Import RoleController.

Lemma defaults_clear (roles : list RoleRecord) :
  defaults (clear_defaults roles) = [].
Proof.
  unfold defaults, clear_defaults.
  induction roles as [|r rest IH]; [reflexivity|].
  simpl. destruct (isDefault r) eqn:Hr; simpl; [|rewrite Hr]; exact IH.
Qed.

Lemma defaults_app (roles more : list RoleRecord) :
  defaults (roles ++ more) = defaults roles ++ defaults more.
Proof. apply filter_app. Qed.

Lemma find_default_none (roles : list RoleRecord) :
  defaults roles = [] -> find isDefault roles = None.
Proof.
  unfold defaults. induction roles as [|r rest IH]; [reflexivity|].
  simpl. destruct (isDefault r); [discriminate | exact IH].
Qed.

Section Facts.

Variable name_filter : string -> RoleRecord -> bool.
Variable cast_id : string -> Outcome ObjectId.
Variable permission_ids : list string -> Outcome (list ObjectId).
Variable create_rejects : list RoleRecord -> RoleRecord -> option JsError.
Variable update_rejects : list RoleRecord -> RoleRecord -> option JsError.
Variable fresh_id : list RoleRecord -> ObjectId.
Variable usersWithRole : string -> nat.

Lemma createRole_defaults (roles : list RoleRecord)
    (body : CreateRoleInput) :
  find (name_filter (create_name body)) roles = None ->
  create_isDefault body = Some true ->
  let result := createRole name_filter permission_ids create_rejects
                  fresh_id roles body in
  defaults (fst result)
  = match snd result with
    | Responded _ _ => [created fresh_id (clear_defaults roles) body]
    | Forwarded _ => []
    end.
Proof.
  intros Hname Hflag. unfold createRole. rewrite Hname, Hflag.
  cbn [truthy_flag].
  destruct (permissions_valid permission_ids (create_permissions body));
    [|apply defaults_clear].
  destruct (create_rejects _ _); [apply defaults_clear|].
  cbn [fst snd]. rewrite defaults_app, defaults_clear.
  unfold defaults, created. simpl. now rewrite Hflag.
Qed.

Lemma createRole_at_most_one (roles : list RoleRecord)
    (body : CreateRoleInput) :
  List.length (defaults roles) <= 1 ->
  List.length (defaults (fst (createRole name_filter permission_ids
                                create_rejects fresh_id roles body))) <= 1.
Proof.
  intros Hone. unfold createRole.
  destruct (find (name_filter (create_name body)) roles); [exact Hone|].
  destruct (truthy_flag (create_isDefault body)) eqn:Hflag.
  - destruct (permissions_valid permission_ids (create_permissions body));
      [|cbn [fst]; rewrite defaults_clear; simpl; lia].
    destruct (create_rejects _ _);
      [cbn [fst]; rewrite defaults_clear; simpl; lia|].
    cbn [fst]. rewrite defaults_app, defaults_clear.
    unfold defaults. simpl. destruct (_ || false); simpl; lia.
  - destruct (permissions_valid permission_ids (create_permissions body));
      [|exact Hone].
    destruct (create_rejects _ _); [exact Hone|].
    cbn [fst]. rewrite defaults_app, length_app.
    unfold defaults at 2, created. simpl. rewrite Hflag. simpl. lia.
Qed.

Lemma updateRole_at_most_one (roles : list RoleRecord) (id : string)
    (body : UpdateRoleInput) :
  List.length (defaults roles) <= 1 ->
  List.length (defaults (fst (updateRole name_filter cast_id
                                permission_ids update_rejects roles id
                                body))) <= 1.
Proof.
  intros Hone. unfold updateRole.
  destruct (cast_id id) as [oid|]; [|exact Hone].
  destruct (find (by_id oid) roles) as [role|] eqn:Hrole; [|exact Hone].
  destruct (name_taken name_filter roles role (update_name body));
    [exact Hone|].
  destruct (truthy_flag (update_isDefault body) && negb (isDefault role))
    eqn:Hclear.
  - assert (Hnone : List.length (defaults (clear_defaults roles)) = 0)
      by now rewrite defaults_clear.
    destruct (permissions_valid permission_ids (update_permissions body));
      [|cbn [fst]; lia].
    destruct (update_rejects _ _); [cbn [fst]; lia|].
    destruct (find (by_id oid) (clear_defaults roles)) as [r1|] eqn:Hr1;
      [|cbn [fst]; lia].
    cbn [fst].
    pose proof (replace_first_count (by_id oid) isDefault
                  (updated role body) r1 _ Hr1) as Hcount.
    fold (defaults (replace_first (by_id oid) (updated role body)
                      (clear_defaults roles))) in Hcount.
    fold (defaults (clear_defaults roles)) in Hcount.
    destruct (isDefault r1), (isDefault (updated role body)); lia.
  - destruct (permissions_valid permission_ids (update_permissions body));
      [|exact Hone].
    destruct (update_rejects _ _); [exact Hone|].
    rewrite Hrole. cbn [fst].
    pose proof (replace_first_count (by_id oid) isDefault
                  (updated role body) role _ Hrole) as Hcount.
    fold (defaults (replace_first (by_id oid) (updated role body) roles))
      in Hcount.
    fold (defaults roles) in Hcount.
    unfold updated in Hcount at 2. cbn [isDefault] in Hcount.
    destruct (update_isDefault body) as [[|]|], (isDefault role);
      simpl in Hclear; try discriminate; lia.
Qed.

Lemma deleteRole_defaults (roles : list RoleRecord) (id : string) :
  defaults (fst (deleteRole cast_id usersWithRole roles id))
  = defaults roles.
Proof.
  unfold deleteRole.
  destruct (cast_id id) as [oid|]; [|reflexivity].
  destruct (find (by_id oid) roles) as [role|] eqn:Hrole; [|reflexivity].
  destruct (isDefault role) eqn:Hdefault; [reflexivity|].
  destruct (Nat.ltb 0 (usersWithRole id)); [reflexivity|].
  cbn [fst]. exact (remove_first_filter _ _ _ _ Hrole Hdefault).
Qed.

End Facts.

End RoleFacts.

(** One call of [createRole], [updateRole] or [deleteRole], run from
    its first read to its last write on a collection that no other
    writer touches in between, keeps the default role unique: if at
    most one role is the default before the call, at most one is after
    it, whether the call succeeds or is refused.  (Two calls that
    overlap at an [await] are not covered: nothing in the handlers or
    in the schema orders them.) *)
Theorem default_role_at_most_one
    (name_filter : string -> RoleController.RoleRecord -> bool)
    (cast_id : string -> Outcome ObjectId)
    (permission_ids : list string -> Outcome (list ObjectId))
    (create_rejects update_rejects :
       list RoleController.RoleRecord -> RoleController.RoleRecord ->
       option JsError)
    (fresh_id : list RoleController.RoleRecord -> ObjectId)
    (usersWithRole : string -> nat)
    (roles : list RoleController.RoleRecord) :
  List.length (RoleController.defaults roles) <= 1 ->
  (forall body,
      List.length
        (RoleController.defaults
           (fst (RoleController.createRole name_filter permission_ids
                   create_rejects fresh_id roles body))) <= 1) /\
  (forall id body,
      List.length
        (RoleController.defaults
           (fst (RoleController.updateRole name_filter cast_id permission_ids
                   update_rejects roles id body))) <= 1) /\
  (forall id,
      List.length
        (RoleController.defaults
           (fst (RoleController.deleteRole cast_id usersWithRole roles id)))
      <= 1).
Proof.
  intros Hone. split; [|split].
  - intros body. now apply RoleFacts.createRole_at_most_one.
  - intros id body. now apply RoleFacts.updateRole_at_most_one.
  - intros id. now rewrite RoleFacts.deleteRole_defaults.
Qed.

Lemma default_role_at_most_one_witness :
  List.length (RoleController.defaults SampleRoles.roles) <= 1 /\
  RoleController.defaults
    (fst (RoleController.updateRole SampleRoles.name_filter
            SampleRoles.cast_id SampleRoles.permission_ids
            SampleRoles.accepts SampleRoles.roles "64a000000000000000000002"
            (RoleController.mkUpdateRoleInput None None None (Some true))))
  = [RoleController.mkRoleRecord "64a000000000000000000002" "Editor" "Writes"
       ["64c000000000000000000001"] true] /\
  List.length
    (RoleController.defaults
       (fst (RoleController.updateRole SampleRoles.name_filter
               SampleRoles.cast_id SampleRoles.permission_ids
               SampleRoles.accepts SampleRoles.roles
               "64a000000000000000000002"
               (RoleController.mkUpdateRoleInput None None None (Some true)))))
  <= 1.
Proof.
  assert (Hone : List.length (RoleController.defaults SampleRoles.roles) <= 1)
    by (vm_compute; lia).
  split; [exact Hone|]. split; [reflexivity|].
  exact (proj1 (proj2 (default_role_at_most_one SampleRoles.name_filter
                         SampleRoles.cast_id SampleRoles.permission_ids
                         SampleRoles.accepts SampleRoles.accepts
                         SampleRoles.fresh_id SampleRoles.usersWithRole
                         SampleRoles.roles Hone))
           "64a000000000000000000002"
           (RoleController.mkUpdateRoleInput None None None (Some true))).
Defined.

(** [createRole] with [isDefault: true] hands the default over only when
    it succeeds: for a name that is free it clears every default role
    before it checks the permissions and creates the role, so a request
    that is then refused leaves the collection without a default role,
    and one that succeeds leaves the new role as the only default. *)
Theorem createRole_default_handover
    (name_filter : string -> RoleController.RoleRecord -> bool)
    (permission_ids : list string -> Outcome (list ObjectId))
    (create_rejects :
       list RoleController.RoleRecord -> RoleController.RoleRecord ->
       option JsError)
    (fresh_id : list RoleController.RoleRecord -> ObjectId)
    (roles : list RoleController.RoleRecord)
    (body : RoleController.CreateRoleInput) :
  find (name_filter (RoleController.create_name body)) roles = None ->
  RoleController.create_isDefault body = Some true ->
  let result := RoleController.createRole name_filter permission_ids
                  create_rejects fresh_id roles body in
  RoleController.defaults (fst result)
  = match snd result with
    | Responded _ _ =>
        [RoleController.created fresh_id (RoleController.clear_defaults roles)
           body]
    | Forwarded _ => []
    end.
Proof. apply RoleFacts.createRole_defaults. Qed.

Lemma createRole_default_handover_witness :
  let refused := RoleController.createRole SampleRoles.name_filter
                   SampleRoles.permission_ids SampleRoles.accepts
                   SampleRoles.fresh_id SampleRoles.roles SampleRoles.manager in
  let granted := RoleController.createRole SampleRoles.name_filter
                   SampleRoles.permission_ids SampleRoles.accepts
                   SampleRoles.fresh_id SampleRoles.roles SampleRoles.guest in
  snd refused
  = Forwarded (mkError "One or more permission IDs are invalid" (Some 400)) /\
  RoleController.defaults (fst refused) = [] /\
  RoleController.defaults (fst granted)
  = [RoleController.mkRoleRecord "64a0000000000000000000ff" "Guest" "Looks" []
       true].
Proof.
  intros refused granted. split; [reflexivity|]. split.
  - exact (createRole_default_handover SampleRoles.name_filter
             SampleRoles.permission_ids SampleRoles.accepts
             SampleRoles.fresh_id SampleRoles.roles SampleRoles.manager
             eq_refl eq_refl).
  - exact (createRole_default_handover SampleRoles.name_filter
             SampleRoles.permission_ids SampleRoles.accepts
             SampleRoles.fresh_id SampleRoles.roles SampleRoles.guest
             eq_refl eq_refl).
Defined.

(** A refused [createRole] can close registration: after a request with
    [isDefault: true] and a free name has been refused, [register]
    without a [roleId] answers every new email with 500 "Default role
    not found", and stores no user. *)
Theorem refused_createRole_blocks_register
    (name_filter : string -> RoleController.RoleRecord -> bool)
    (permission_ids : list string -> Outcome (list ObjectId))
    (create_rejects :
       list RoleController.RoleRecord -> RoleController.RoleRecord ->
       option JsError)
    (fresh_id : list RoleController.RoleRecord -> ObjectId)
    (bcrypt_hash : string -> string)
    (email_matches : string -> string -> bool)
    (email_setters : string -> string)
    (cast_id : string -> Outcome ObjectId)
    (user_rejects :
       list AuthController.UserRecord -> AuthController.UserRecord ->
       option JsError)
    (fresh_user_id : list AuthController.UserRecord -> ObjectId)
    (roles : list RoleController.RoleRecord)
    (body : RoleController.CreateRoleInput)
    (users : list AuthController.UserRecord)
    (registration : AuthController.RegisterInput) :
  find (name_filter (RoleController.create_name body)) roles = None ->
  RoleController.create_isDefault body = Some true ->
  (exists error,
     snd (RoleController.createRole name_filter permission_ids create_rejects
            fresh_id roles body) = Forwarded error) ->
  find (fun u => email_matches (AuthController.register_email registration)
                   (AuthController.email u)) users = None ->
  Js.truthy_str (AuthController.roleId registration) = false ->
  AuthController.register bcrypt_hash email_matches email_setters cast_id
    user_rejects fresh_user_id users
    (fst (RoleController.createRole name_filter permission_ids create_rejects
            fresh_id roles body))
    registration
  = (users, Forwarded (mkError "Default role not found" (Some 500))).
Proof.
  intros Hname Hflag (error & Hrefused) Hemail Hrole.
  pose proof (RoleFacts.createRole_defaults name_filter permission_ids
                create_rejects fresh_id roles body Hname Hflag) as Hnone.
  cbv zeta in Hnone. rewrite Hrefused in Hnone.
  apply RoleFacts.find_default_none in Hnone.
  unfold AuthController.register, AuthController.registration_role.
  rewrite Hemail, Hnone.
  destruct (AuthController.roleId registration); [|reflexivity].
  now rewrite Hrole.
Qed.

Lemma refused_createRole_blocks_register_witness :
  AuthController.register SampleAccounts.bcrypt_hash String.eqb (fun e => e)
    SampleRoles.cast_id (fun _ _ => None) (fun _ => "64b0000000000000000000ff")
    SampleAccounts.users
    (fst (RoleController.createRole SampleRoles.name_filter
            SampleRoles.permission_ids SampleRoles.accepts
            SampleRoles.fresh_id SampleRoles.roles SampleRoles.manager))
    SampleRoles.newcomer
  = (SampleAccounts.users,
     Forwarded (mkError "Default role not found" (Some 500))).
Proof.
  apply refused_createRole_blocks_register; try reflexivity.
  now exists (mkError "One or more permission IDs are invalid" (Some 400)).
Defined.

(** [deleteRole] never removes a default role: whatever the request and
    its outcome, the default roles afterwards are those before. *)
Theorem deleteRole_keeps_default_roles
    (cast_id : string -> Outcome ObjectId) (usersWithRole : string -> nat)
    (roles : list RoleController.RoleRecord) (id : string) :
  RoleController.defaults
    (fst (RoleController.deleteRole cast_id usersWithRole roles id))
  = RoleController.defaults roles.
Proof. apply RoleFacts.deleteRole_defaults. Qed.
